(** * Runtime trace recorder: a shallow embedding of [tracer.cpp]

    The tracer keeps its whole state in process-wide globals and is driven by
    notification entry points called from the instrumented program.  Here
    the globals become one record, [TracerState], every entry point becomes a
    state transformer named like its C++ counterpart, and the collaborators the
    tracer calls but does not implement ([dladdr], [abi::__cxa_demangle],
    [std::chrono::steady_clock]) are variables of the section.

    Conventions.
    - [int], [long long] and [void*] are [Z]; [nullptr] is [0].  The only
      counter that can wrap in a run, the [unsigned long] event counter, is
      reduced modulo [2^64] (LP64, the platform of the [dladdr] branch).
    - A [const char*] the code tests against NULL is an [option string].
    - [std::map] is [gmap], [std::set] is [gset], [std::vector] is [list] with
      [back] at the end of the list.
    - The output file is the list of chunks written to it so far.  The extra
      fields, which the code formats with [snprintf], are kept as the list of
      key/value pairs of the format string.  The cut [snprintf] makes at the
      size of the stack buffer (256 or 512 bytes) is not modelled: a theorem
      that reads a field takes the strings of the notification short enough
      for the buffer.
    - One thread: [TraceGuard] (the write lock) has no effect and is elided;
      [g_inside_tracer] is the flag of that thread.
    - The [std::string] locals of the handlers are part of the model, since
      [operator new] and [operator delete] are hooks of the tracer itself.  A
      string of at most 15 characters lives inside its object (libstdc++, the
      library of the [dladdr] branch); a longer one has a buffer that it gets
      from [operator new] and gives back to [operator delete] when the local
      dies, which is at the closing brace of the handler, after
      [TRACER_GUARD_EXIT].  The addresses of the buffers are the answers of
      the allocator, a variable of the section like the clock.  What happens
      inside the guard and is never seen by a hook (the copies the registries
      keep, the nodes of the maps) is not modelled.
    - Where C++ leaves the behaviour undefined the model is only a model of
      the runs that stay defined: the 256 bytes of the buffer [escaped] of
      [trace_var_str_loc] are not a limit here, and the [int] count of the
      iterations of a loop wraps at [2^31] as the machine does.  The
      registries are function-local statics: [finish_tracer] is modelled as a
      call while they are alive (at the exit of a process they are destroyed
      before a destructor function runs).
    - The branches for POSIX are the ones modelled (under [_WIN32] the two
      function hooks do not look symbols up).  Buffering ([setvbuf],
      [fflush]) and the unused [g_tracer_depth_protect] are left out. *)

From stdpp Require Import gmap strings list fin_maps.
Open Scope Z_scope.

(** ** Data model *)

(** [ArrayInfo::name] and [ArrayInfo::address] carry a prefix here, the
    other fields their own names. *)
Record ArrayInfo := {
  ai_name : string;
  baseType : string;
  ai_address : Z;
  dim1 : Z; dim2 : Z; dim3 : Z;
  isStack : bool
}.

Record ArrayElementKey := {
  arrayName : string;
  idx1 : Z; idx2 : Z; idx3 : Z
}.

Record PointerInfo := {
  pointerName : string;
  aliasedAddress : Z;
  isHeap : bool;
  heapAddress : Z
}.

Record CallFrame := {
  functionName : string;
  pointerAliases : gmap string PointerInfo;
  activeLoops : list Z;
  loopIterations : gmap Z Z
}.

Global Instance ArrayElementKey_eq_dec : EqDecision ArrayElementKey.
Proof. solve_decision. Defined.

Definition key_to_tuple (k : ArrayElementKey) : string * Z * Z * Z :=
  (arrayName k, idx1 k, idx2 k, idx3 k).

Definition key_of_tuple (t : string * Z * Z * Z) : ArrayElementKey :=
  let '(n, i, j, k) := t in {| arrayName := n; idx1 := i; idx2 := j; idx3 := k |}.

Global Instance ArrayElementKey_countable : Countable ArrayElementKey.
Proof.
  refine (inj_countable' key_to_tuple key_of_tuple _).
  intros []; reflexivity.
Defined.

(** [ArrayElementKey::operator<], the order of the element map. *)
Definition string_lt (a b : string) : bool :=
  match String.compare a b with Lt => true | _ => false end.

Definition ArrayElementKey_lt (a b : ArrayElementKey) : bool :=
  if negb (String.eqb (arrayName a) (arrayName b))
  then string_lt (arrayName a) (arrayName b)
  else if negb (idx1 a =? idx1 b) then idx1 a <? idx1 b
  else if negb (idx2 a =? idx2 b) then idx2 a <? idx2 b
  else idx3 a <? idx3 b.

(** The values of the extra fields of an event. *)
Inductive JVal :=
  | JInt (z : Z)
  | JStr (s : string)
  | JBool (b : bool)
  | JNull
  | JPtr (p : Z)
  | JInts (l : list Z)
  | JDouble (bits : Z)
  | JUnicode (code : Z).

Definition fld (k : string) (v : JVal) : string * JVal := (k, v).

Record Event := {
  ev_id : Z;
  ev_type : string;
  ev_addr : Z;
  ev_func : string;
  ev_depth : Z;
  ev_ts : Z;
  ev_extra : option (list (string * JVal))
}.

(** What the tracer writes to its file: the envelope header, the separator
    between two events, an event, and the trailer. *)
Inductive Chunk :=
  | Header
  | Separator
  | Ev (e : Event)
  | Trailer (tracked : gset string) (total_events : Z).

Record FILE := { f_path : string }.

Record Dl_info := {
  dli_fname : option string;
  dli_sname : option string
}.

Record TracerState := {
  g_trace_file : option FILE;
  g_depth : Z;
  g_event_counter : Z;
  g_inside_tracer : bool;
  g_tracer_disabled : bool;
  g_variable_values : gmap string Z;
  g_array_registry : gmap Z ArrayInfo;
  g_address_to_name : gmap Z string;
  g_array_element_values : gmap ArrayElementKey Z;
  g_tracked_functions : gset string;
  g_current_function : string;
  g_pointer_registry : gmap string PointerInfo;
  g_call_stack : list CallFrame;
  trace_out : list Chunk;
  trace_open : bool;
  clock_reads : nat;
  heap_reads : nat
}.

(** The values of the globals at program start (their static
    initialisers). *)
Definition initial_state : TracerState :=
  {| g_trace_file := None; g_depth := 0; g_event_counter := 0;
     g_inside_tracer := false; g_tracer_disabled := false;
     g_variable_values := ∅; g_array_registry := ∅; g_address_to_name := ∅;
     g_array_element_values := ∅; g_tracked_functions := ∅;
     g_current_function := "main"; g_pointer_registry := ∅;
     g_call_stack := []; trace_out := []; trace_open := false;
     clock_reads := 0%nat; heap_reads := 0%nat |}.

(** Assignments to one global. *)
Definition set_g_trace_file (v : option FILE) (s : TracerState) : TracerState :=
  {| g_trace_file := v; g_depth := g_depth s; g_event_counter := g_event_counter s;
     g_inside_tracer := g_inside_tracer s; g_tracer_disabled := g_tracer_disabled s;
     g_variable_values := g_variable_values s; g_array_registry := g_array_registry s;
     g_address_to_name := g_address_to_name s;
     g_array_element_values := g_array_element_values s;
     g_tracked_functions := g_tracked_functions s;
     g_current_function := g_current_function s;
     g_pointer_registry := g_pointer_registry s; g_call_stack := g_call_stack s;
     trace_out := trace_out s; trace_open := trace_open s;
     clock_reads := clock_reads s; heap_reads := heap_reads s |}.

Definition set_g_depth (v : Z) (s : TracerState) : TracerState :=
  {| g_trace_file := g_trace_file s; g_depth := v;
     g_event_counter := g_event_counter s; g_inside_tracer := g_inside_tracer s;
     g_tracer_disabled := g_tracer_disabled s;
     g_variable_values := g_variable_values s; g_array_registry := g_array_registry s;
     g_address_to_name := g_address_to_name s;
     g_array_element_values := g_array_element_values s;
     g_tracked_functions := g_tracked_functions s;
     g_current_function := g_current_function s;
     g_pointer_registry := g_pointer_registry s; g_call_stack := g_call_stack s;
     trace_out := trace_out s; trace_open := trace_open s;
     clock_reads := clock_reads s; heap_reads := heap_reads s |}.

Definition set_g_event_counter (v : Z) (s : TracerState) : TracerState :=
  {| g_trace_file := g_trace_file s; g_depth := g_depth s; g_event_counter := v;
     g_inside_tracer := g_inside_tracer s; g_tracer_disabled := g_tracer_disabled s;
     g_variable_values := g_variable_values s; g_array_registry := g_array_registry s;
     g_address_to_name := g_address_to_name s;
     g_array_element_values := g_array_element_values s;
     g_tracked_functions := g_tracked_functions s;
     g_current_function := g_current_function s;
     g_pointer_registry := g_pointer_registry s; g_call_stack := g_call_stack s;
     trace_out := trace_out s; trace_open := trace_open s;
     clock_reads := clock_reads s; heap_reads := heap_reads s |}.

Definition set_g_inside_tracer (v : bool) (s : TracerState) : TracerState :=
  {| g_trace_file := g_trace_file s; g_depth := g_depth s;
     g_event_counter := g_event_counter s; g_inside_tracer := v;
     g_tracer_disabled := g_tracer_disabled s;
     g_variable_values := g_variable_values s; g_array_registry := g_array_registry s;
     g_address_to_name := g_address_to_name s;
     g_array_element_values := g_array_element_values s;
     g_tracked_functions := g_tracked_functions s;
     g_current_function := g_current_function s;
     g_pointer_registry := g_pointer_registry s; g_call_stack := g_call_stack s;
     trace_out := trace_out s; trace_open := trace_open s;
     clock_reads := clock_reads s; heap_reads := heap_reads s |}.

Definition set_g_tracer_disabled (v : bool) (s : TracerState) : TracerState :=
  {| g_trace_file := g_trace_file s; g_depth := g_depth s;
     g_event_counter := g_event_counter s; g_inside_tracer := g_inside_tracer s;
     g_tracer_disabled := v; g_variable_values := g_variable_values s;
     g_array_registry := g_array_registry s; g_address_to_name := g_address_to_name s;
     g_array_element_values := g_array_element_values s;
     g_tracked_functions := g_tracked_functions s;
     g_current_function := g_current_function s;
     g_pointer_registry := g_pointer_registry s; g_call_stack := g_call_stack s;
     trace_out := trace_out s; trace_open := trace_open s;
     clock_reads := clock_reads s; heap_reads := heap_reads s |}.

Definition set_g_variable_values (v : gmap string Z) (s : TracerState) : TracerState :=
  {| g_trace_file := g_trace_file s; g_depth := g_depth s;
     g_event_counter := g_event_counter s; g_inside_tracer := g_inside_tracer s;
     g_tracer_disabled := g_tracer_disabled s; g_variable_values := v;
     g_array_registry := g_array_registry s; g_address_to_name := g_address_to_name s;
     g_array_element_values := g_array_element_values s;
     g_tracked_functions := g_tracked_functions s;
     g_current_function := g_current_function s;
     g_pointer_registry := g_pointer_registry s; g_call_stack := g_call_stack s;
     trace_out := trace_out s; trace_open := trace_open s;
     clock_reads := clock_reads s; heap_reads := heap_reads s |}.

Definition set_g_array_registry (v : gmap Z ArrayInfo) (s : TracerState) : TracerState :=
  {| g_trace_file := g_trace_file s; g_depth := g_depth s;
     g_event_counter := g_event_counter s; g_inside_tracer := g_inside_tracer s;
     g_tracer_disabled := g_tracer_disabled s;
     g_variable_values := g_variable_values s; g_array_registry := v;
     g_address_to_name := g_address_to_name s;
     g_array_element_values := g_array_element_values s;
     g_tracked_functions := g_tracked_functions s;
     g_current_function := g_current_function s;
     g_pointer_registry := g_pointer_registry s; g_call_stack := g_call_stack s;
     trace_out := trace_out s; trace_open := trace_open s;
     clock_reads := clock_reads s; heap_reads := heap_reads s |}.

Definition set_g_address_to_name (v : gmap Z string) (s : TracerState) : TracerState :=
  {| g_trace_file := g_trace_file s; g_depth := g_depth s;
     g_event_counter := g_event_counter s; g_inside_tracer := g_inside_tracer s;
     g_tracer_disabled := g_tracer_disabled s;
     g_variable_values := g_variable_values s; g_array_registry := g_array_registry s;
     g_address_to_name := v; g_array_element_values := g_array_element_values s;
     g_tracked_functions := g_tracked_functions s;
     g_current_function := g_current_function s;
     g_pointer_registry := g_pointer_registry s; g_call_stack := g_call_stack s;
     trace_out := trace_out s; trace_open := trace_open s;
     clock_reads := clock_reads s; heap_reads := heap_reads s |}.

Definition set_g_array_element_values (v : gmap ArrayElementKey Z) (s : TracerState) : TracerState :=
  {| g_trace_file := g_trace_file s; g_depth := g_depth s;
     g_event_counter := g_event_counter s; g_inside_tracer := g_inside_tracer s;
     g_tracer_disabled := g_tracer_disabled s;
     g_variable_values := g_variable_values s; g_array_registry := g_array_registry s;
     g_address_to_name := g_address_to_name s; g_array_element_values := v;
     g_tracked_functions := g_tracked_functions s;
     g_current_function := g_current_function s;
     g_pointer_registry := g_pointer_registry s; g_call_stack := g_call_stack s;
     trace_out := trace_out s; trace_open := trace_open s;
     clock_reads := clock_reads s; heap_reads := heap_reads s |}.

Definition set_g_tracked_functions (v : gset string) (s : TracerState) : TracerState :=
  {| g_trace_file := g_trace_file s; g_depth := g_depth s;
     g_event_counter := g_event_counter s; g_inside_tracer := g_inside_tracer s;
     g_tracer_disabled := g_tracer_disabled s;
     g_variable_values := g_variable_values s; g_array_registry := g_array_registry s;
     g_address_to_name := g_address_to_name s;
     g_array_element_values := g_array_element_values s; g_tracked_functions := v;
     g_current_function := g_current_function s;
     g_pointer_registry := g_pointer_registry s; g_call_stack := g_call_stack s;
     trace_out := trace_out s; trace_open := trace_open s;
     clock_reads := clock_reads s; heap_reads := heap_reads s |}.

Definition set_g_current_function (v : string) (s : TracerState) : TracerState :=
  {| g_trace_file := g_trace_file s; g_depth := g_depth s;
     g_event_counter := g_event_counter s; g_inside_tracer := g_inside_tracer s;
     g_tracer_disabled := g_tracer_disabled s;
     g_variable_values := g_variable_values s; g_array_registry := g_array_registry s;
     g_address_to_name := g_address_to_name s;
     g_array_element_values := g_array_element_values s;
     g_tracked_functions := g_tracked_functions s; g_current_function := v;
     g_pointer_registry := g_pointer_registry s; g_call_stack := g_call_stack s;
     trace_out := trace_out s; trace_open := trace_open s;
     clock_reads := clock_reads s; heap_reads := heap_reads s |}.

Definition set_g_pointer_registry (v : gmap string PointerInfo) (s : TracerState) : TracerState :=
  {| g_trace_file := g_trace_file s; g_depth := g_depth s;
     g_event_counter := g_event_counter s; g_inside_tracer := g_inside_tracer s;
     g_tracer_disabled := g_tracer_disabled s;
     g_variable_values := g_variable_values s; g_array_registry := g_array_registry s;
     g_address_to_name := g_address_to_name s;
     g_array_element_values := g_array_element_values s;
     g_tracked_functions := g_tracked_functions s;
     g_current_function := g_current_function s; g_pointer_registry := v;
     g_call_stack := g_call_stack s; trace_out := trace_out s;
     trace_open := trace_open s; clock_reads := clock_reads s;
     heap_reads := heap_reads s |}.

Definition set_g_call_stack (v : list CallFrame) (s : TracerState) : TracerState :=
  {| g_trace_file := g_trace_file s; g_depth := g_depth s;
     g_event_counter := g_event_counter s; g_inside_tracer := g_inside_tracer s;
     g_tracer_disabled := g_tracer_disabled s;
     g_variable_values := g_variable_values s; g_array_registry := g_array_registry s;
     g_address_to_name := g_address_to_name s;
     g_array_element_values := g_array_element_values s;
     g_tracked_functions := g_tracked_functions s;
     g_current_function := g_current_function s;
     g_pointer_registry := g_pointer_registry s; g_call_stack := v;
     trace_out := trace_out s; trace_open := trace_open s;
     clock_reads := clock_reads s; heap_reads := heap_reads s |}.

Definition set_trace_out (v : list Chunk) (s : TracerState) : TracerState :=
  {| g_trace_file := g_trace_file s; g_depth := g_depth s;
     g_event_counter := g_event_counter s; g_inside_tracer := g_inside_tracer s;
     g_tracer_disabled := g_tracer_disabled s;
     g_variable_values := g_variable_values s; g_array_registry := g_array_registry s;
     g_address_to_name := g_address_to_name s;
     g_array_element_values := g_array_element_values s;
     g_tracked_functions := g_tracked_functions s;
     g_current_function := g_current_function s;
     g_pointer_registry := g_pointer_registry s; g_call_stack := g_call_stack s;
     trace_out := v; trace_open := trace_open s; clock_reads := clock_reads s;
     heap_reads := heap_reads s |}.

Definition set_trace_open (v : bool) (s : TracerState) : TracerState :=
  {| g_trace_file := g_trace_file s; g_depth := g_depth s;
     g_event_counter := g_event_counter s; g_inside_tracer := g_inside_tracer s;
     g_tracer_disabled := g_tracer_disabled s;
     g_variable_values := g_variable_values s; g_array_registry := g_array_registry s;
     g_address_to_name := g_address_to_name s;
     g_array_element_values := g_array_element_values s;
     g_tracked_functions := g_tracked_functions s;
     g_current_function := g_current_function s;
     g_pointer_registry := g_pointer_registry s; g_call_stack := g_call_stack s;
     trace_out := trace_out s; trace_open := v; clock_reads := clock_reads s;
     heap_reads := heap_reads s |}.

Definition set_clock_reads (v : nat) (s : TracerState) : TracerState :=
  {| g_trace_file := g_trace_file s; g_depth := g_depth s;
     g_event_counter := g_event_counter s; g_inside_tracer := g_inside_tracer s;
     g_tracer_disabled := g_tracer_disabled s;
     g_variable_values := g_variable_values s; g_array_registry := g_array_registry s;
     g_address_to_name := g_address_to_name s;
     g_array_element_values := g_array_element_values s;
     g_tracked_functions := g_tracked_functions s;
     g_current_function := g_current_function s;
     g_pointer_registry := g_pointer_registry s; g_call_stack := g_call_stack s;
     trace_out := trace_out s; trace_open := trace_open s; clock_reads := v;
     heap_reads := heap_reads s |}.

Definition set_heap_reads (v : nat) (s : TracerState) : TracerState :=
  {| g_trace_file := g_trace_file s; g_depth := g_depth s;
     g_event_counter := g_event_counter s; g_inside_tracer := g_inside_tracer s;
     g_tracer_disabled := g_tracer_disabled s;
     g_variable_values := g_variable_values s; g_array_registry := g_array_registry s;
     g_address_to_name := g_address_to_name s;
     g_array_element_values := g_array_element_values s;
     g_tracked_functions := g_tracked_functions s;
     g_current_function := g_current_function s;
     g_pointer_registry := g_pointer_registry s; g_call_stack := g_call_stack s;
     trace_out := trace_out s; trace_open := trace_open s;
     clock_reads := clock_reads s; heap_reads := v |}.

Definition set_pointerAliases (v : gmap string PointerInfo) (f : CallFrame) : CallFrame :=
  {| functionName := functionName f; pointerAliases := v;
     activeLoops := activeLoops f; loopIterations := loopIterations f |}.

Definition set_activeLoops (v : list Z) (f : CallFrame) : CallFrame :=
  {| functionName := functionName f; pointerAliases := pointerAliases f;
     activeLoops := v; loopIterations := loopIterations f |}.

Definition set_loopIterations (v : gmap Z Z) (f : CallFrame) : CallFrame :=
  {| functionName := functionName f; pointerAliases := pointerAliases f;
     activeLoops := activeLoops f; loopIterations := v |}.

(** ** Vectors and C strings *)

(** [v.back()], [v.pop_back()] and an update of [v.back()] in place. *)
Definition back {A} (v : list A) : option A := last v.

Definition pop_back {A} (v : list A) : list A := removelast v.

Definition with_back {A} (f : A → A) (v : list A) : list A :=
  match back v with
  | Some x => pop_back v ++ [f x]
  | None => v
  end.

(** [std::find] followed by [erase]: the first occurrence goes. *)
Fixpoint erase_first (x : Z) (l : list Z) : list Z :=
  match l with
  | [] => []
  | y :: l' => if Z.eqb y x then l' else y :: erase_first x l'
  end.

(** An [int] after an increment: the value modulo [2^32], read as a signed
    number.  (Overflow of a signed integer is undefined in C++; this is what
    the machine computes, and it is the identity below [2^31].) *)
Definition int_wrap (z : Z) : Z := (z + 2 ^ 31) mod 2 ^ 32 - 2 ^ 31.

(** [strstr(haystack, needle) != NULL]. *)
Fixpoint strstr (haystack needle : string) : bool :=
  String.prefix needle haystack ||
  match haystack with
  | EmptyString => false
  | String _ rest => strstr rest needle
  end.

Definition char_backslash : Ascii.ascii := Ascii.ascii_of_nat 92.
Definition char_slash : Ascii.ascii := Ascii.ascii_of_nat 47.
Definition char_quote : Ascii.ascii := Ascii.ascii_of_nat 34.
Definition char_cr : Ascii.ascii := Ascii.ascii_of_nat 13.
Definition char_lf : Ascii.ascii := Ascii.ascii_of_nat 10.

Fixpoint string_map (f : Ascii.ascii → Ascii.ascii) (s : string) : string :=
  match s with
  | EmptyString => EmptyString
  | String c s' => String (f c) (string_map f s')
  end.

Fixpoint string_remove (c : Ascii.ascii) (s : string) : string :=
  match s with
  | EmptyString => EmptyString
  | String d s' => if Ascii.eqb d c then string_remove c s' else String d (string_remove c s')
  end.

Fixpoint string_take (n : nat) (s : string) : string :=
  match n, s with
  | S n', String c s' => String c (string_take n' s')
  | _, _ => EmptyString
  end.

Definition json_safe_path (raw : option string) : string :=
  match raw with
  | None => ""
  | Some s => string_map (fun c => if Ascii.eqb c char_backslash then char_slash else c) s
  end.

Definition normalize_function_name (name : option string) : string :=
  match name with
  | None => "unknown"
  | Some s => string_remove char_lf (string_remove char_cr s)
  end.

(** The loop of [trace_var_str_loc] that escapes quotes and backslashes in
    the first 250 characters of the value. *)
Fixpoint escape_chars (fuel : nat) (value : string) : string :=
  match fuel, value with
  | S fuel', String c rest =>
      if Ascii.eqb c char_quote || Ascii.eqb c char_backslash
      then String char_backslash (String c (escape_chars fuel' rest))
      else String c (escape_chars fuel' rest)
  | _, _ => EmptyString
  end.

Definition escape_value (value : option string) : string :=
  match value with
  | None => ""
  | Some v => escape_chars 250 v
  end.

(** The characters of a string literal as [char] values, [char] being
    signed as on the platforms of the [dladdr] branch. *)
Definition char_values (s : string) : list Z :=
  map (fun c => let n := Z.of_nat (Ascii.nat_of_ascii c) in
                if 128 <=? n then n - 256 else n) (String.list_ascii_of_string s).

Definition bool_of_option {A} (o : option A) : bool :=
  match o with Some _ => true | None => false end.

(** ** The guard macros *)

Definition TRACER_GUARD_ENTER (s : TracerState) : option TracerState :=
  if g_tracer_disabled s then None
  else if g_inside_tracer s then None
  else Some (set_g_inside_tracer true s).

Definition TRACER_GUARD_EXIT (s : TracerState) : TracerState :=
  set_g_inside_tracer false s.

Definition no_trace_file (s : TracerState) : bool :=
  negb (bool_of_option (g_trace_file s)).

Definition fputs (c : Chunk) (s : TracerState) : TracerState :=
  set_trace_out (trace_out s ++ [c]) s.

(** ** Notifications

    One constructor for each entry point of the tracer, with its arguments.
    The allocation hooks carry the pointer the real allocator returned, or
    the pointer being released.  The entry points [trace_var_int] ...
    [trace_var_str] without location are those with location called on
    ("unknown", 0). *)
Inductive Notification :=
  | OutputFlush (file : option string) (line : Z)
  | ConditionEval (conditionId : Z) (expression : string) (result : Z)
      (file : option string) (line : Z)
  | BranchTaken (conditionId : Z) (branchType : string) (file : option string) (line : Z)
  | ArrayCreate (name baseType : string) (address d1 d2 d3 : Z) (stack : bool)
      (file : option string) (line : Z)
  | ArrayInitString (name : string) (str_literal : option string)
      (file : option string) (line : Z)
  | ArrayInit (name : string) (values : list Z) (count : Z) (file : option string) (line : Z)
  | ArrayIndexAssign (name : string) (i1 i2 i3 value : Z) (file : option string) (line : Z)
  | PointerAlias (name : string) (aliased : Z) (decayedFromArray : bool)
      (file : option string) (line : Z)
  | PointerDerefWrite (ptrName : string) (value : Z) (file : option string) (line : Z)
  | DeclareVar (name type : string) (address : Z) (file : option string) (line : Z)
  | Assign (name : string) (value : Z) (file : option string) (line : Z)
  | PointerHeapInit (ptrName : string) (heapAddr : Z) (file : option string) (line : Z)
  | ControlFlow (controlType : string) (file : option string) (line : Z)
  | LoopStart (loopId : Z) (loopType : string) (file : option string) (line : Z)
  | LoopBodyStart (loopId : Z) (file : option string) (line : Z)
  | LoopIterationEnd (loopId : Z) (file : option string) (line : Z)
  | LoopEnd (loopId : Z) (file : option string) (line : Z)
  | LoopCondition (loopId result : Z) (file : option string) (line : Z)
  | Return (value : Z) (returnType destinationSymbol : option string)
      (file : option string) (line : Z)
  | BlockEnter (blockDepth : Z) (file : option string) (line : Z)
  | BlockExit (blockDepth : Z) (file : option string) (line : Z)
  | VarInt (name : string) (value : Z) (file : option string) (line : Z)
  | VarLong (name : string) (value : Z) (file : option string) (line : Z)
  | VarDouble (name : string) (value_bits : Z) (file : option string) (line : Z)
  | VarPtr (name : string) (value : Z) (file : option string) (line : Z)
  | VarStr (name : string) (value : option string) (file : option string) (line : Z)
  | FuncEnter (func caller : Z)
  | FuncExit (func caller : Z)
  | OperatorNew (size ptr : Z)
  | OperatorNewArray (size ptr : Z)
  | OperatorDelete (ptr : Z)
  | OperatorDeleteArray (ptr : Z)
  | Malloc (size ptr : Z)
  | Free (ptr : Z).

(** ** An example process

    A symbol table with a user function at address 100, a static
    initialiser at 200 and a function of a system library at 300; the clock
    advances by one microsecond per reading. *)
Definition demo_dladdr (func : Z) : option Dl_info :=
  if func =? 100
  then Some {| dli_fname := Some "/home/user/a.out"; dli_sname := Some "_Z1fv" |}
  else if func =? 200
  then Some {| dli_fname := Some "/home/user/a.out";
               dli_sname := Some "_GLOBAL__sub_I_main" |}
  else if func =? 300
  then Some {| dli_fname := Some "/usr/lib/libm.so.6"; dli_sname := Some "cos" |}
  else None.

Definition demo_demangle (name : string) : option string :=
  if String.eqb name "_Z1fv" then Some "f()" else None.

Definition demo_clock (n : nat) : Z := 1000 + Z.of_nat n.

(** The allocator hands out a buffer every 64 bytes above 65536. *)
Definition demo_heap (n : nat) : positive := (65536 + 64 * Pos.of_succ_nat n)%positive.

Definition demo_frame : CallFrame :=
  {| functionName := "f()"; pointerAliases := ∅; activeLoops := []; loopIterations := ∅ |}.

Section Tracer.

(** The collaborators: the dynamic linker's symbol lookup, the demangler of
    the C++ runtime and the successive readings of the steady clock, in
    microseconds. *)
Variable dladdr : Z → option Dl_info.
Variable cxa_demangle : string → option string.
Variable steady_clock_us : nat → Z.

(** The answers of the allocator to the tracer's own strings: the
    address of the [n]-th buffer one of them gets (never null). *)
Variable heap_address : nat → positive.

Definition get_timestamp_us (s : TracerState) : Z * TracerState :=
  (Z.land (steady_clock_us (clock_reads s)) 0xFFFFFFFF,
   set_clock_reads (S (clock_reads s)) s).

(** [demangle] is only called on a non-null name; the demangled name goes
    through a buffer of 512 bytes. *)
Definition demangle (name : string) : string :=
  match cxa_demangle name with
  | Some real => string_take 511 real
  | None => name
  end.

(** ** The event recorder *)

Definition write_json_event (type : string) (addr : Z) (func_name : option string)
    (depth : Z) (extra : option (list (string * JVal))) (s : TracerState) : TracerState :=
  if no_trace_file s || (2048 <=? g_depth s) then s
  else
    let s := if 0 <? g_event_counter s then fputs Separator s else s in
    let id := g_event_counter s in
    let s := set_g_event_counter ((id + 1) mod 2 ^ 64) s in
    let '(ts, s) := get_timestamp_us s in
    fputs (Ev {| ev_id := id; ev_type := type; ev_addr := addr;
                 ev_func := default "unknown" func_name;
                 ev_depth := depth; ev_ts := ts; ev_extra := extra |}) s.

(** ** Allocation hooks

    [ptr] is what the real allocator returned (for the allocating hooks) or
    the pointer being released.  The three allocating hooks and the three
    releasing hooks have the same body up to the name they report. *)
Definition alloc_hook (who : string) (size ptr : Z) (s : TracerState) : TracerState :=
  if g_tracer_disabled s || g_inside_tracer s || (2048 <=? g_depth s) then s
  else
    let s := set_g_inside_tracer true s in
    let s := if negb (ptr =? 0) && bool_of_option (g_trace_file s) && negb (g_tracer_disabled s)
             then write_json_event "heap_alloc" ptr (Some who) (g_depth s)
                    (Some [fld "size" (JInt size); fld "isHeap" (JBool true)]) s
             else s in
    TRACER_GUARD_EXIT s.

Definition free_hook (who : string) (ptr : Z) (s : TracerState) : TracerState :=
  if g_tracer_disabled s || g_inside_tracer s || (2048 <=? g_depth s) then s
  else
    let s := set_g_inside_tracer true s in
    let s := if negb (ptr =? 0) && bool_of_option (g_trace_file s) && negb (g_tracer_disabled s)
             then write_json_event "heap_free" ptr (Some who) (g_depth s) None s
             else s in
    TRACER_GUARD_EXIT s.

Definition operator_new : Z → Z → TracerState → TracerState := alloc_hook "operator new".
Definition operator_new_array : Z → Z → TracerState → TracerState := alloc_hook "operator new[]".
Definition operator_delete : Z → TracerState → TracerState := free_hook "operator delete".
Definition operator_delete_array : Z → TracerState → TracerState := free_hook "operator delete[]".
Definition malloc : Z → Z → TracerState → TracerState := alloc_hook "malloc".
Definition free : Z → TracerState → TracerState := free_hook "free".

(** ** The strings of the handlers

    A [std::string] whose content has more than 15 characters when it is
    built (or assigned to a fresh string) keeps it in a buffer from
    [operator new]. *)
Definition on_heap (str : string) : bool := 15 <? Z.of_nat (String.length str).

(** The buffer a string with content [str] gets in state [s], if it needs
    one: the next answer of the allocator. *)
Definition string_buffer (str : string) (s : TracerState) : option Z :=
  if on_heap str then Some (Z.pos (heap_address (heap_reads s))) else None.

(** A string built inside the guard: [operator new] returns at once there
    (see [string_new_inside]), so that all the tracer sees of it is that
    the allocator has given one more answer. *)
Definition take_buffer (str : string) (s : TracerState) : TracerState :=
  if on_heap str then set_heap_reads (S (heap_reads s)) s else s.

(** A string built from a C string wherever the thread is: [operator new]
    is called for the characters and the terminator. *)
Definition string_new (str : string) (s : TracerState) : TracerState :=
  match string_buffer str s with
  | Some buf =>
      operator_new (Z.of_nat (String.length str) + 1) buf (take_buffer str s)
  | None => s
  end.

(** The destructor of a string: [operator delete] on its buffer. *)
Definition string_delete (buf : option Z) (s : TracerState) : TracerState :=
  match buf with
  | Some p => operator_delete p s
  | None => s
  end.

(** The locals of a handler die at its closing brace, the last declared
    first; [bufs] are their buffers in that order. *)
Definition release (bufs : list (option Z)) (s : TracerState) : TracerState :=
  fold_left (fun s buf => string_delete buf s) bufs s.

(** The search of [findPointerInfo] through the frames, innermost first. *)
Fixpoint find_in_frames (ptrName : string) (frames : list CallFrame) : option PointerInfo :=
  match frames with
  | [] => None
  | fr :: outer =>
      match pointerAliases fr !! ptrName with
      | Some pinfo => Some pinfo
      | None => find_in_frames ptrName outer
      end
  end.

Definition findPointerInfo (ptrName : string) (s : TracerState) : option PointerInfo :=
  match find_in_frames ptrName (rev (g_call_stack s)) with
  | Some pinfo => Some pinfo
  | None => g_pointer_registry s !! ptrName
  end.

(** ** Notification handlers

    Each handler ends with the destructors of its locals, after
    [TRACER_GUARD_EXIT]; on the ways out before any local is built there is
    none. *)

Definition __trace_output_flush_loc (file : option string) (line : Z)
    (s : TracerState) : TracerState :=
  match TRACER_GUARD_ENTER s with
  | None => s
  | Some s => TRACER_GUARD_EXIT s
  end.

Definition __trace_condition_eval_loc (conditionId : Z) (expression : string) (result : Z)
    (file : option string) (line : Z) (s : TracerState) : TracerState :=
  match TRACER_GUARD_ENTER s with
  | None => s
  | Some s =>
      if no_trace_file s then TRACER_GUARD_EXIT s
      else
        let f := json_safe_path file in
        let f_buf := string_buffer f s in
        let s := take_buffer f s in
        let extra := [fld "conditionId" (JInt conditionId); fld "expression" (JStr expression);
                      fld "result" (JInt result); fld "file" (JStr f); fld "line" (JInt line)] in
        let s := write_json_event "condition_eval" 0 (Some (g_current_function s))
                   (g_depth s) (Some extra) s in
        release [f_buf] (TRACER_GUARD_EXIT s)
  end.

Definition __trace_branch_taken_loc (conditionId : Z) (branchType : string)
    (file : option string) (line : Z) (s : TracerState) : TracerState :=
  match TRACER_GUARD_ENTER s with
  | None => s
  | Some s =>
      if no_trace_file s then TRACER_GUARD_EXIT s
      else
        let f := json_safe_path file in
        let f_buf := string_buffer f s in
        let s := take_buffer f s in
        let extra := [fld "conditionId" (JInt conditionId); fld "branchType" (JStr branchType);
                      fld "file" (JStr f); fld "line" (JInt line)] in
        let s := write_json_event "branch_taken" 0 (Some (g_current_function s))
                   (g_depth s) (Some extra) s in
        release [f_buf] (TRACER_GUARD_EXIT s)
  end.

Definition __trace_array_create_loc (name baseType : string) (address d1 d2 d3 : Z)
    (stack : bool) (file : option string) (line : Z) (s : TracerState) : TracerState :=
  match TRACER_GUARD_ENTER s with
  | None => s
  | Some s =>
      if no_trace_file s then TRACER_GUARD_EXIT s
      else
        let s := set_g_address_to_name (<[address := name]> (g_address_to_name s)) s in
        let f := json_safe_path file in
        let f_buf := string_buffer f s in
        let s := take_buffer f s in
        let dims := if 0 <? d3 then [d1; d2; d3]
                    else if 0 <? d2 then [d1; d2]
                    else [d1] in
        let extra := [fld "name" (JStr name); fld "baseType" (JStr baseType);
                      fld "dimensions" (JInts dims); fld "isStack" (JBool stack);
                      fld "file" (JStr f); fld "line" (JInt line)] in
        let s := write_json_event "array_create" address (Some (g_current_function s))
                   (g_depth s) (Some extra) s in
        let info := {| ai_name := name; baseType := baseType; ai_address := address;
                       dim1 := d1; dim2 := d2; dim3 := d3; isStack := stack |} in
        let name_buf := string_buffer name s in
        let s := take_buffer name s in
        let type_buf := string_buffer baseType s in
        let s := take_buffer baseType s in
        let s := set_g_array_registry (<[address := info]> (g_array_registry s)) s in
        release [type_buf; name_buf; f_buf] (TRACER_GUARD_EXIT s)
  end.

(** One round of the loops of the two array initialisers: the event, then
    the write of the element. *)
Definition init_element (name : string) (i value : Z) (extra : list (string * JVal))
    (s : TracerState) : TracerState :=
  let s := write_json_event "array_index_assign" 0 (Some (g_current_function s))
             (g_depth s) (Some extra) s in
  let key := {| arrayName := name; idx1 := i; idx2 := -1; idx3 := -1 |} in
  set_g_array_element_values (<[key := value]> (g_array_element_values s)) s.

Definition __trace_array_init_string_loc (name : string) (str_literal : option string)
    (file : option string) (line : Z) (s : TracerState) : TracerState :=
  match TRACER_GUARD_ENTER s with
  | None => s
  | Some s =>
      if no_trace_file s then TRACER_GUARD_EXIT s
      else
        let f := json_safe_path file in
        let f_buf := string_buffer f s in
        let s := take_buffer f s in
        let chars := match str_literal with
                     | Some lit => char_values lit ++ [0]
                     | None => [0]
                     end in
        let s := fold_left
                   (fun s ic =>
                      let '(i, c) := ic in
                      init_element name i c
                        [fld "name" (JStr name); fld "indices" (JInts [i]);
                         fld "value" (JInt c); fld "char" (JUnicode (c mod 256));
                         fld "file" (JStr f); fld "line" (JInt line)] s)
                   (zip (seqZ 0 (Z.of_nat (length chars))) chars) s in
        release [f_buf] (TRACER_GUARD_EXIT s)
  end.

(** [values] is the array of [int] behind the [void*] argument. *)
Definition __trace_array_init_loc (name : string) (values : list Z) (count : Z)
    (file : option string) (line : Z) (s : TracerState) : TracerState :=
  match TRACER_GUARD_ENTER s with
  | None => s
  | Some s =>
      if no_trace_file s then TRACER_GUARD_EXIT s
      else
        let f := json_safe_path file in
        let f_buf := string_buffer f s in
        let s := take_buffer f s in
        let s := fold_left
                   (fun s i =>
                      let v := default 0 (values !! Z.to_nat i) in
                      init_element name i v
                        [fld "name" (JStr name); fld "indices" (JInts [i]);
                         fld "value" (JInt v); fld "file" (JStr f); fld "line" (JInt line)] s)
                   (seqZ 0 count) s in
        release [f_buf] (TRACER_GUARD_EXIT s)
  end.

Definition __trace_array_index_assign_loc (name : string) (i1 i2 i3 value : Z)
    (file : option string) (line : Z) (s : TracerState) : TracerState :=
  match TRACER_GUARD_ENTER s with
  | None => s
  | Some s =>
      if no_trace_file s then TRACER_GUARD_EXIT s
      else
        let key := {| arrayName := name; idx1 := i1; idx2 := i2; idx3 := i3 |} in
        let key_buf := string_buffer name s in
        let s := take_buffer name s in
        let s := set_g_array_element_values (<[key := value]> (g_array_element_values s)) s in
        let f := json_safe_path file in
        let f_buf := string_buffer f s in
        let s := take_buffer f s in
        let indices := if 0 <=? i3 then [i1; i2; i3]
                       else if 0 <=? i2 then [i1; i2]
                       else [i1] in
        let extra := [fld "name" (JStr name); fld "indices" (JInts indices);
                      fld "value" (JInt value); fld "file" (JStr f); fld "line" (JInt line)] in
        let s := write_json_event "array_index_assign" 0 (Some (g_current_function s))
                   (g_depth s) (Some extra) s in
        release [f_buf; key_buf] (TRACER_GUARD_EXIT s)
  end.

Definition __trace_pointer_alias_loc (name : string) (aliased : Z) (decayedFromArray : bool)
    (file : option string) (line : Z) (s : TracerState) : TracerState :=
  match TRACER_GUARD_ENTER s with
  | None => s
  | Some s =>
      if no_trace_file s then TRACER_GUARD_EXIT s
      else
        let aliasOfName := default "unknown" (g_address_to_name s !! aliased) in
        let alias_buf := string_buffer aliasOfName s in
        let s := take_buffer aliasOfName s in
        let f := json_safe_path file in
        let f_buf := string_buffer f s in
        let s := take_buffer f s in
        let extra := [fld "name" (JStr name); fld "aliasOf" (JStr aliasOfName);
                      fld "aliasedAddress" (JPtr aliased);
                      fld "decayedFromArray" (JBool decayedFromArray);
                      fld "file" (JStr f); fld "line" (JInt line)] in
        let s := write_json_event "pointer_alias" aliased (Some (g_current_function s))
                   (g_depth s) (Some extra) s in
        let pinfo := {| pointerName := name; aliasedAddress := aliased;
                        isHeap := false; heapAddress := 0 |} in
        let name_buf := string_buffer name s in
        let s := take_buffer name s in
        let s := match g_call_stack s with
                 | _ :: _ =>
                     set_g_call_stack
                       (with_back (fun fr => set_pointerAliases (<[name := pinfo]> (pointerAliases fr)) fr)
                          (g_call_stack s)) s
                 | [] => set_g_pointer_registry (<[name := pinfo]> (g_pointer_registry s)) s
                 end in
        release [name_buf; f_buf; alias_buf] (TRACER_GUARD_EXIT s)
  end.

Definition __trace_pointer_deref_write_loc (ptrName : string) (value : Z)
    (file : option string) (line : Z) (s : TracerState) : TracerState :=
  match TRACER_GUARD_ENTER s with
  | None => s
  | Some s =>
      if no_trace_file s then TRACER_GUARD_EXIT s
      else
        let f := json_safe_path file in
        let f_buf := string_buffer f s in
        let s := take_buffer f s in
        let pinfo := findPointerInfo ptrName s in
        let '(targetName, heap, targetAddress) :=
          match pinfo with
          | Some p =>
              (default "unknown" (g_address_to_name s !! aliasedAddress p),
               isHeap p, aliasedAddress p)
          | None => ("unknown", false, 0)
          end in
        let target_buf := string_buffer targetName s in
        let s := take_buffer targetName s in
        let extra := [fld "pointerName" (JStr ptrName); fld "value" (JInt value);
                      fld "targetName" (JStr targetName); fld "isHeap" (JBool heap);
                      fld "file" (JStr f); fld "line" (JInt line)] in
        let s := write_json_event "pointer_deref_write" targetAddress
                   (Some (g_current_function s)) (g_depth s) (Some extra) s in
        let s := if heap
                 then
                   let heap_extra := [fld "address" (JPtr targetAddress); fld "value" (JInt value);
                                      fld "file" (JStr f); fld "line" (JInt line)] in
                   write_json_event "heap_write" targetAddress (Some (g_current_function s))
                     (g_depth s) (Some heap_extra) s
                 else s in
        release [target_buf; f_buf] (TRACER_GUARD_EXIT s)
  end.

Definition __trace_declare_loc (name type : string) (address : Z)
    (file : option string) (line : Z) (s : TracerState) : TracerState :=
  match TRACER_GUARD_ENTER s with
  | None => s
  | Some s =>
      if no_trace_file s then TRACER_GUARD_EXIT s
      else
        let s := set_g_address_to_name (<[address := name]> (g_address_to_name s)) s in
        let f := json_safe_path file in
        let f_buf := string_buffer f s in
        let s := take_buffer f s in
        let extra := [fld "name" (JStr name); fld "varType" (JStr type); fld "value" JNull;
                      fld "address" (JPtr address); fld "file" (JStr f); fld "line" (JInt line)] in
        let s := write_json_event "declare" address (Some name) (g_depth s) (Some extra) s in
        release [f_buf] (TRACER_GUARD_EXIT s)
  end.

Definition __trace_assign_loc (name : string) (value : Z)
    (file : option string) (line : Z) (s : TracerState) : TracerState :=
  match TRACER_GUARD_ENTER s with
  | None => s
  | Some s =>
      if no_trace_file s then TRACER_GUARD_EXIT s
      else
        let s := set_g_variable_values (<[name := value]> (g_variable_values s)) s in
        let f := json_safe_path file in
        let f_buf := string_buffer f s in
        let s := take_buffer f s in
        let extra := [fld "name" (JStr name); fld "value" (JInt value);
                      fld "file" (JStr f); fld "line" (JInt line)] in
        let s := write_json_event "assign" 0 (Some name) (g_depth s) (Some extra) s in
        release [f_buf] (TRACER_GUARD_EXIT s)
  end.

Definition __trace_pointer_heap_init_loc (ptrName : string) (heapAddr : Z)
    (file : option string) (line : Z) (s : TracerState) : TracerState :=
  match TRACER_GUARD_ENTER s with
  | None => s
  | Some s =>
      if no_trace_file s then TRACER_GUARD_EXIT s
      else
        let pinfo := {| pointerName := ptrName; aliasedAddress := heapAddr;
                        isHeap := true; heapAddress := heapAddr |} in
        let name_buf := string_buffer ptrName s in
        let s := take_buffer ptrName s in
        let s := match g_call_stack s with
                 | _ :: _ =>
                     set_g_call_stack
                       (with_back (fun fr => set_pointerAliases (<[ptrName := pinfo]> (pointerAliases fr)) fr)
                          (g_call_stack s)) s
                 | [] => s
                 end in
        let s := set_g_pointer_registry (<[ptrName := pinfo]> (g_pointer_registry s)) s in
        release [name_buf] (TRACER_GUARD_EXIT s)
  end.

Definition __trace_control_flow_loc (controlType : string)
    (file : option string) (line : Z) (s : TracerState) : TracerState :=
  match TRACER_GUARD_ENTER s with
  | None => s
  | Some s =>
      if no_trace_file s then TRACER_GUARD_EXIT s
      else
        let f := json_safe_path file in
        let f_buf := string_buffer f s in
        let s := take_buffer f s in
        let extra := [fld "controlType" (JStr controlType);
                      fld "file" (JStr f); fld "line" (JInt line)] in
        let s := write_json_event "control_flow" 0 (Some (g_current_function s))
                   (g_depth s) (Some extra) s in
        release [f_buf] (TRACER_GUARD_EXIT s)
  end.

Definition __trace_loop_start_loc (loopId : Z) (loopType : string)
    (file : option string) (line : Z) (s : TracerState) : TracerState :=
  match TRACER_GUARD_ENTER s with
  | None => s
  | Some s =>
      if no_trace_file s then TRACER_GUARD_EXIT s
      else
        let s := match g_call_stack s with
                 | _ :: _ =>
                     let s := set_g_call_stack
                                (with_back (fun fr => set_activeLoops (activeLoops fr ++ [loopId]) fr)
                                   (g_call_stack s)) s in
                     set_g_call_stack
                       (with_back (fun fr => set_loopIterations (<[loopId := 0]> (loopIterations fr)) fr)
                          (g_call_stack s)) s
                 | [] => s
                 end in
        let f := json_safe_path file in
        let f_buf := string_buffer f s in
        let s := take_buffer f s in
        let extra := [fld "loopId" (JInt loopId); fld "loopType" (JStr loopType);
                      fld "file" (JStr f); fld "line" (JInt line)] in
        let s := write_json_event "loop_start" 0 (Some (g_current_function s))
                   (g_depth s) (Some extra) s in
        release [f_buf] (TRACER_GUARD_EXIT s)
  end.

(** [loopIterations[loopId]] creates the entry with 0 when it is missing;
    the count is an [int]. *)
Definition __trace_loop_body_start_loc (loopId : Z)
    (file : option string) (line : Z) (s : TracerState) : TracerState :=
  match TRACER_GUARD_ENTER s with
  | None => s
  | Some s =>
      if no_trace_file s then TRACER_GUARD_EXIT s
      else
        let '(iteration, s) :=
          match back (g_call_stack s) with
          | Some top =>
              let it := int_wrap (default 0 (loopIterations top !! loopId) + 1) in
              (it, set_g_call_stack
                     (with_back (fun fr => set_loopIterations (<[loopId := it]> (loopIterations fr)) fr)
                        (g_call_stack s)) s)
          | None => (0, s)
          end in
        let f := json_safe_path file in
        let f_buf := string_buffer f s in
        let s := take_buffer f s in
        let extra := [fld "loopId" (JInt loopId); fld "iteration" (JInt iteration);
                      fld "file" (JStr f); fld "line" (JInt line)] in
        let s := write_json_event "loop_body_start" 0 (Some (g_current_function s))
                   (g_depth s) (Some extra) s in
        release [f_buf] (TRACER_GUARD_EXIT s)
  end.

Definition __trace_loop_iteration_end_loc (loopId : Z)
    (file : option string) (line : Z) (s : TracerState) : TracerState :=
  match TRACER_GUARD_ENTER s with
  | None => s
  | Some s =>
      if no_trace_file s then TRACER_GUARD_EXIT s
      else
        let '(iteration, s) :=
          match back (g_call_stack s) with
          | Some top =>
              let it := default 0 (loopIterations top !! loopId) in
              (it, set_g_call_stack
                     (with_back (fun fr => set_loopIterations (<[loopId := it]> (loopIterations fr)) fr)
                        (g_call_stack s)) s)
          | None => (0, s)
          end in
        let f := json_safe_path file in
        let f_buf := string_buffer f s in
        let s := take_buffer f s in
        let extra := [fld "loopId" (JInt loopId); fld "iteration" (JInt iteration);
                      fld "file" (JStr f); fld "line" (JInt line)] in
        let s := write_json_event "loop_iteration_end" 0 (Some (g_current_function s))
                   (g_depth s) (Some extra) s in
        release [f_buf] (TRACER_GUARD_EXIT s)
  end.

Definition __trace_loop_end_loc (loopId : Z)
    (file : option string) (line : Z) (s : TracerState) : TracerState :=
  match TRACER_GUARD_ENTER s with
  | None => s
  | Some s =>
      if no_trace_file s then TRACER_GUARD_EXIT s
      else
        let s := match g_call_stack s with
                 | _ :: _ =>
                     let s := set_g_call_stack
                                (with_back (fun fr => set_activeLoops (erase_first loopId (activeLoops fr)) fr)
                                   (g_call_stack s)) s in
                     set_g_call_stack
                       (with_back (fun fr => set_loopIterations (delete loopId (loopIterations fr)) fr)
                          (g_call_stack s)) s
                 | [] => s
                 end in
        let f := json_safe_path file in
        let f_buf := string_buffer f s in
        let s := take_buffer f s in
        let extra := [fld "loopId" (JInt loopId); fld "file" (JStr f); fld "line" (JInt line)] in
        let s := write_json_event "loop_end" 0 (Some (g_current_function s))
                   (g_depth s) (Some extra) s in
        release [f_buf] (TRACER_GUARD_EXIT s)
  end.

Definition __trace_loop_condition_loc (loopId result : Z)
    (file : option string) (line : Z) (s : TracerState) : TracerState :=
  match TRACER_GUARD_ENTER s with
  | None => s
  | Some s =>
      if no_trace_file s then TRACER_GUARD_EXIT s
      else
        let f := json_safe_path file in
        let f_buf := string_buffer f s in
        let s := take_buffer f s in
        let extra := [fld "loopId" (JInt loopId); fld "result" (JInt result);
                      fld "file" (JStr f); fld "line" (JInt line)] in
        let s := write_json_event "loop_condition" 0 (Some (g_current_function s))
                   (g_depth s) (Some extra) s in
        release [f_buf] (TRACER_GUARD_EXIT s)
  end.

Definition __trace_return_loc (value : Z) (returnType destinationSymbol : option string)
    (file : option string) (line : Z) (s : TracerState) : TracerState :=
  match TRACER_GUARD_ENTER s with
  | None => s
  | Some s =>
      if no_trace_file s then TRACER_GUARD_EXIT s
      else
        let f := json_safe_path file in
        let f_buf := string_buffer f s in
        let s := take_buffer f s in
        let rt := default "auto" returnType in
        let extra :=
          match destinationSymbol with
          | Some (String c rest) =>
              [fld "value" (JInt value); fld "returnType" (JStr rt);
               fld "destinationSymbol" (JStr (String c rest));
               fld "file" (JStr f); fld "line" (JInt line)]
          | _ =>
              [fld "value" (JInt value); fld "returnType" (JStr rt);
               fld "file" (JStr f); fld "line" (JInt line)]
          end in
        let s := write_json_event "return" 0 (Some (g_current_function s))
                   (g_depth s) (Some extra) s in
        release [f_buf] (TRACER_GUARD_EXIT s)
  end.

Definition __trace_block_enter_loc (blockDepth : Z)
    (file : option string) (line : Z) (s : TracerState) : TracerState :=
  match TRACER_GUARD_ENTER s with
  | None => s
  | Some s =>
      if no_trace_file s then TRACER_GUARD_EXIT s
      else
        let f := json_safe_path file in
        let f_buf := string_buffer f s in
        let s := take_buffer f s in
        let extra := [fld "blockDepth" (JInt blockDepth);
                      fld "file" (JStr f); fld "line" (JInt line)] in
        let s := write_json_event "block_enter" 0 (Some (g_current_function s))
                   (g_depth s) (Some extra) s in
        release [f_buf] (TRACER_GUARD_EXIT s)
  end.

Definition __trace_block_exit_loc (blockDepth : Z)
    (file : option string) (line : Z) (s : TracerState) : TracerState :=
  match TRACER_GUARD_ENTER s with
  | None => s
  | Some s =>
      if no_trace_file s then TRACER_GUARD_EXIT s
      else
        let f := json_safe_path file in
        let f_buf := string_buffer f s in
        let s := take_buffer f s in
        let extra := [fld "blockDepth" (JInt blockDepth);
                      fld "file" (JStr f); fld "line" (JInt line)] in
        let s := write_json_event "block_exit" 0 (Some (g_current_function s))
                   (g_depth s) (Some extra) s in
        release [f_buf] (TRACER_GUARD_EXIT s)
  end.

(** The four guarded [trace_var_*_loc] differ in the value and its type
    tag only.  A [double] is carried as its bit pattern. *)
Definition trace_var_int_loc (name : string) (value : Z)
    (file : option string) (line : Z) (s : TracerState) : TracerState :=
  match TRACER_GUARD_ENTER s with
  | None => s
  | Some s =>
      if no_trace_file s then TRACER_GUARD_EXIT s
      else
        let f := json_safe_path file in
        let f_buf := string_buffer f s in
        let s := take_buffer f s in
        let extra := [fld "name" (JStr name); fld "value" (JInt value); fld "type" (JStr "int");
                      fld "file" (JStr f); fld "line" (JInt line)] in
        let s := write_json_event "var" 0 (Some name) (g_depth s) (Some extra) s in
        release [f_buf] (TRACER_GUARD_EXIT s)
  end.

Definition trace_var_long_loc (name : string) (value : Z)
    (file : option string) (line : Z) (s : TracerState) : TracerState :=
  match TRACER_GUARD_ENTER s with
  | None => s
  | Some s =>
      if no_trace_file s then TRACER_GUARD_EXIT s
      else
        let f := json_safe_path file in
        let f_buf := string_buffer f s in
        let s := take_buffer f s in
        let extra := [fld "name" (JStr name); fld "value" (JInt value); fld "type" (JStr "long");
                      fld "file" (JStr f); fld "line" (JInt line)] in
        let s := write_json_event "var" 0 (Some name) (g_depth s) (Some extra) s in
        release [f_buf] (TRACER_GUARD_EXIT s)
  end.

Definition trace_var_double_loc (name : string) (value_bits : Z)
    (file : option string) (line : Z) (s : TracerState) : TracerState :=
  match TRACER_GUARD_ENTER s with
  | None => s
  | Some s =>
      if no_trace_file s then TRACER_GUARD_EXIT s
      else
        let f := json_safe_path file in
        let f_buf := string_buffer f s in
        let s := take_buffer f s in
        let extra := [fld "name" (JStr name); fld "value" (JDouble value_bits);
                      fld "type" (JStr "double"); fld "file" (JStr f); fld "line" (JInt line)] in
        let s := write_json_event "var" 0 (Some name) (g_depth s) (Some extra) s in
        release [f_buf] (TRACER_GUARD_EXIT s)
  end.

Definition trace_var_ptr_loc (name : string) (value : Z)
    (file : option string) (line : Z) (s : TracerState) : TracerState :=
  match TRACER_GUARD_ENTER s with
  | None => s
  | Some s =>
      if no_trace_file s then TRACER_GUARD_EXIT s
      else
        let f := json_safe_path file in
        let f_buf := string_buffer f s in
        let s := take_buffer f s in
        let extra := [fld "name" (JStr name); fld "value" (JPtr value);
                      fld "type" (JStr "pointer"); fld "file" (JStr f); fld "line" (JInt line)] in
        let s := write_json_event "var" 0 (Some name) (g_depth s) (Some extra) s in
        release [f_buf] (TRACER_GUARD_EXIT s)
  end.

(** [trace_var_str_loc] opens with the test of the file alone: it has no
    [TRACER_GUARD_ENTER] and no [TRACER_GUARD_EXIT].  Its string [f] is
    therefore built where [operator new] may record it.  (The escaped value
    goes through a buffer of 256 bytes that the loop does not check; the
    model is of the runs in which it fits.) *)
Definition trace_var_str_loc (name : string) (value : option string)
    (file : option string) (line : Z) (s : TracerState) : TracerState :=
  if no_trace_file s then s
  else
    let f := json_safe_path file in
    let f_buf := string_buffer f s in
    let s := string_new f s in
    let escaped := escape_value value in
    let extra := [fld "name" (JStr name); fld "value" (JStr escaped);
                  fld "type" (JStr "string"); fld "file" (JStr f); fld "line" (JInt line)] in
    let s := write_json_event "var" 0 (Some name) (g_depth s) (Some extra) s in
    release [f_buf] s.

Definition trace_var_int (name : string) (value : Z) : TracerState → TracerState :=
  trace_var_int_loc name value (Some "unknown") 0.
Definition trace_var_long (name : string) (value : Z) : TracerState → TracerState :=
  trace_var_long_loc name value (Some "unknown") 0.
Definition trace_var_double (name : string) (value_bits : Z) : TracerState → TracerState :=
  trace_var_double_loc name value_bits (Some "unknown") 0.
Definition trace_var_ptr (name : string) (value : Z) : TracerState → TracerState :=
  trace_var_ptr_loc name value (Some "unknown") 0.
Definition trace_var_str (name : string) (value : option string) : TracerState → TracerState :=
  trace_var_str_loc name value (Some "unknown") 0.

(** ** Function entry and exit *)

Definition is_static_init (func_name : string) : bool :=
  strstr func_name "GLOBAL__sub" ||
  strstr func_name "_static_initialization_and_destruction".

(** The name under which a function is entered: [None] when the handler
    returns from inside the [dladdr] branch. *)
Definition enter_name (func : Z) : option string :=
  match dladdr func with
  | Some info =>
      match dli_sname info with
      | Some sname =>
          let func_name := demangle sname in
          if is_static_init func_name then None
          else
            match dli_fname info with
            | Some fname =>
                if strstr fname "/usr/" || strstr fname "/lib/" ||
                   strstr fname "libc" || strstr fname "libstdc++"
                then Some "user_function"
                else Some func_name
            | None => Some func_name
            end
      | None => Some "main"
      end
  | None => Some "main"
  end.

Definition exit_name (func : Z) : option string :=
  match dladdr func with
  | Some info =>
      match dli_sname info with
      | Some sname =>
          let func_name := demangle sname in
          if is_static_init func_name then None
          else
            match dli_fname info with
            | Some fname =>
                if strstr fname "/usr/" || strstr fname "/lib/"
                then Some "user_function"
                else Some func_name
            | None => Some func_name
            end
      | None => Some "main"
      end
  | None => Some "main"
  end.

(** The string [fn] is built from the name as it is and then stripped in
    place, so that it has a buffer when the name has more than 15 characters;
    the frame gets a copy of the stripped name. *)
Definition __cyg_profile_func_enter (func caller : Z) (s : TracerState) : TracerState :=
  match TRACER_GUARD_ENTER s with
  | None => s
  | Some s =>
      let s := set_g_depth (g_depth s + 1) s in
      if 2048 <=? g_depth s
      then TRACER_GUARD_EXIT (set_g_depth (g_depth s - 1) s)
      else
        match enter_name func with
        | None => TRACER_GUARD_EXIT (set_g_depth (g_depth s - 1) s)
        | Some func_name =>
            let fn := normalize_function_name (Some func_name) in
            let fn_buf := string_buffer func_name s in
            let s := take_buffer func_name s in
            let s := set_g_tracked_functions ({[fn]} ∪ g_tracked_functions s) s in
            let s := set_g_current_function fn s in
            let frame := {| functionName := fn; pointerAliases := ∅;
                            activeLoops := []; loopIterations := ∅ |} in
            let frame_buf := string_buffer fn s in
            let s := take_buffer fn s in
            let s := set_g_call_stack (g_call_stack s ++ [frame]) s in
            let s := write_json_event "func_enter" func (Some func_name) (g_depth s)
                       (Some [fld "caller" (JPtr caller)]) s in
            release [frame_buf; fn_buf] (TRACER_GUARD_EXIT s)
        end
  end.

(** The [while] loop of the exit handler: the open loops of the top frame
    are popped from the back, one [loop_end] event each. *)
Definition close_active_loops (loops : list Z) (s : TracerState) : TracerState :=
  fold_left
    (fun s loopId =>
       write_json_event "loop_end" 0 (Some (g_current_function s)) (g_depth s)
         (Some [fld "loopId" (JInt loopId); fld "file" (JStr "unknown"); fld "line" (JInt 0)]) s)
    (rev loops) s.

Definition __cyg_profile_func_exit (func caller : Z) (s : TracerState) : TracerState :=
  match TRACER_GUARD_ENTER s with
  | None => s
  | Some s =>
      if g_depth s <=? 0 then TRACER_GUARD_EXIT s
      else
        match exit_name func with
        | None => TRACER_GUARD_EXIT s
        | Some func_name =>
            let s := match back (g_call_stack s) with
                     | Some top =>
                         let s := close_active_loops (activeLoops top) s in
                         let s := set_g_call_stack
                                    (with_back (set_activeLoops []) (g_call_stack s)) s in
                         set_g_call_stack (pop_back (g_call_stack s)) s
                     | None => s
                     end in
            let s := set_g_current_function
                       (match back (g_call_stack s) with
                        | Some fr => functionName fr
                        | None => "main"
                        end) s in
            let s := write_json_event "func_exit" func (Some func_name) (g_depth s) None s in
            let s := set_g_depth (g_depth s - 1) s in
            TRACER_GUARD_EXIT s
        end
  end.

(** ** Start and stop *)

Definition run_steps (steps : list (TracerState → TracerState)) (s : TracerState) : TracerState :=
  fold_left (fun s step => step s) steps s.

(** [fopen(path, "w")] when it succeeds: the file is truncated and the
    handle stored. *)
Definition fopen_w (path : string) (s : TracerState) : TracerState :=
  set_g_trace_file (Some {| f_path := path |}) (set_trace_open true (set_trace_out [] s)).

(** The statements of [init_tracer] once the file is open, in order. *)
Definition init_steps (path : string) : list (TracerState → TracerState) :=
  [ fopen_w path; set_g_tracer_disabled false; fputs Header ].

(** [trace_output] is the value of the environment variable TRACE_OUTPUT
    and [fopen_ok] tells whether the file could be opened. *)
Definition init_tracer (trace_output : option string) (fopen_ok : bool)
    (s : TracerState) : TracerState :=
  if 2048 <=? g_depth s then s
  else
    let trace_path := default "trace.json" trace_output in
    if fopen_ok then run_steps (init_steps trace_path) s
    else set_g_tracer_disabled true (set_g_trace_file None s).

(** The statements of [finish_tracer] past its three early returns, in
    order: the flag, the trailer, [fclose], the handle. *)
Definition finish_steps : list (TracerState → TracerState) :=
  [ set_g_tracer_disabled true;
    (fun s => fputs (Trailer (g_tracked_functions s) (g_event_counter s)) s);
    set_trace_open false;
    set_g_trace_file None ].

(** [finish_tracer] as a call made while the registries are alive.  In a
    process it runs as a destructor function, after the function-local
    statics have been destroyed: what it then reads of the tracked functions
    is not defined, and nothing below is said of the trailer of such a
    run. *)
Definition finish_tracer (s : TracerState) : TracerState :=
  match TRACER_GUARD_ENTER s with
  | None => s
  | Some s =>
      if 2048 <=? g_depth s then TRACER_GUARD_EXIT s
      else if no_trace_file s then TRACER_GUARD_EXIT s
      else TRACER_GUARD_EXIT (run_steps finish_steps s)
  end.

(** ** Runs *)

(** The entry point a notification stands for. *)
Definition handle (n : Notification) : TracerState → TracerState :=
  match n with
  | OutputFlush file line => __trace_output_flush_loc file line
  | ConditionEval c e r file line => __trace_condition_eval_loc c e r file line
  | BranchTaken c b file line => __trace_branch_taken_loc c b file line
  | ArrayCreate n b a d1 d2 d3 st file line => __trace_array_create_loc n b a d1 d2 d3 st file line
  | ArrayInitString n lit file line => __trace_array_init_string_loc n lit file line
  | ArrayInit n vs c file line => __trace_array_init_loc n vs c file line
  | ArrayIndexAssign n i1 i2 i3 v file line => __trace_array_index_assign_loc n i1 i2 i3 v file line
  | PointerAlias n a d file line => __trace_pointer_alias_loc n a d file line
  | PointerDerefWrite p v file line => __trace_pointer_deref_write_loc p v file line
  | DeclareVar n t a file line => __trace_declare_loc n t a file line
  | Assign n v file line => __trace_assign_loc n v file line
  | PointerHeapInit p h file line => __trace_pointer_heap_init_loc p h file line
  | ControlFlow c file line => __trace_control_flow_loc c file line
  | LoopStart l t file line => __trace_loop_start_loc l t file line
  | LoopBodyStart l file line => __trace_loop_body_start_loc l file line
  | LoopIterationEnd l file line => __trace_loop_iteration_end_loc l file line
  | LoopEnd l file line => __trace_loop_end_loc l file line
  | LoopCondition l r file line => __trace_loop_condition_loc l r file line
  | Return v rt d file line => __trace_return_loc v rt d file line
  | BlockEnter b file line => __trace_block_enter_loc b file line
  | BlockExit b file line => __trace_block_exit_loc b file line
  | VarInt n v file line => trace_var_int_loc n v file line
  | VarLong n v file line => trace_var_long_loc n v file line
  | VarDouble n v file line => trace_var_double_loc n v file line
  | VarPtr n v file line => trace_var_ptr_loc n v file line
  | VarStr n v file line => trace_var_str_loc n v file line
  | FuncEnter func caller => __cyg_profile_func_enter func caller
  | FuncExit func caller => __cyg_profile_func_exit func caller
  | OperatorNew size ptr => operator_new size ptr
  | OperatorNewArray size ptr => operator_new_array size ptr
  | OperatorDelete ptr => operator_delete ptr
  | OperatorDeleteArray ptr => operator_delete_array ptr
  | Malloc size ptr => malloc size ptr
  | Free ptr => free ptr
  end.

Definition run (ns : list Notification) (s : TracerState) : TracerState :=
  fold_left (fun s n => handle n s) ns s.

(** The events of the output file, oldest first. *)
Definition events_of (out : list Chunk) : list Event :=
  omap (fun c => match c with Ev e => Some e | _ => None end) out.

Definition events (s : TracerState) : list Event := events_of (trace_out s).

(** ** Vocabulary of the properties *)

(** A whole life of the tracer in a process: the notifications that arrive
    before the constructor [init_tracer] has run, [init_tracer] with the
    outcome of [fopen], then the notifications of the program. *)
Definition session (pre : list Notification) (trace_output : option string)
    (fopen_ok : bool) (body : list Notification) : TracerState :=
  run body (init_tracer trace_output fopen_ok (run pre initial_state)).

(** [write_json_event] writes in [s]. *)
Definition can_write (s : TracerState) : bool :=
  negb (no_trace_file s || (2048 <=? g_depth s)).

(** The event [write_json_event] makes of its arguments in state [s]. *)
Definition event_of (type : string) (addr : Z) (func_name : option string) (depth : Z)
    (extra : option (list (string * JVal))) (s : TracerState) : Event :=
  {| ev_id := g_event_counter s; ev_type := type; ev_addr := addr;
     ev_func := default "unknown" func_name; ev_depth := depth;
     ev_ts := Z.land (steady_clock_us (clock_reads s)) 0xFFFFFFFF; ev_extra := extra |}.

(** An engine that accepts a notification and records it. *)
Definition running (s : TracerState) : Prop :=
  g_tracer_disabled s = false ∧ g_inside_tracer s = false ∧
  is_Some (g_trace_file s) ∧ g_depth s < 2048.

(** The event the tracer's [operator delete] writes when a string of a
    handler gives its buffer back. *)
Definition own_free (e : Event) : Prop :=
  ev_type e = "heap_free" ∧ ev_func e = "operator delete" ∧ ev_extra e = None.

(** How many of the strings have a buffer of their own. *)
Fixpoint buffers (strs : list string) : nat :=
  match strs with
  | [] => 0%nat
  | str :: strs' => ((if on_heap str then 1 else 0) + buffers strs')%nat
  end.

(** [frees] are the events the strings [strs] of a handler leave when
    they die: one [heap_free] event for each that has a buffer. *)
Definition frees_of (strs : list string) (frees : list Event) : Prop :=
  Forall own_free frees ∧ length frees = buffers strs.

(** The notifications whose handler opens with [TRACER_GUARD_ENTER]; the
    allocation hooks test the same two flags in line. *)
Definition guarded (n : Notification) : bool :=
  match n with
  | VarStr _ _ _ _ => false
  | _ => true
  end.

(** Event types that neither open or close an activation nor a loop. *)
Definition plain_type (ty : string) : bool :=
  negb (String.eqb ty "func_enter") && negb (String.eqb ty "func_exit") &&
  negb (String.eqb ty "loop_start") && negb (String.eqb ty "loop_end").

(** The loop id an event carries: the first of its extra fields. *)
Definition event_loopId (e : Event) : option Z :=
  match ev_extra e with
  | Some ((k, JInt l) :: _) => if String.eqb k "loopId" then Some l else None
  | _ => None
  end.

Definition is_loop_event (kind : string) (L : Z) (e : Event) : bool :=
  String.eqb (ev_type e) kind && bool_decide (event_loopId e = Some L).

(** The number of [loop_start] events with id [L] that have no [loop_end]
    after them yet, among the events of the current activation at depth
    [d]: a [func_enter] at depth [d] begins a new activation, a
    [loop_start] opens one more loop and a [loop_end] closes one. *)
Definition loop_step (d L : Z) (n : nat) (e : Event) : nat :=
  if negb (ev_depth e =? d) then n
  else if String.eqb (ev_type e) "func_enter" then 0%nat
  else if is_loop_event "loop_start" L e then S n
  else if is_loop_event "loop_end" L e then Nat.pred n
  else n.

Definition open_loops (d L : Z) (es : list Event) : nat :=
  fold_left (loop_step d L) es 0%nat.

Fixpoint count_id (L : Z) (l : list Z) : nat :=
  match l with
  | [] => 0%nat
  | x :: l' => if Z.eqb x L then S (count_id L l') else count_id L l'
  end.

(** The events one pass of [close_active_loops] is to write for the loops
    [loops] of the top frame, as (type, loop id, depth). *)
Definition synthetic_loop_ends (loops : list Z) (depth : Z) : list (string * option Z * Z) :=
  map (fun L => ("loop_end", Some L, depth)) (rev loops).

Definition event_summary (e : Event) : string * option Z * Z :=
  (ev_type e, event_loopId e, ev_depth e).

(** The counter is the number of events written, and every event carries
    its position as id (both modulo the range of the counter). *)
Definition ids_ok (counter : Z) (es : list Event) : Prop :=
  counter = Z.of_nat (length es) mod 2 ^ 64 ∧
  ∀ (i : nat) e, es !! i = Some e → ev_id e = Z.of_nat i mod 2 ^ 64.

(** The frame at index [i] lives at depth [i + 1]; its [activeLoops] are
    the loops its activation has started and not ended in the log. *)
Definition loops_ok (stack : list CallFrame) (es : list Event) : Prop :=
  ∀ (i : nat) fr L, stack !! i = Some fr →
    open_loops (Z.of_nat i + 1) L es = count_id L (activeLoops fr).

(** No loop of an activation is open in the log when its [func_exit]
    event is written. *)
Definition exits_closed (es : list Event) : Prop :=
  ∀ before e after L, es = before ++ e :: after →
    ev_type e = "func_exit" → open_loops (ev_depth e) L before = 0%nat.

(** What holds of every state of a run. *)
Record Inv (s : TracerState) : Prop := {
  inv_depth : 0 ≤ g_depth s ≤ 2047;
  inv_stack : Z.of_nat (length (g_call_stack s)) = g_depth s;
  inv_ids : ids_ok (g_event_counter s) (events s);
  inv_dormant : g_trace_file s = None → g_tracer_disabled s = false → events s = [];
  inv_loops : loops_ok (g_call_stack s) (events s);
  inv_exits : exits_closed (events s)
}.

(** The state of a process whose [init_tracer] has not run yet. *)
Definition before_init (s : TracerState) : Prop :=
  g_trace_file s = None ∧ g_tracer_disabled s = false ∧ g_inside_tracer s = false ∧
  trace_out s = [] ∧ trace_open s = false ∧ g_event_counter s = 0.

(** The output and the counter as seen while no file is open. *)
Definition dormant_view (s : TracerState) : option (list Chunk * Z) :=
  match g_trace_file s with
  | None => Some (trace_out s, g_event_counter s)
  | Some _ => None
  end.

(** ** Vocabulary of the further properties *)

(** The character [c] occurs in [s]. *)
Fixpoint string_mem (c : Ascii.ascii) (s : string) : bool :=
  match s with
  | EmptyString => false
  | String d s' => Ascii.eqb d c || string_mem c s'
  end.

(** The reader's side of the escaping of [trace_var_str_loc]: a backslash
    stands for the character after it. *)
Fixpoint unescape (s : string) : string :=
  match s with
  | EmptyString => EmptyString
  | String c rest =>
      if Ascii.eqb c char_backslash
      then match rest with
           | EmptyString => EmptyString
           | String d rest' => String d (unescape rest')
           end
      else String c (unescape rest)
  end.

(** The value of an extra field of an event. *)
Fixpoint assoc_field (k : string) (l : list (string * JVal)) : option JVal :=
  match l with
  | [] => None
  | (k', v) :: l' => if String.eqb k' k then Some v else assoc_field k l'
  end.

Definition event_field (k : string) (e : Event) : option JVal :=
  match ev_extra e with
  | Some l => assoc_field k l
  | None => None
  end.

(** The events of a file as they lie between the header and the trailer:
    a separator before each event but the first. *)
Definition framed (es : list Event) : list Chunk :=
  match es with
  | [] => []
  | e :: es' => Ev e :: flat_map (fun x => [Separator; Ev x]) es'
  end.

(** The depth an event may carry: from 0 to 2047, and at least 1 on an
    event of function entry or exit. *)
Definition depth_ok (e : Event) : Prop :=
  0 ≤ ev_depth e ≤ 2047 ∧
  (ev_type e = "func_enter" ∨ ev_type e = "func_exit" → 1 ≤ ev_depth e).

(** A name without carriage return and line feed. *)
Definition one_line (name : string) : Prop :=
  string_mem char_cr name = false ∧ string_mem char_lf name = false.

Definition top_function (stack : list CallFrame) : string :=
  match back stack with
  | Some fr => functionName fr
  | None => "main"
  end.

(** More of what holds of every state of a run: the shape of the file, the
    clock readings behind the timestamps, the depths the events carry, the
    current function and the set of tracked functions. *)
Record Inv2 (s : TracerState) : Prop := {
  i2_depth : 0 ≤ g_depth s ≤ 2047;
  i2_ids : ids_ok (g_event_counter s) (events s);
  i2_shape : is_Some (g_trace_file s) → Z.of_nat (length (events s)) < 2 ^ 64 →
      trace_out s = Header :: framed (events s);
  i2_clock : clock_reads s = length (events s);
  i2_ts : ∀ (i : nat) e, events s !! i = Some e →
      ev_ts e = Z.land (steady_clock_us i) 0xFFFFFFFF;
  i2_evdepth : Forall depth_ok (events s);
  i2_current : g_current_function s = top_function (g_call_stack s);
  i2_frames : Forall (fun fr => functionName fr ∈ g_tracked_functions s) (g_call_stack s);
  i2_entered : Forall (fun e => ev_type e = "func_enter" →
                         normalize_function_name (Some (ev_func e)) ∈ g_tracked_functions s)
                 (events s);
  i2_clean : ∀ name, name ∈ g_tracked_functions s → one_line name
}.

(** The key of element [i] of a one-dimensional array, as the two array
    initialisers build it. *)
Definition element_key (name : string) (i : Z) : ArrayElementKey :=
  {| arrayName := name; idx1 := i; idx2 := -1; idx3 := -1 |}.

(** The element map after the writes [l], in order. *)
Definition write_elements (name : string) (l : list (Z * Z))
    (m : gmap ArrayElementKey Z) : gmap ArrayElementKey Z :=
  fold_left (fun m ic => <[element_key name ic.1 := ic.2]> m) l m.

(** [k] times the character [c]. *)
Fixpoint string_repeat (c : Ascii.ascii) (k : nat) : string :=
  match k with
  | O => EmptyString
  | S k' => String c (string_repeat c k')
  end.

(** The output of [s] begins with [o]. *)
Definition grows (o : list Chunk) (s : TracerState) : Prop := o `prefix_of` trace_out s.

(** No name, address, element or function known in [s] is unknown in
    [s']. *)
Definition remembers (s s' : TracerState) : Prop :=
  dom (g_variable_values s) ⊆ dom (g_variable_values s') ∧
  dom (g_array_registry s) ⊆ dom (g_array_registry s') ∧
  dom (g_address_to_name s) ⊆ dom (g_address_to_name s') ∧
  dom (g_array_element_values s) ⊆ dom (g_array_element_values s') ∧
  dom (g_pointer_registry s) ⊆ dom (g_pointer_registry s') ∧
  g_tracked_functions s ⊆ g_tracked_functions s'.

(** A symbol table with a function of a library that lies outside the
    system directories but has "libc" in the name of its file. *)
Definition demo_dladdr_local (func : Z) : option Dl_info :=
  if func =? 400
  then Some {| dli_fname := Some "/opt/app/libcustom.so"; dli_sname := Some "helper" |}
  else None.

(** A symbol table with a function whose name has more than 15
    characters. *)
Definition demo_dladdr_long (func : Z) : option Dl_info :=
  if func =? 500
  then Some {| dli_fname := Some "/home/user/a.out";
               dli_sname := Some "compute_checksum_of_block" |}
  else None.

(** * Properties *)

(** ** The order of the element keys

    [operator<] is irreflexive and two keys that it does not order are
    equal: the element map has one entry for each record of four fields,
    which is what [gmap] keyed by the record gives. *)

Lemma ArrayElementKey_lt_irrefl a : ArrayElementKey_lt a a = false.
Proof.
  unfold ArrayElementKey_lt. rewrite String.eqb_refl, !Z.eqb_refl. simpl.
  apply Z.ltb_irrefl.
Qed.

Lemma ArrayElementKey_lt_total a b :
  ArrayElementKey_lt a b = false → ArrayElementKey_lt b a = false → a = b.
Proof.
  destruct a as [n1 i1 j1 k1], b as [n2 i2 j2 k2].
  unfold ArrayElementKey_lt, string_lt. simpl.
  destruct (String.eqb_spec n1 n2) as [->|Hn]; simpl.
  - rewrite String.eqb_refl. simpl.
    destruct (Z.eqb_spec i1 i2) as [->|Hi]; simpl.
    + rewrite Z.eqb_refl. simpl.
      destruct (Z.eqb_spec j1 j2) as [->|Hj]; simpl.
      * rewrite Z.eqb_refl. simpl. intros H1 H2. f_equal. lia.
      * destruct (Z.eqb_spec j2 j1); [congruence|]. simpl. lia.
    + destruct (Z.eqb_spec i2 i1); [congruence|]. simpl. lia.
  - destruct (String.eqb_spec n2 n1); [congruence|]. simpl.
    rewrite (String.compare_antisym n1 n2).
    destruct (String.compare n2 n1) eqn:Hc; simpl; try discriminate.
    apply String.compare_eq_iff in Hc. congruence.
Qed.

(** ** The guard *)

Lemma guard_enter_granted s s1 :
  TRACER_GUARD_ENTER s = Some s1 →
  g_tracer_disabled s = false ∧ g_inside_tracer s = false ∧ s1 = set_g_inside_tracer true s.
Proof.
  unfold TRACER_GUARD_ENTER.
  destruct (g_tracer_disabled s), (g_inside_tracer s); intros H; inversion H; auto.
Qed.

Lemma guard_enter_denied s :
  TRACER_GUARD_ENTER s = None ↔ g_tracer_disabled s = true ∨ g_inside_tracer s = true.
Proof.
  unfold TRACER_GUARD_ENTER.
  destruct (g_tracer_disabled s), (g_inside_tracer s); split; intros H; auto;
    try discriminate; destruct H; discriminate.
Qed.

(** A state is changed by nothing but its guard flag when the flag is set
    and cleared again. *)
Lemma guard_exit_enter s :
  g_inside_tracer s = false → TRACER_GUARD_EXIT (set_g_inside_tracer true s) = s.
Proof. destruct s; simpl; intros ->; reflexivity. Qed.

(** ** The recorder *)

Section WriteJsonEvent.
Variables (type : string) (addr : Z) (func_name : option string) (depth : Z)
  (extra : option (list (string * JVal))) (s : TracerState).
Let s' := write_json_event type addr func_name depth extra s.

Ltac wje := subst s'; unfold write_json_event, fputs, get_timestamp_us;
            repeat case_match; simplify_eq; reflexivity.

Lemma wje_trace_file : g_trace_file s' = g_trace_file s. Proof. wje. Qed.
Lemma wje_depth : g_depth s' = g_depth s. Proof. wje. Qed.
Lemma wje_inside : g_inside_tracer s' = g_inside_tracer s. Proof. wje. Qed.
Lemma wje_disabled : g_tracer_disabled s' = g_tracer_disabled s. Proof. wje. Qed.
Lemma wje_variable_values : g_variable_values s' = g_variable_values s. Proof. wje. Qed.
Lemma wje_array_registry : g_array_registry s' = g_array_registry s. Proof. wje. Qed.
Lemma wje_address_to_name : g_address_to_name s' = g_address_to_name s. Proof. wje. Qed.
Lemma wje_array_element_values :
  g_array_element_values s' = g_array_element_values s.
Proof. wje. Qed.
Lemma wje_tracked_functions : g_tracked_functions s' = g_tracked_functions s. Proof. wje. Qed.
Lemma wje_current_function : g_current_function s' = g_current_function s. Proof. wje. Qed.
Lemma wje_pointer_registry : g_pointer_registry s' = g_pointer_registry s. Proof. wje. Qed.
Lemma wje_call_stack : g_call_stack s' = g_call_stack s. Proof. wje. Qed.
Lemma wje_trace_open : trace_open s' = trace_open s. Proof. wje. Qed.

Lemma wje_no_trace_file : no_trace_file s' = no_trace_file s.
Proof. unfold no_trace_file. by rewrite wje_trace_file. Qed.

Lemma wje_can_write : can_write s' = can_write s.
Proof. unfold can_write. by rewrite wje_no_trace_file, wje_depth. Qed.

Lemma wje_skip : can_write s = false → s' = s.
Proof.
  subst s'. unfold can_write, write_json_event. intros H.
  apply negb_false_iff in H. by rewrite H.
Qed.

Lemma wje_event_counter :
  g_event_counter s' =
  if can_write s then (g_event_counter s + 1) mod 2 ^ 64 else g_event_counter s.
Proof.
  subst s'. unfold can_write, write_json_event, fputs, get_timestamp_us.
  repeat case_match; simplify_eq; reflexivity.
Qed.

Lemma wje_events :
  events s' =
  if can_write s then events s ++ [event_of type addr func_name depth extra s]
  else events s.
Proof.
  subst s'. unfold can_write, write_json_event, fputs, get_timestamp_us, events, events_of.
  repeat case_match; simplify_eq; simpl; try reflexivity;
    rewrite ?omap_app; simpl; rewrite ?app_nil_r; reflexivity.
Qed.
End WriteJsonEvent.

Create Rewrite HintDb wje.
Hint Rewrite wje_trace_file wje_depth wje_inside wje_disabled wje_variable_values
  wje_array_registry wje_address_to_name wje_array_element_values wje_tracked_functions
  wje_current_function wje_pointer_registry wje_call_stack wje_trace_open
  wje_no_trace_file wje_can_write : wje.

Lemma fold_left_preserves {A B} (f : TracerState → A → TracerState)
    (proj : TracerState → B) (l : list A) (s : TracerState) :
  (∀ s a, proj (f s a) = proj s) → proj (fold_left f l s) = proj s.
Proof.
  intros Hf. revert s. induction l as [|a l IH]; intros s; simpl; [done|].
  by rewrite IH, Hf.
Qed.

Lemma fold_left_invariant {A} (f : TracerState → A → TracerState)
    (P : TracerState → Prop) (l : list A) (s : TracerState) :
  (∀ s a, P s → P (f s a)) → P s → P (fold_left f l s).
Proof.
  intros Hf. revert s. induction l as [|a l IH]; intros s Hs; simpl; auto.
Qed.

(** ** Vectors *)

Lemma back_snoc {A} (v : list A) (x : A) : back (v ++ [x]) = Some x.
Proof. apply last_snoc. Qed.

Lemma pop_back_snoc {A} (v : list A) (x : A) : pop_back (v ++ [x]) = v.
Proof. apply removelast_last. Qed.

Lemma back_Some {A} (v : list A) (x : A) : back v = Some x → v = pop_back v ++ [x].
Proof.
  intros H. apply last_Some in H as [v' ->]. by rewrite pop_back_snoc.
Qed.

Lemma back_None {A} (v : list A) : back v = None → v = [].
Proof. apply last_None. Qed.

Lemma with_back_snoc {A} (f : A → A) (v : list A) (x : A) :
  with_back f (v ++ [x]) = v ++ [f x].
Proof. unfold with_back. by rewrite back_snoc, pop_back_snoc. Qed.

Lemma with_back_nil {A} (f : A → A) : with_back f [] = [].
Proof. reflexivity. Qed.

Lemma length_with_back {A} (f : A → A) (v : list A) :
  length (with_back f v) = length v.
Proof.
  unfold with_back. destruct (back v) as [x|] eqn:H; [|done].
  apply back_Some in H. rewrite H at 2. by rewrite !length_app.
Qed.

Lemma fmap_with_back {A B} (g : A → B) (f : A → A) (v : list A) :
  (∀ x, g (f x) = g x) → g <$> with_back f v = g <$> v.
Proof.
  intros Hg. unfold with_back. destruct (back v) as [x|] eqn:H; [|done].
  apply back_Some in H. rewrite H at 2. by rewrite !fmap_app; simpl; rewrite Hg.
Qed.

(** ** Open loops *)

Lemma open_loops_snoc d L es e :
  open_loops d L (es ++ [e]) = loop_step d L (open_loops d L es) e.
Proof. unfold open_loops. by rewrite fold_left_app. Qed.

Lemma loop_step_other_depth d L n e : ev_depth e ≠ d → loop_step d L n e = n.
Proof.
  intros H. unfold loop_step. destruct (Z.eqb_spec (ev_depth e) d); [done|reflexivity].
Qed.

Lemma loop_step_plain d L n e : plain_type (ev_type e) = true → loop_step d L n e = n.
Proof.
  unfold plain_type, loop_step, is_loop_event. intros H.
  repeat (apply andb_prop in H as [H ?]).
  repeat match goal with
         | H : negb _ = true |- _ => apply negb_true_iff in H; rewrite ?H
         end.
  simpl. by destruct (negb _).
Qed.

Lemma count_id_app L l1 l2 : count_id L (l1 ++ l2) = (count_id L l1 + count_id L l2)%nat.
Proof. induction l1 as [|x l1 IH]; simpl; [done|]. destruct (x =? L); lia. Qed.

Lemma count_id_erase_first L x l :
  count_id L (erase_first x l) =
  if x =? L then Nat.pred (count_id L l) else count_id L l.
Proof.
  induction l as [|y l IH]; simpl.
  - by destruct (x =? L).
  - destruct (Z.eqb_spec y x) as [->|Hyx].
    + destruct (Z.eqb_spec x L); reflexivity.
    + simpl. destruct (Z.eqb_spec y L) as [->|HyL].
      * destruct (Z.eqb_spec x L) as [->|HxL]; [done|]. by rewrite IH.
      * rewrite IH. reflexivity.
Qed.

(** ** Tactics for the handlers *)

Ltac enter_guard :=
  match goal with
  | |- context [TRACER_GUARD_ENTER ?s] =>
      let G := fresh "G" in
      destruct (TRACER_GUARD_ENTER s) as [?|] eqn:G;
      [ apply guard_enter_granted in G as (? & ? & ->) | ]
  end.

Ltac unfold_handlers :=
  unfold handle, __trace_output_flush_loc, __trace_condition_eval_loc,
    __trace_branch_taken_loc, __trace_array_create_loc, __trace_array_init_string_loc,
    __trace_array_init_loc, __trace_array_index_assign_loc, __trace_pointer_alias_loc,
    __trace_pointer_deref_write_loc, __trace_declare_loc, __trace_assign_loc,
    __trace_pointer_heap_init_loc, __trace_control_flow_loc, __trace_loop_start_loc,
    __trace_loop_body_start_loc, __trace_loop_iteration_end_loc, __trace_loop_end_loc,
    __trace_loop_condition_loc, __trace_return_loc, __trace_block_enter_loc,
    __trace_block_exit_loc, trace_var_int_loc, trace_var_long_loc, trace_var_double_loc,
    trace_var_ptr_loc, trace_var_str_loc, __cyg_profile_func_enter,
    __cyg_profile_func_exit, operator_new, operator_new_array, operator_delete,
    operator_delete_array, malloc, free, alloc_hook, free_hook.

(** ** The hooks and the strings of the handlers *)

(** The hooks pass on when the tracer is disabled, the thread is inside the
    tracer, or the depth is at its ceiling. *)
Definition hook_open (s : TracerState) : bool :=
  negb (g_tracer_disabled s || g_inside_tracer s || (2048 <=? g_depth s)).

Lemma hook_closed_guard s : TRACER_GUARD_ENTER s = None → hook_open s = false.
Proof.
  intros H. apply guard_enter_denied in H. unfold hook_open.
  destruct H as [-> | ->]; simpl; by rewrite ?orb_true_r.
Qed.

Lemma alloc_hook_closed who size ptr s : hook_open s = false → alloc_hook who size ptr s = s.
Proof. unfold hook_open, alloc_hook. intros H. apply negb_false_iff in H. by rewrite H. Qed.

Lemma free_hook_closed who ptr s : hook_open s = false → free_hook who ptr s = s.
Proof. unfold hook_open, free_hook. intros H. apply negb_false_iff in H. by rewrite H. Qed.

(** The releasing hook in one expression. *)
Lemma free_hook_eq who ptr s :
  free_hook who ptr s =
  if hook_open s && negb (ptr =? 0) && bool_of_option (g_trace_file s)
  then TRACER_GUARD_EXIT
         (write_json_event "heap_free" ptr (Some who) (g_depth s) None
            (set_g_inside_tracer true s))
  else s.
Proof.
  unfold free_hook, hook_open.
  destruct (g_tracer_disabled s) eqn:Hd; [done|].
  destruct (g_inside_tracer s) eqn:Hi; [done|].
  destruct (2048 <=? g_depth s); [done|]. simpl. rewrite Hd. simpl.
  rewrite andb_true_r.
  destruct (negb (ptr =? 0) && bool_of_option (g_trace_file s)); [done|].
  by apply guard_exit_enter.
Qed.

Lemma alloc_hook_eq who size ptr s :
  alloc_hook who size ptr s =
  if hook_open s && negb (ptr =? 0) && bool_of_option (g_trace_file s)
  then TRACER_GUARD_EXIT
         (write_json_event "heap_alloc" ptr (Some who) (g_depth s)
            (Some [fld "size" (JInt size); fld "isHeap" (JBool true)])
            (set_g_inside_tracer true s))
  else s.
Proof.
  unfold alloc_hook, hook_open.
  destruct (g_tracer_disabled s) eqn:Hd; [done|].
  destruct (g_inside_tracer s) eqn:Hi; [done|].
  destruct (2048 <=? g_depth s); [done|]. simpl. rewrite Hd. simpl.
  rewrite andb_true_r.
  destruct (negb (ptr =? 0) && bool_of_option (g_trace_file s)); [done|].
  by apply guard_exit_enter.
Qed.

Section FreeHook.
Variables (who : string) (ptr : Z) (s : TracerState).
Let s' := free_hook who ptr s.

Ltac fh := subst s'; rewrite free_hook_eq; case_match; simpl;
           autorewrite with wje; reflexivity.

Lemma fh_trace_file : g_trace_file s' = g_trace_file s. Proof. fh. Qed.
Lemma fh_depth : g_depth s' = g_depth s. Proof. fh. Qed.
Lemma fh_disabled : g_tracer_disabled s' = g_tracer_disabled s. Proof. fh. Qed.
Lemma fh_variable_values : g_variable_values s' = g_variable_values s. Proof. fh. Qed.
Lemma fh_array_registry : g_array_registry s' = g_array_registry s. Proof. fh. Qed.
Lemma fh_address_to_name : g_address_to_name s' = g_address_to_name s. Proof. fh. Qed.
Lemma fh_array_element_values :
  g_array_element_values s' = g_array_element_values s.
Proof. fh. Qed.
Lemma fh_tracked_functions : g_tracked_functions s' = g_tracked_functions s. Proof. fh. Qed.
Lemma fh_current_function : g_current_function s' = g_current_function s. Proof. fh. Qed.
Lemma fh_pointer_registry : g_pointer_registry s' = g_pointer_registry s. Proof. fh. Qed.
Lemma fh_call_stack : g_call_stack s' = g_call_stack s. Proof. fh. Qed.
Lemma fh_trace_open : trace_open s' = trace_open s. Proof. fh. Qed.
Lemma fh_heap_reads : heap_reads s' = heap_reads s.
Proof.
  subst s'. rewrite free_hook_eq. case_match; [|done]. simpl.
  unfold write_json_event, fputs, get_timestamp_us. repeat case_match; simplify_eq; done.
Qed.

Lemma fh_inside : g_inside_tracer s' = g_inside_tracer s.
Proof.
  subst s'. rewrite free_hook_eq. case_match eqn:H; [|done]. simpl.
  unfold hook_open in H. by destruct (g_tracer_disabled s), (g_inside_tracer s).
Qed.

Lemma fh_no_trace_file : no_trace_file s' = no_trace_file s.
Proof. unfold no_trace_file. by rewrite fh_trace_file. Qed.

Lemma fh_can_write : can_write s' = can_write s.
Proof. unfold can_write. by rewrite fh_no_trace_file, fh_depth. Qed.

Lemma fh_hook_open : hook_open s' = hook_open s.
Proof. unfold hook_open. by rewrite fh_disabled, fh_inside, fh_depth. Qed.
End FreeHook.

Section AllocHook.
Variables (who : string) (size ptr : Z) (s : TracerState).
Let s' := alloc_hook who size ptr s.

Ltac ah := subst s'; rewrite alloc_hook_eq; case_match; simpl;
           autorewrite with wje; reflexivity.

Lemma ah_trace_file : g_trace_file s' = g_trace_file s. Proof. ah. Qed.
Lemma ah_depth : g_depth s' = g_depth s. Proof. ah. Qed.
Lemma ah_disabled : g_tracer_disabled s' = g_tracer_disabled s. Proof. ah. Qed.
Lemma ah_variable_values : g_variable_values s' = g_variable_values s. Proof. ah. Qed.
Lemma ah_array_registry : g_array_registry s' = g_array_registry s. Proof. ah. Qed.
Lemma ah_address_to_name : g_address_to_name s' = g_address_to_name s. Proof. ah. Qed.
Lemma ah_array_element_values :
  g_array_element_values s' = g_array_element_values s.
Proof. ah. Qed.
Lemma ah_tracked_functions : g_tracked_functions s' = g_tracked_functions s. Proof. ah. Qed.
Lemma ah_current_function : g_current_function s' = g_current_function s. Proof. ah. Qed.
Lemma ah_pointer_registry : g_pointer_registry s' = g_pointer_registry s. Proof. ah. Qed.
Lemma ah_call_stack : g_call_stack s' = g_call_stack s. Proof. ah. Qed.
Lemma ah_trace_open : trace_open s' = trace_open s. Proof. ah. Qed.

Lemma ah_inside : g_inside_tracer s' = g_inside_tracer s.
Proof.
  subst s'. rewrite alloc_hook_eq. case_match eqn:H; [|done]. simpl.
  unfold hook_open in H. by destruct (g_tracer_disabled s), (g_inside_tracer s).
Qed.
End AllocHook.

Hint Rewrite fh_trace_file fh_depth fh_inside fh_disabled fh_variable_values
  fh_array_registry fh_address_to_name fh_array_element_values fh_tracked_functions
  fh_current_function fh_pointer_registry fh_call_stack fh_trace_open
  fh_no_trace_file fh_can_write
  ah_trace_file ah_depth ah_inside ah_disabled ah_variable_values
  ah_array_registry ah_address_to_name ah_array_element_values ah_tracked_functions
  ah_current_function ah_pointer_registry ah_call_stack ah_trace_open : wje.

Arguments release : simpl never.
Arguments string_delete : simpl never.
Arguments string_new : simpl never.
Arguments take_buffer : simpl never.
Arguments string_buffer : simpl never.

(** The handlers below are proved with the two hooks folded. *)
Lemma string_delete_eq buf s :
  string_delete buf s =
  match buf with Some p => free_hook "operator delete" p s | None => s end.
Proof. reflexivity. Qed.

Section StringLocals.
Variables (str : string) (buf : option Z) (bufs : list (option Z)) (s : TracerState).

Ltac tb := unfold take_buffer; case_match; reflexivity.
Ltac sd := rewrite string_delete_eq; case_match; autorewrite with wje; reflexivity.
Ltac rl := unfold release; apply fold_left_preserves; intros ? ?; sd.
Ltac sn := unfold string_new, operator_new; case_match; autorewrite with wje;
           try reflexivity; tb.

Lemma tb_trace_file : g_trace_file (take_buffer str s) = g_trace_file s. Proof. tb. Qed.
Lemma tb_depth : g_depth (take_buffer str s) = g_depth s. Proof. tb. Qed.
Lemma tb_inside : g_inside_tracer (take_buffer str s) = g_inside_tracer s. Proof. tb. Qed.
Lemma tb_disabled : g_tracer_disabled (take_buffer str s) = g_tracer_disabled s.
Proof. tb. Qed.
Lemma tb_variable_values : g_variable_values (take_buffer str s) = g_variable_values s.
Proof. tb. Qed.
Lemma tb_array_registry : g_array_registry (take_buffer str s) = g_array_registry s.
Proof. tb. Qed.
Lemma tb_address_to_name : g_address_to_name (take_buffer str s) = g_address_to_name s.
Proof. tb. Qed.
Lemma tb_array_element_values :
  g_array_element_values (take_buffer str s) = g_array_element_values s.
Proof. tb. Qed.
Lemma tb_tracked_functions : g_tracked_functions (take_buffer str s) = g_tracked_functions s.
Proof. tb. Qed.
Lemma tb_current_function : g_current_function (take_buffer str s) = g_current_function s.
Proof. tb. Qed.
Lemma tb_pointer_registry : g_pointer_registry (take_buffer str s) = g_pointer_registry s.
Proof. tb. Qed.
Lemma tb_call_stack : g_call_stack (take_buffer str s) = g_call_stack s. Proof. tb. Qed.
Lemma tb_trace_open : trace_open (take_buffer str s) = trace_open s. Proof. tb. Qed.
Lemma tb_trace_out : trace_out (take_buffer str s) = trace_out s. Proof. tb. Qed.
Lemma tb_event_counter : g_event_counter (take_buffer str s) = g_event_counter s.
Proof. tb. Qed.
Lemma tb_clock_reads : clock_reads (take_buffer str s) = clock_reads s. Proof. tb. Qed.
Lemma tb_events : events (take_buffer str s) = events s. Proof. tb. Qed.
Lemma tb_no_trace_file : no_trace_file (take_buffer str s) = no_trace_file s. Proof. tb. Qed.
Lemma tb_can_write : can_write (take_buffer str s) = can_write s. Proof. tb. Qed.
Lemma tb_findPointerInfo p : findPointerInfo p (take_buffer str s) = findPointerInfo p s.
Proof. tb. Qed.

Lemma sd_trace_file : g_trace_file (string_delete buf s) = g_trace_file s. Proof. sd. Qed.
Lemma sd_depth : g_depth (string_delete buf s) = g_depth s. Proof. sd. Qed.
Lemma sd_inside : g_inside_tracer (string_delete buf s) = g_inside_tracer s. Proof. sd. Qed.
Lemma sd_disabled : g_tracer_disabled (string_delete buf s) = g_tracer_disabled s.
Proof. sd. Qed.
Lemma sd_variable_values : g_variable_values (string_delete buf s) = g_variable_values s.
Proof. sd. Qed.
Lemma sd_array_registry : g_array_registry (string_delete buf s) = g_array_registry s.
Proof. sd. Qed.
Lemma sd_address_to_name : g_address_to_name (string_delete buf s) = g_address_to_name s.
Proof. sd. Qed.
Lemma sd_array_element_values :
  g_array_element_values (string_delete buf s) = g_array_element_values s.
Proof. sd. Qed.
Lemma sd_tracked_functions :
  g_tracked_functions (string_delete buf s) = g_tracked_functions s.
Proof. sd. Qed.
Lemma sd_current_function : g_current_function (string_delete buf s) = g_current_function s.
Proof. sd. Qed.
Lemma sd_pointer_registry : g_pointer_registry (string_delete buf s) = g_pointer_registry s.
Proof. sd. Qed.
Lemma sd_call_stack : g_call_stack (string_delete buf s) = g_call_stack s. Proof. sd. Qed.
Lemma sd_trace_open : trace_open (string_delete buf s) = trace_open s. Proof. sd. Qed.

Lemma rl_trace_file : g_trace_file (release bufs s) = g_trace_file s. Proof. rl. Qed.
Lemma rl_depth : g_depth (release bufs s) = g_depth s. Proof. rl. Qed.
Lemma rl_inside : g_inside_tracer (release bufs s) = g_inside_tracer s. Proof. rl. Qed.
Lemma rl_disabled : g_tracer_disabled (release bufs s) = g_tracer_disabled s.
Proof. rl. Qed.
Lemma rl_variable_values : g_variable_values (release bufs s) = g_variable_values s.
Proof. rl. Qed.
Lemma rl_array_registry : g_array_registry (release bufs s) = g_array_registry s.
Proof. rl. Qed.
Lemma rl_address_to_name : g_address_to_name (release bufs s) = g_address_to_name s.
Proof. rl. Qed.
Lemma rl_array_element_values :
  g_array_element_values (release bufs s) = g_array_element_values s.
Proof. rl. Qed.
Lemma rl_tracked_functions : g_tracked_functions (release bufs s) = g_tracked_functions s.
Proof. rl. Qed.
Lemma rl_current_function : g_current_function (release bufs s) = g_current_function s.
Proof. rl. Qed.
Lemma rl_pointer_registry : g_pointer_registry (release bufs s) = g_pointer_registry s.
Proof. rl. Qed.
Lemma rl_call_stack : g_call_stack (release bufs s) = g_call_stack s. Proof. rl. Qed.
Lemma rl_trace_open : trace_open (release bufs s) = trace_open s. Proof. rl. Qed.

Lemma rl_no_trace_file : no_trace_file (release bufs s) = no_trace_file s.
Proof. unfold no_trace_file. by rewrite rl_trace_file. Qed.

Lemma rl_can_write : can_write (release bufs s) = can_write s.
Proof. unfold can_write. by rewrite rl_no_trace_file, rl_depth. Qed.

Lemma sn_trace_file : g_trace_file (string_new str s) = g_trace_file s. Proof. sn. Qed.
Lemma sn_depth : g_depth (string_new str s) = g_depth s. Proof. sn. Qed.
Lemma sn_inside : g_inside_tracer (string_new str s) = g_inside_tracer s. Proof. sn. Qed.
Lemma sn_disabled : g_tracer_disabled (string_new str s) = g_tracer_disabled s.
Proof. sn. Qed.
Lemma sn_variable_values : g_variable_values (string_new str s) = g_variable_values s.
Proof. sn. Qed.
Lemma sn_array_registry : g_array_registry (string_new str s) = g_array_registry s.
Proof. sn. Qed.
Lemma sn_address_to_name : g_address_to_name (string_new str s) = g_address_to_name s.
Proof. sn. Qed.
Lemma sn_array_element_values :
  g_array_element_values (string_new str s) = g_array_element_values s.
Proof. sn. Qed.
Lemma sn_tracked_functions : g_tracked_functions (string_new str s) = g_tracked_functions s.
Proof. sn. Qed.
Lemma sn_current_function : g_current_function (string_new str s) = g_current_function s.
Proof. sn. Qed.
Lemma sn_pointer_registry : g_pointer_registry (string_new str s) = g_pointer_registry s.
Proof. sn. Qed.
Lemma sn_call_stack : g_call_stack (string_new str s) = g_call_stack s. Proof. sn. Qed.
Lemma sn_trace_open : trace_open (string_new str s) = trace_open s. Proof. sn. Qed.

Lemma sn_no_trace_file : no_trace_file (string_new str s) = no_trace_file s.
Proof. unfold no_trace_file. by rewrite sn_trace_file. Qed.

Lemma sn_can_write : can_write (string_new str s) = can_write s.
Proof. unfold can_write. by rewrite sn_no_trace_file, sn_depth. Qed.
End StringLocals.

Hint Rewrite tb_trace_file tb_depth tb_inside tb_disabled tb_variable_values
  tb_array_registry tb_address_to_name tb_array_element_values tb_tracked_functions
  tb_current_function tb_pointer_registry tb_call_stack tb_trace_open tb_trace_out
  tb_event_counter tb_clock_reads tb_events tb_no_trace_file tb_can_write
  tb_findPointerInfo
  sd_trace_file sd_depth sd_inside sd_disabled sd_variable_values
  sd_array_registry sd_address_to_name sd_array_element_values sd_tracked_functions
  sd_current_function sd_pointer_registry sd_call_stack sd_trace_open
  rl_trace_file rl_depth rl_inside rl_disabled rl_variable_values
  rl_array_registry rl_address_to_name rl_array_element_values rl_tracked_functions
  rl_current_function rl_pointer_registry rl_call_stack rl_trace_open
  rl_no_trace_file rl_can_write
  sn_trace_file sn_depth sn_inside sn_disabled sn_variable_values
  sn_array_registry sn_address_to_name sn_array_element_values sn_tracked_functions
  sn_current_function sn_pointer_registry sn_call_stack sn_trace_open
  sn_no_trace_file sn_can_write : wje.

(** Inside the guard [operator new] returns at once: a string built there
    is a string built unseen. *)
Lemma string_new_inside str s :
  g_inside_tracer s = true → string_new str s = take_buffer str s.
Proof.
  intros H. unfold string_new, string_buffer, take_buffer, operator_new.
  destruct (on_heap str); [|done]. apply alloc_hook_closed.
  unfold hook_open. simpl. by rewrite H, orb_true_r.
Qed.

Lemma string_new_closed str s : hook_open s = false → string_new str s = take_buffer str s.
Proof.
  intros H. unfold string_new, string_buffer, take_buffer, operator_new.
  destruct (on_heap str); [|done]. by apply alloc_hook_closed.
Qed.


Lemma release_cons buf bufs s : release (buf :: bufs) s = release bufs (string_delete buf s).
Proof. reflexivity. Qed.

(** With the hooks closed the strings die unseen. *)
Lemma release_closed bufs s : hook_open s = false → release bufs s = s.
Proof.
  intros H. induction bufs as [|[p|] bufs IH]; [done|..];
    rewrite release_cons, string_delete_eq; [|done].
  by rewrite free_hook_closed.
Qed.

(** Without a file the releasing hook writes nothing. *)
Lemma release_closed_file bufs s : g_trace_file s = None → release bufs s = s.
Proof.
  intros H. induction bufs as [|[p|] bufs IH]; [done|..];
    rewrite release_cons, string_delete_eq; [|done].
  rewrite free_hook_eq, H, andb_false_r. done.
Qed.

(** The events of a state are those of its file. *)
Lemma events_set_g_trace_file v s : events (set_g_trace_file v s) = events s.
Proof. reflexivity. Qed.
Lemma events_set_g_depth v s : events (set_g_depth v s) = events s.
Proof. reflexivity. Qed.
Lemma events_set_g_event_counter v s : events (set_g_event_counter v s) = events s.
Proof. reflexivity. Qed.
Lemma events_set_g_inside_tracer v s : events (set_g_inside_tracer v s) = events s.
Proof. reflexivity. Qed.
Lemma events_set_g_tracer_disabled v s : events (set_g_tracer_disabled v s) = events s.
Proof. reflexivity. Qed.
Lemma events_set_g_variable_values v s : events (set_g_variable_values v s) = events s.
Proof. reflexivity. Qed.
Lemma events_set_g_array_registry v s : events (set_g_array_registry v s) = events s.
Proof. reflexivity. Qed.
Lemma events_set_g_address_to_name v s : events (set_g_address_to_name v s) = events s.
Proof. reflexivity. Qed.
Lemma events_set_g_array_element_values v s : events (set_g_array_element_values v s) = events s.
Proof. reflexivity. Qed.
Lemma events_set_g_tracked_functions v s : events (set_g_tracked_functions v s) = events s.
Proof. reflexivity. Qed.
Lemma events_set_g_current_function v s : events (set_g_current_function v s) = events s.
Proof. reflexivity. Qed.
Lemma events_set_g_pointer_registry v s : events (set_g_pointer_registry v s) = events s.
Proof. reflexivity. Qed.
Lemma events_set_g_call_stack v s : events (set_g_call_stack v s) = events s.
Proof. reflexivity. Qed.
Lemma events_set_trace_open v s : events (set_trace_open v s) = events s.
Proof. reflexivity. Qed.
Lemma events_set_clock_reads v s : events (set_clock_reads v s) = events s.
Proof. reflexivity. Qed.
Lemma events_set_heap_reads v s : events (set_heap_reads v s) = events s.
Proof. reflexivity. Qed.
Lemma events_guard_exit s : events (TRACER_GUARD_EXIT s) = events s.
Proof. reflexivity. Qed.

Hint Rewrite events_set_g_trace_file events_set_g_depth events_set_g_event_counter events_set_g_inside_tracer events_set_g_tracer_disabled events_set_g_variable_values events_set_g_array_registry events_set_g_address_to_name events_set_g_array_element_values events_set_g_tracked_functions events_set_g_current_function events_set_g_pointer_registry events_set_g_call_stack events_set_trace_open events_set_clock_reads events_set_heap_reads events_guard_exit : wje.

(** ** The invariant of a run *)

Lemma ids_ok_snoc c es e :
  ids_ok c es → ev_id e = c → ids_ok ((c + 1) mod 2 ^ 64) (es ++ [e]).
Proof.
  intros [Hc Hi] He. split.
  - rewrite length_app, Nat2Z.inj_add, Hc. simpl. by rewrite Zplus_mod_idemp_l.
  - intros i x Hx. apply lookup_snoc_Some in Hx as [[_ Hx]|[-> <-]]; [by apply Hi|].
    by rewrite He.
Qed.

Lemma exits_closed_snoc es e :
  exits_closed es → ev_type e ≠ "func_exit" → exits_closed (es ++ [e]).
Proof.
  intros Hes Hty before x after L Heq Hx.
  destruct (decide (after = [])) as [->|Hne].
  - apply app_inj_tail in Heq as [_ <-]. done.
  - destruct (exists_last Hne) as (after' & y & ->).
    rewrite app_comm_cons, app_assoc in Heq. apply app_inj_tail in Heq as [Heq _].
    by apply (Hes before x after').
Qed.

Lemma exits_closed_snoc_exit es e :
  exits_closed es → (∀ L, open_loops (ev_depth e) L es = 0%nat) → exits_closed (es ++ [e]).
Proof.
  intros Hes Hz before x after L Heq Hx.
  destruct (decide (after = [])) as [->|Hne].
  - apply app_inj_tail in Heq as [<- <-]. apply Hz.
  - destruct (exists_last Hne) as (after' & y & ->).
    rewrite app_comm_cons, app_assoc in Heq. apply app_inj_tail in Heq as [Heq _].
    by apply (Hes before x after').
Qed.

Lemma loops_ok_snoc_plain stack es e :
  loops_ok stack es → plain_type (ev_type e) = true → loops_ok stack (es ++ [e]).
Proof.
  intros H Hp i fr L Hi. rewrite open_loops_snoc, loop_step_plain by done. by apply H.
Qed.

Lemma loops_ok_fmap stack stack' es :
  activeLoops <$> stack' = activeLoops <$> stack → loops_ok stack es → loops_ok stack' es.
Proof.
  intros Hst H i fr L Hi.
  assert (Hl : (activeLoops <$> stack) !! i = Some (activeLoops fr))
    by (rewrite <- Hst, list_lookup_fmap, Hi; reflexivity).
  apply list_lookup_fmap_Some in Hl as (fr0 & Heq & Hfr0).
  rewrite Heq. by apply H.
Qed.

Lemma Inv_initial : Inv initial_state.
Proof.
  split; simpl; try done.
  intros before e after L H. by destruct before.
Qed.

(** The invariant reads the depth, the open loops of the frames, the
    counter, the output, the file handle and the disabled flag only. *)
Lemma Inv_ext s s' :
  g_depth s' = g_depth s →
  activeLoops <$> g_call_stack s' = activeLoops <$> g_call_stack s →
  g_event_counter s' = g_event_counter s →
  trace_out s' = trace_out s →
  g_trace_file s' = g_trace_file s →
  g_tracer_disabled s' = g_tracer_disabled s →
  Inv s → Inv s'.
Proof.
  intros Hd Hst Hc Ho Hf Hdis [I1 I2 I3 I4 I5 I6].
  assert (He : events s' = events s) by (unfold events; by rewrite Ho).
  split; rewrite ?Hd, ?Hc, ?He, ?Hf, ?Hdis; auto.
  - rewrite <- I2. f_equal.
    rewrite <- (length_fmap activeLoops (g_call_stack s')), Hst. apply length_fmap.
  - by apply (loops_ok_fmap (g_call_stack s)).
Qed.

Lemma Inv_set_call_stack v s :
  activeLoops <$> v = activeLoops <$> g_call_stack s → Inv s → Inv (set_g_call_stack v s).
Proof. intros H. by apply Inv_ext. Qed.

Lemma Inv_set_inside b s : Inv s → Inv (set_g_inside_tracer b s).
Proof. by apply Inv_ext. Qed.
Lemma Inv_guard_exit s : Inv s → Inv (TRACER_GUARD_EXIT s).
Proof. by apply Inv_ext. Qed.
Lemma Inv_set_variable_values v s : Inv s → Inv (set_g_variable_values v s).
Proof. by apply Inv_ext. Qed.
Lemma Inv_set_array_registry v s : Inv s → Inv (set_g_array_registry v s).
Proof. by apply Inv_ext. Qed.
Lemma Inv_set_address_to_name v s : Inv s → Inv (set_g_address_to_name v s).
Proof. by apply Inv_ext. Qed.
Lemma Inv_set_array_element_values v s : Inv s → Inv (set_g_array_element_values v s).
Proof. by apply Inv_ext. Qed.
Lemma Inv_set_tracked_functions v s : Inv s → Inv (set_g_tracked_functions v s).
Proof. by apply Inv_ext. Qed.
Lemma Inv_set_current_function v s : Inv s → Inv (set_g_current_function v s).
Proof. by apply Inv_ext. Qed.
Lemma Inv_set_pointer_registry v s : Inv s → Inv (set_g_pointer_registry v s).
Proof. by apply Inv_ext. Qed.

(** Writing an event keeps the ids in step with the counter. *)
Lemma ids_ok_write type addr func_name depth extra s :
  ids_ok (g_event_counter s) (events s) →
  let s' := write_json_event type addr func_name depth extra s in
  ids_ok (g_event_counter s') (events s').
Proof.
  intros H. simpl. rewrite wje_event_counter, wje_events.
  destruct (can_write s); [|done]. by apply ids_ok_snoc.
Qed.

Lemma Inv_write_plain type addr func_name extra s :
  plain_type type = true → Inv s →
  Inv (write_json_event type addr func_name (g_depth s) extra s).
Proof.
  intros Hp [I1 I2 I3 I4 I5 I6].
  split; autorewrite with wje; auto.
  - by apply ids_ok_write.
  - rewrite wje_events. intros Hf Hd. unfold can_write, no_trace_file. rewrite Hf. simpl.
    by apply I4.
  - rewrite wje_events. destruct (can_write s); [|done]. by apply loops_ok_snoc_plain.
  - rewrite wje_events. destruct (can_write s); [|done]. apply exits_closed_snoc; [done|].
    simpl. intros ->. done.
Qed.

(** The hooks write plain events; the strings of a handler leave through
    the releasing hook. *)
Lemma Inv_free_hook who ptr s : Inv s → Inv (free_hook who ptr s).
Proof.
  intros I. rewrite free_hook_eq. case_match; [|done].
  apply Inv_guard_exit.
  apply (Inv_write_plain "heap_free" ptr (Some who) None (set_g_inside_tracer true s));
    [reflexivity|]. by apply Inv_set_inside.
Qed.

Lemma Inv_alloc_hook who size ptr s : Inv s → Inv (alloc_hook who size ptr s).
Proof.
  intros I. rewrite alloc_hook_eq. case_match; [|done].
  apply Inv_guard_exit.
  apply (Inv_write_plain "heap_alloc" ptr (Some who) _ (set_g_inside_tracer true s));
    [reflexivity|]. by apply Inv_set_inside.
Qed.

Lemma Inv_take_buffer str s : Inv s → Inv (take_buffer str s).
Proof. unfold take_buffer. case_match; [|done]. by apply Inv_ext. Qed.

Lemma Inv_string_delete buf s : Inv s → Inv (string_delete buf s).
Proof. rewrite string_delete_eq. destruct buf; [apply Inv_free_hook|done]. Qed.

Lemma Inv_release bufs s : Inv s → Inv (release bufs s).
Proof.
  intros I. unfold release. apply (fold_left_invariant _ Inv); [|done].
  intros ? ? ?. by apply Inv_string_delete.
Qed.

Lemma Inv_string_new str s : Inv s → Inv (string_new str s).
Proof.
  intros I. unfold string_new. case_match; [|done].
  apply Inv_alloc_hook. by apply Inv_take_buffer.
Qed.

Ltac solve_stack :=
  rewrite fmap_with_back by reflexivity;
  first [ reflexivity | congruence ].

Ltac peel :=
  repeat first
    [ assumption
    | apply Inv_guard_exit
    | apply Inv_release
    | apply Inv_take_buffer
    | apply Inv_string_new
    | apply Inv_set_inside
    | apply Inv_set_variable_values
    | apply Inv_set_array_registry
    | apply Inv_set_address_to_name
    | apply Inv_set_array_element_values
    | apply Inv_set_tracked_functions
    | apply Inv_set_current_function
    | apply Inv_set_pointer_registry
    | apply Inv_write_plain; [reflexivity|]
    | apply Inv_set_call_stack; [solve_stack|]
    | apply (fold_left_invariant _ Inv); [intros ? ? ?|]
    | progress unfold init_element
    | progress cbv zeta
    | case_match; simplify_eq ].

Lemma loop_step_enter d L n e :
  ev_depth e = d → ev_type e = "func_enter" → loop_step d L n e = 0%nat.
Proof.
  intros Hd Ht. unfold loop_step. rewrite Hd, Z.eqb_refl, Ht. reflexivity.
Qed.

Lemma loop_step_start d L n e x :
  ev_depth e = d → ev_type e = "loop_start" → event_loopId e = Some x →
  loop_step d L n e = if x =? L then S n else n.
Proof.
  intros Hd Ht Hx. unfold loop_step, is_loop_event. rewrite Hd, Z.eqb_refl, Ht, Hx. simpl.
  destruct (Z.eqb_spec x L) as [->|Hne].
  - by rewrite bool_decide_eq_true_2.
  - rewrite !bool_decide_eq_false_2; [done|congruence..].
Qed.

Lemma loop_step_end d L n e x :
  ev_depth e = d → ev_type e = "loop_end" → event_loopId e = Some x →
  loop_step d L n e = if x =? L then Nat.pred n else n.
Proof.
  intros Hd Ht Hx. unfold loop_step, is_loop_event. rewrite Hd, Z.eqb_refl, Ht, Hx. simpl.
  destruct (Z.eqb_spec x L) as [->|Hne].
  - by rewrite bool_decide_eq_true_2.
  - rewrite !bool_decide_eq_false_2; [done|congruence..].
Qed.

Lemma loops_ok_nil es : loops_ok [] es.
Proof. intros i fr L H. by destruct i. Qed.

Lemma loops_ok_snoc_stack v top es :
  loops_ok (v ++ [top]) es ↔
  loops_ok v es ∧
  ∀ L, open_loops (Z.of_nat (length v) + 1) L es = count_id L (activeLoops top).
Proof.
  split.
  - intros H. split.
    + intros i fr L Hi. apply H. by apply lookup_app_l_Some.
    + intros L. apply H. by rewrite lookup_app_r, Nat.sub_diag.
  - intros [Hv Ht] i fr L Hi. apply lookup_snoc_Some in Hi as [[_ Hi]|[-> <-]].
    + by apply Hv.
    + apply Ht.
Qed.

(** Events below the frames of [v] do not count for them. *)
Lemma loops_ok_deeper v es e :
  loops_ok v es → Z.of_nat (length v) < ev_depth e → loops_ok v (es ++ [e]).
Proof.
  intros H Hd i fr L Hi. rewrite open_loops_snoc, loop_step_other_depth; [by apply H|].
  apply lookup_lt_Some in Hi. lia.
Qed.

Lemma can_write_running s :
  g_depth s ≤ 2047 → can_write s = bool_of_option (g_trace_file s).
Proof.
  intros H. unfold can_write, no_trace_file.
  destruct (Z.leb_spec 2048 (g_depth s)); [lia|]. by destruct (g_trace_file s).
Qed.

(** The invariant after an event that is not a [func_exit], written in a
    state [s1] that differs from the state [s] of the invariant in its
    depth, its stack and the fields the invariant does not read. *)
Lemma Inv_after_write type addr func_name depth extra s s1 :
  Inv s →
  g_event_counter s1 = g_event_counter s →
  trace_out s1 = trace_out s →
  g_trace_file s1 = g_trace_file s →
  g_tracer_disabled s1 = g_tracer_disabled s →
  0 ≤ g_depth s1 ≤ 2047 →
  Z.of_nat (length (g_call_stack s1)) = g_depth s1 →
  type ≠ "func_exit" →
  loops_ok (g_call_stack s1)
    (if bool_of_option (g_trace_file s)
     then events s ++ [event_of type addr func_name depth extra s1]
     else events s) →
  Inv (write_json_event type addr func_name depth extra s1).
Proof.
  intros [I1 I2 I3 I4 I5 I6] Hc Ho Hf Hdis Hd Hst Hty Hl.
  assert (He : events s1 = events s) by (unfold events; by rewrite Ho).
  assert (Hw : can_write s1 = bool_of_option (g_trace_file s))
    by (rewrite can_write_running, Hf by lia; reflexivity).
  split; autorewrite with wje; auto.
  - apply ids_ok_write. by rewrite Hc, He.
  - rewrite wje_events, Hw, Hf, Hdis, He. intros Hn. rewrite Hn. simpl. by apply I4.
  - rewrite wje_events, Hw, He. done.
  - rewrite wje_events, Hw, He. destruct (bool_of_option _); [|done].
    by apply exits_closed_snoc.
Qed.

Lemma Inv_loop_start loopId loopType file line s :
  Inv s → Inv (__trace_loop_start_loc loopId loopType file line s).
Proof.
  intros I. unfold __trace_loop_start_loc. enter_guard; [|done].
  apply (Inv_set_inside true) in I. revert I.
  generalize (set_g_inside_tracer true s). intros X I.
  destruct (no_trace_file X) eqn:F; [peel|]. apply Inv_release, Inv_guard_exit. cbv zeta.
  assert (HF : bool_of_option (g_trace_file X) = true)
    by (unfold no_trace_file in F; by apply negb_false_iff in F).
  destruct (g_call_stack X) as [|c l] eqn:Hst.
  { apply (Inv_after_write _ _ _ _ _ X); autorewrite with wje; try done; try apply I.
    rewrite Hst. apply loops_ok_nil. }
  destruct (back (g_call_stack X)) as [top|] eqn:Hb;
    [|apply back_None in Hb; congruence].
  apply back_Some in Hb. rewrite <- Hst, Hb. clear c l Hst.
  set (v := pop_back (g_call_stack X)) in *.
  pose proof (inv_stack _ I) as Hlen. pose proof (inv_depth _ I) as Hdep.
  pose proof (inv_loops _ I) as Hl. rewrite Hb in Hl, Hlen.
  apply loops_ok_snoc_stack in Hl as [Hlv Hlt]. rewrite length_app in Hlen. simpl in Hlen.
  apply (Inv_after_write _ _ _ _ _ X); autorewrite with wje; try done; simpl;
    rewrite ?with_back_snoc, ?length_app; simpl; try lia.
  rewrite HF. apply loops_ok_snoc_stack. split.
  - apply loops_ok_deeper; [done|]. simpl. lia.
  - intros L. simpl. rewrite open_loops_snoc.
    rewrite (loop_step_start _ _ _ _ loopId); [|simpl; lia|done..].
    rewrite count_id_app, Hlt. simpl. destruct (loopId =? L); lia.
Qed.

Lemma Inv_loop_end loopId file line s :
  Inv s → Inv (__trace_loop_end_loc loopId file line s).
Proof.
  intros I. unfold __trace_loop_end_loc. enter_guard; [|done].
  apply (Inv_set_inside true) in I. revert I.
  generalize (set_g_inside_tracer true s). intros X I.
  destruct (no_trace_file X) eqn:F; [peel|]. apply Inv_release, Inv_guard_exit. cbv zeta.
  assert (HF : bool_of_option (g_trace_file X) = true)
    by (unfold no_trace_file in F; by apply negb_false_iff in F).
  destruct (g_call_stack X) as [|c l] eqn:Hst.
  { apply (Inv_after_write _ _ _ _ _ X); autorewrite with wje; try done; try apply I.
    rewrite Hst. apply loops_ok_nil. }
  destruct (back (g_call_stack X)) as [top|] eqn:Hb;
    [|apply back_None in Hb; congruence].
  apply back_Some in Hb. rewrite <- Hst, Hb. clear c l Hst.
  set (v := pop_back (g_call_stack X)) in *.
  pose proof (inv_stack _ I) as Hlen. pose proof (inv_depth _ I) as Hdep.
  pose proof (inv_loops _ I) as Hl. rewrite Hb in Hl, Hlen.
  apply loops_ok_snoc_stack in Hl as [Hlv Hlt]. rewrite length_app in Hlen. simpl in Hlen.
  apply (Inv_after_write _ _ _ _ _ X); autorewrite with wje; try done; simpl;
    rewrite ?with_back_snoc, ?length_app; simpl; try lia.
  rewrite HF. apply loops_ok_snoc_stack. split.
  - apply loops_ok_deeper; [done|]. simpl. lia.
  - intros L. simpl. rewrite open_loops_snoc.
    rewrite (loop_step_end _ _ _ _ loopId); [|simpl; lia|done..].
    by rewrite count_id_erase_first, Hlt.
Qed.

(** ** Closing the loops of a frame *)

Section CloseActiveLoops.
Variables (loops : list Z) (s : TracerState).
Let s' := close_active_loops loops s.

Ltac cal := subst s'; unfold close_active_loops;
            apply fold_left_preserves; intros; autorewrite with wje; reflexivity.

Lemma cal_trace_file : g_trace_file s' = g_trace_file s. Proof. cal. Qed.
Lemma cal_depth : g_depth s' = g_depth s. Proof. cal. Qed.
Lemma cal_inside : g_inside_tracer s' = g_inside_tracer s. Proof. cal. Qed.
Lemma cal_disabled : g_tracer_disabled s' = g_tracer_disabled s. Proof. cal. Qed.
Lemma cal_variable_values : g_variable_values s' = g_variable_values s. Proof. cal. Qed.
Lemma cal_array_registry : g_array_registry s' = g_array_registry s. Proof. cal. Qed.
Lemma cal_address_to_name : g_address_to_name s' = g_address_to_name s. Proof. cal. Qed.
Lemma cal_array_element_values :
  g_array_element_values s' = g_array_element_values s.
Proof. cal. Qed.
Lemma cal_tracked_functions : g_tracked_functions s' = g_tracked_functions s. Proof. cal. Qed.
Lemma cal_current_function : g_current_function s' = g_current_function s. Proof. cal. Qed.
Lemma cal_pointer_registry : g_pointer_registry s' = g_pointer_registry s. Proof. cal. Qed.
Lemma cal_call_stack : g_call_stack s' = g_call_stack s. Proof. cal. Qed.
Lemma cal_trace_open : trace_open s' = trace_open s. Proof. cal. Qed.

Lemma cal_can_write : can_write s' = can_write s.
Proof. unfold can_write, no_trace_file. by rewrite cal_trace_file, cal_depth. Qed.

Lemma cal_ids_ok :
  ids_ok (g_event_counter s) (events s) → ids_ok (g_event_counter s') (events s').
Proof.
  subst s'. unfold close_active_loops.
  apply (fold_left_invariant _ (fun x => ids_ok (g_event_counter x) (events x))).
  intros x a Hx. by apply ids_ok_write.
Qed.
End CloseActiveLoops.

Hint Rewrite cal_trace_file cal_depth cal_inside cal_disabled cal_variable_values
  cal_array_registry cal_address_to_name cal_array_element_values cal_tracked_functions
  cal_current_function cal_pointer_registry cal_call_stack cal_trace_open
  cal_can_write : wje.

Lemma close_active_loops_events loops s :
  ∃ new, events (close_active_loops loops s) = events s ++ new ∧
         event_summary <$> new =
         if can_write s then synthetic_loop_ends loops (g_depth s) else [].
Proof.
  unfold close_active_loops, synthetic_loop_ends.
  generalize (rev loops). clear loops. intros l. revert s.
  induction l as [|x l IH]; intros s; simpl.
  - exists []. rewrite app_nil_r. by destruct (can_write s).
  - destruct (IH (write_json_event "loop_end" 0 (Some (g_current_function s)) (g_depth s)
                    (Some [fld "loopId" (JInt x); fld "file" (JStr "unknown");
                           fld "line" (JInt 0)]) s)) as (new & Hev & Hsum).
    rewrite Hev, wje_events. autorewrite with wje in Hsum.
    destruct (can_write s).
    + eexists (_ :: new). rewrite <- app_assoc. split; [reflexivity|].
      rewrite fmap_cons, Hsum. reflexivity.
    + exists new. done.
Qed.

Lemma count_id_rev L l : count_id L (rev l) = count_id L l.
Proof.
  induction l as [|x l IH]; simpl; [done|].
  rewrite count_id_app, IH. simpl. destruct (x =? L); lia.
Qed.

(** The effect of a run of [loop_end] events at depth [d] on the count of
    open loops, at that depth and at the others. *)
Lemma open_loops_loop_ends d L es new l :
  event_summary <$> new = map (fun x => ("loop_end", Some x, d)) l →
  open_loops d L (es ++ new) = (open_loops d L es - count_id L l)%nat.
Proof.
  revert es new. induction l as [|x l IH]; intros es new Hs.
  - apply fmap_nil_inv in Hs as ->. rewrite app_nil_r. simpl. lia.
  - destruct new as [|e new]; [done|]. rewrite fmap_cons in Hs. simpl in Hs.
    injection Hs as Hty Hid Hd Hs.
    rewrite (cons_middle e), app_assoc, (IH _ _ Hs), open_loops_snoc.
    rewrite (loop_step_end _ _ _ _ x) by done. simpl. destruct (x =? L); lia.
Qed.

Lemma loops_ok_deeper_list v es new d :
  loops_ok v es → Z.of_nat (length v) < d → Forall (fun e => ev_depth e = d) new →
  loops_ok v (es ++ new).
Proof.
  intros H Hd Hnew. revert es H. induction Hnew as [|e new He _ IH]; intros es H.
  - by rewrite app_nil_r.
  - rewrite (cons_middle e), app_assoc. apply IH. apply loops_ok_deeper; [done|lia].
Qed.

Lemma exits_closed_app es new :
  exits_closed es → Forall (fun e => ev_type e ≠ "func_exit") new → exits_closed (es ++ new).
Proof.
  intros H Hnew. revert es H. induction Hnew as [|e new He _ IH]; intros es H.
  - by rewrite app_nil_r.
  - rewrite (cons_middle e), app_assoc. apply IH. by apply exits_closed_snoc.
Qed.

Lemma synthetic_summary new loops d :
  event_summary <$> new = synthetic_loop_ends loops d →
  Forall (fun e => ev_depth e = d) new ∧ Forall (fun e => ev_type e ≠ "func_exit") new.
Proof.
  unfold synthetic_loop_ends. generalize (rev loops). intros l. revert new.
  induction l as [|x l IH]; intros new Hs.
  - apply fmap_nil_inv in Hs as ->. split; constructor.
  - destruct new as [|e new]; [done|]. rewrite fmap_cons in Hs. simpl in Hs.
    injection Hs as Hty Hid Hd Hs.
    destruct (IH _ Hs). split; constructor; try done. by rewrite Hty.
Qed.

(** ** Function exit and entry, when they go through *)

Lemma guard_enter_grant s :
  g_tracer_disabled s = false → g_inside_tracer s = false →
  TRACER_GUARD_ENTER s = Some (set_g_inside_tracer true s).
Proof. unfold TRACER_GUARD_ENTER. by intros -> ->. Qed.

(** The exit handler on a frame [top], in one expression. *)
Lemma func_exit_accepted_eq func caller s v top nm :
  g_tracer_disabled s = false → g_inside_tracer s = false → 0 < g_depth s →
  exit_name func = Some nm → g_call_stack s = v ++ [top] →
  __cyg_profile_func_exit func caller s =
  TRACER_GUARD_EXIT
    (set_g_depth (g_depth s - 1)
       (write_json_event "func_exit" func (Some nm) (g_depth s) None
          (set_g_current_function
             (match back v with Some fr => functionName fr | None => "main" end)
             (set_g_call_stack v
                (close_active_loops (activeLoops top) (set_g_inside_tracer true s)))))).
Proof.
  intros Hdis Hin Hd Hnm Hst. unfold __cyg_profile_func_exit.
  rewrite guard_enter_grant by done. simpl g_depth.
  destruct (Z.leb_spec (g_depth s) 0); [lia|]. rewrite Hnm.
  cbv zeta. change (g_call_stack (set_g_inside_tracer true s)) with (g_call_stack s).
  rewrite Hst, !back_snoc.
  simpl g_call_stack. autorewrite with wje. simpl g_call_stack.
  rewrite Hst, !with_back_snoc, !pop_back_snoc.
  simpl g_depth. autorewrite with wje. simpl g_depth.
  reflexivity.
Qed.

Lemma func_exit_accepted func caller s v top nm :
  g_tracer_disabled s = false → g_inside_tracer s = false → 0 < g_depth s →
  exit_name func = Some nm → g_call_stack s = v ++ [top] →
  let s' := __cyg_profile_func_exit func caller s in
  g_depth s' = g_depth s - 1 ∧ g_call_stack s' = v ∧
  g_inside_tracer s' = false ∧ g_tracer_disabled s' = false ∧
  g_trace_file s' = g_trace_file s ∧ trace_open s' = trace_open s ∧
  g_pointer_registry s' = g_pointer_registry s ∧
  g_address_to_name s' = g_address_to_name s ∧
  g_current_function s' = match back v with Some fr => functionName fr | None => "main" end ∧
  (ids_ok (g_event_counter s) (events s) → ids_ok (g_event_counter s') (events s')) ∧
  if can_write s
  then ∃ new e, events s' = events s ++ new ++ [e] ∧
                event_summary <$> new = synthetic_loop_ends (activeLoops top) (g_depth s) ∧
                event_summary e = ("func_exit", None, g_depth s) ∧
                ev_func e = nm ∧ ev_addr e = func
  else events s' = events s.
Proof.
  intros Hdis Hin Hd Hnm Hst. simpl.
  rewrite (func_exit_accepted_eq _ _ _ v top nm) by done.
  set (X := set_g_inside_tracer true s).
  set (sc := close_active_loops (activeLoops top) X).
  set (s3 := set_g_current_function
               (match back v with Some fr => functionName fr | None => "main" end)
               (set_g_call_stack v sc)).
  assert (Hcw : can_write s3 = can_write s).
  { unfold can_write, no_trace_file. simpl. subst sc. by autorewrite with wje. }
  assert (He3 : events s3 = events sc) by reflexivity.
  split_and!; simpl; autorewrite with wje; simpl; subst sc; autorewrite with wje; try done.
  - intros Hids.
    apply (ids_ok_write "func_exit" func (Some nm) (g_depth s) None s3).
    by apply (cal_ids_ok (activeLoops top) X).
  - destruct (close_active_loops_events (activeLoops top) X) as (new & Hev & Hsum).
    assert (HcX : can_write X = can_write s) by reflexivity. rewrite HcX in Hsum.
    change (events (TRACER_GUARD_EXIT (set_g_depth (g_depth s - 1)
              (write_json_event "func_exit" func (Some nm) (g_depth s) None s3))))
      with (events (write_json_event "func_exit" func (Some nm) (g_depth s) None s3)).
    rewrite wje_events, Hcw, He3, Hev.
    destruct (can_write s).
    + exists new, (event_of "func_exit" func (Some nm) (g_depth s) None s3).
      rewrite app_assoc. done.
    + apply fmap_nil_inv in Hsum as ->. by rewrite app_nil_r.
Qed.

Lemma func_exit_dropped func caller s :
  g_inside_tracer s = false → g_depth s ≤ 0 ∨ exit_name func = None →
  __cyg_profile_func_exit func caller s = s.
Proof.
  intros Hin H. unfold __cyg_profile_func_exit. enter_guard; [|done].
  simpl g_depth. destruct (Z.leb_spec (g_depth s) 0).
  - by apply guard_exit_enter.
  - destruct H as [?| ->]; [lia|]. by apply guard_exit_enter.
Qed.

(** The entry handler when it pushes a frame, in one expression: the frame
    and the event, then the two strings of the handler leave. *)
Lemma func_enter_accepted_eq func caller s nm :
  g_tracer_disabled s = false → g_inside_tracer s = false → g_depth s + 1 < 2048 →
  enter_name func = Some nm →
  __cyg_profile_func_enter func caller s =
  let fn := normalize_function_name (Some nm) in
  let s1 := take_buffer nm (set_g_depth (g_depth s + 1) (set_g_inside_tracer true s)) in
  release [string_buffer fn s1; string_buffer nm s]
    (TRACER_GUARD_EXIT
       (write_json_event "func_enter" func (Some nm) (g_depth s + 1)
          (Some [fld "caller" (JPtr caller)])
          (set_g_call_stack
             (g_call_stack s ++
              [{| functionName := fn; pointerAliases := ∅; activeLoops := [];
                  loopIterations := ∅ |}])
             (take_buffer fn
                (set_g_current_function fn
                   (set_g_tracked_functions ({[fn]} ∪ g_tracked_functions s) s1)))))).
Proof.
  intros Hdis Hin Hd Hnm. unfold __cyg_profile_func_enter.
  rewrite guard_enter_grant by done. cbv zeta. simpl g_depth.
  destruct (Z.leb_spec 2048 (g_depth s + 1)); [lia|]. rewrite Hnm.
  generalize (normalize_function_name (Some nm)). intros fn.
  autorewrite with wje. simpl. autorewrite with wje. simpl. reflexivity.
Qed.

Lemma func_enter_dropped func caller s :
  g_inside_tracer s = false → 2048 ≤ g_depth s + 1 ∨ enter_name func = None →
  __cyg_profile_func_enter func caller s = s.
Proof.
  intros Hin H. unfold __cyg_profile_func_enter. enter_guard; [|done].
  cbv zeta. simpl g_depth.
  assert (Hs : TRACER_GUARD_EXIT
                 (set_g_depth (g_depth s + 1 - 1)
                    (set_g_depth (g_depth s + 1) (set_g_inside_tracer true s))) = s).
  { destruct s; simpl in *. subst.
    unfold TRACER_GUARD_EXIT, set_g_depth, set_g_inside_tracer. simpl. f_equal. lia. }
  destruct (Z.leb_spec 2048 (g_depth s + 1)); [done|].
  destruct H as [?| ->]; [lia|done].
Qed.

Lemma Inv_func_enter func caller s :
  Inv s → Inv (__cyg_profile_func_enter func caller s).
Proof.
  intros I. destruct (TRACER_GUARD_ENTER s) eqn:G.
  2: { unfold __cyg_profile_func_enter. by rewrite G. }
  apply guard_enter_granted in G as (Hdis & Hin & _).
  destruct (Z.le_gt_cases 2048 (g_depth s + 1)) as [Hc|Hc].
  { rewrite func_enter_dropped; auto. }
  destruct (enter_name func) as [nm|] eqn:Hnm.
  2: { rewrite func_enter_dropped; auto. }
  rewrite (func_enter_accepted_eq _ _ _ nm) by (done || lia). cbv zeta.
  apply Inv_release, Inv_guard_exit.
  pose proof (inv_depth _ I) as Hd. pose proof (inv_stack _ I) as Hlen.
  generalize (normalize_function_name (Some nm)). intros fn.
  apply (Inv_after_write _ _ _ _ _ s); repeat (simpl; autorewrite with wje); try done.
  - lia.
  - rewrite length_app. simpl. lia.
  - apply loops_ok_snoc_stack. split.
    + destruct (bool_of_option (g_trace_file s)); [|apply I].
      apply loops_ok_deeper; [apply I|]. simpl. lia.
    + intros L. simpl. destruct (g_trace_file s) eqn:Hf; simpl.
      * rewrite open_loops_snoc. apply loop_step_enter; [simpl; lia|done].
      * by rewrite (inv_dormant _ I).
Qed.

Lemma Inv_func_exit func caller s :
  Inv s → Inv (__cyg_profile_func_exit func caller s).
Proof.
  intros I. destruct (TRACER_GUARD_ENTER s) eqn:G.
  2: { unfold __cyg_profile_func_exit. by rewrite G. }
  apply guard_enter_granted in G as (Hdis & Hin & _).
  destruct (Z.le_gt_cases (g_depth s) 0) as [Hc|Hc].
  { rewrite func_exit_dropped; auto. }
  destruct (exit_name func) as [nm|] eqn:Hnm.
  2: { rewrite func_exit_dropped; auto. }
  pose proof (inv_depth _ I) as Hd. pose proof (inv_stack _ I) as Hlen.
  destruct (back (g_call_stack s)) as [top|] eqn:Hb.
  2: { apply back_None in Hb. rewrite Hb in Hlen. simpl in Hlen. lia. }
  apply back_Some in Hb. set (v := pop_back (g_call_stack s)) in *.
  rewrite Hb, length_app in Hlen. simpl in Hlen.
  pose proof (inv_loops _ I) as Hl. rewrite Hb in Hl.
  apply loops_ok_snoc_stack in Hl as [Hlv Hlt].
  destruct (func_exit_accepted func caller s v top nm Hdis Hin Hc Hnm Hb)
    as (E1 & E2 & E3 & E4 & E5 & E6 & E7 & E8 & E9 & E10 & E11).
  set (s' := __cyg_profile_func_exit func caller s) in *.
  rewrite can_write_running in E11 by lia.
  split.
  - lia.
  - rewrite E1, E2. lia.
  - apply E10, I.
  - rewrite E5. intros Hf _. rewrite Hf in E11. simpl in E11. rewrite E11.
    by apply (inv_dormant _ I).
  - rewrite E2. destruct (bool_of_option (g_trace_file s)); [|by rewrite E11].
    destruct E11 as (new & e & -> & Hnew & He & _).
    apply synthetic_summary in Hnew as [Hnd _].
    rewrite app_assoc. apply loops_ok_deeper.
    + apply (loops_ok_deeper_list _ _ _ (g_depth s)); [done|lia|done].
    + injection He as _ _ ->. lia.
  - destruct (bool_of_option (g_trace_file s)); [|rewrite E11; apply I].
    destruct E11 as (new & e & -> & Hnew & He & _).
    pose proof (synthetic_summary _ _ _ Hnew) as [_ Hnx].
    rewrite app_assoc. apply exits_closed_snoc_exit.
    + apply exits_closed_app; [apply I|done].
    + intros L. injection He as _ _ ->.
      unfold synthetic_loop_ends in Hnew.
      rewrite (open_loops_loop_ends _ _ _ _ _ Hnew), count_id_rev.
      replace (g_depth s) with (Z.of_nat (length v) + 1) by lia. rewrite Hlt. lia.
Qed.

Lemma Inv_handle n s : Inv s → Inv (handle n s).
Proof.
  intros I. destruct n; simpl;
    try apply Inv_func_enter; try apply Inv_func_exit;
    try apply Inv_loop_start; try apply Inv_loop_end; try done;
    unfold_handlers; cbv beta; try enter_guard; try done; peel.
Qed.

(** ** What no handler changes *)

(** One rewrite database for each global: what the primitives leave of it. *)
Create Rewrite HintDb pj_trace_file.
Create Rewrite HintDb pj_depth.
Create Rewrite HintDb pj_inside.
Create Rewrite HintDb pj_disabled.
Create Rewrite HintDb pj_variable_values.
Create Rewrite HintDb pj_array_registry.
Create Rewrite HintDb pj_address_to_name.
Create Rewrite HintDb pj_array_element_values.
Create Rewrite HintDb pj_tracked_functions.
Create Rewrite HintDb pj_current_function.
Create Rewrite HintDb pj_pointer_registry.
Create Rewrite HintDb pj_call_stack.
Create Rewrite HintDb pj_trace_open.
Hint Rewrite wje_trace_file cal_trace_file fh_trace_file ah_trace_file tb_trace_file sd_trace_file rl_trace_file sn_trace_file : pj_trace_file.
Hint Rewrite wje_depth cal_depth fh_depth ah_depth tb_depth sd_depth rl_depth sn_depth : pj_depth.
Hint Rewrite wje_inside cal_inside fh_inside ah_inside tb_inside sd_inside rl_inside sn_inside : pj_inside.
Hint Rewrite wje_disabled cal_disabled fh_disabled ah_disabled tb_disabled sd_disabled rl_disabled sn_disabled : pj_disabled.
Hint Rewrite wje_variable_values cal_variable_values fh_variable_values ah_variable_values tb_variable_values sd_variable_values rl_variable_values sn_variable_values : pj_variable_values.
Hint Rewrite wje_array_registry cal_array_registry fh_array_registry ah_array_registry tb_array_registry sd_array_registry rl_array_registry sn_array_registry : pj_array_registry.
Hint Rewrite wje_address_to_name cal_address_to_name fh_address_to_name ah_address_to_name tb_address_to_name sd_address_to_name rl_address_to_name sn_address_to_name : pj_address_to_name.
Hint Rewrite wje_array_element_values cal_array_element_values fh_array_element_values ah_array_element_values tb_array_element_values sd_array_element_values rl_array_element_values sn_array_element_values : pj_array_element_values.
Hint Rewrite wje_tracked_functions cal_tracked_functions fh_tracked_functions ah_tracked_functions tb_tracked_functions sd_tracked_functions rl_tracked_functions sn_tracked_functions : pj_tracked_functions.
Hint Rewrite wje_current_function cal_current_function fh_current_function ah_current_function tb_current_function sd_current_function rl_current_function sn_current_function : pj_current_function.
Hint Rewrite wje_pointer_registry cal_pointer_registry fh_pointer_registry ah_pointer_registry tb_pointer_registry sd_pointer_registry rl_pointer_registry sn_pointer_registry : pj_pointer_registry.
Hint Rewrite wje_call_stack cal_call_stack fh_call_stack ah_call_stack tb_call_stack sd_call_stack rl_call_stack sn_call_stack : pj_call_stack.
Hint Rewrite wje_trace_open cal_trace_open fh_trace_open ah_trace_open tb_trace_open sd_trace_open rl_trace_open sn_trace_open : pj_trace_open.

Ltac pj_rewrite p :=
  lazymatch p with
  | g_trace_file => autorewrite with pj_trace_file
  | g_depth => autorewrite with pj_depth
  | g_inside_tracer => autorewrite with pj_inside
  | g_tracer_disabled => autorewrite with pj_disabled
  | g_variable_values => autorewrite with pj_variable_values
  | g_array_registry => autorewrite with pj_array_registry
  | g_address_to_name => autorewrite with pj_address_to_name
  | g_array_element_values => autorewrite with pj_array_element_values
  | g_tracked_functions => autorewrite with pj_tracked_functions
  | g_current_function => autorewrite with pj_current_function
  | g_pointer_registry => autorewrite with pj_pointer_registry
  | g_call_stack => autorewrite with pj_call_stack
  | trace_open => autorewrite with pj_trace_open
  end.

(** The global a goal is about. *)
Ltac pj_step :=
  lazymatch goal with
  | |- ?p _ = ?p _ => pj_rewrite p
  | |- dom (?p _) ⊆ _ => pj_rewrite p
  | |- ?p _ ⊆ ?p _ => pj_rewrite p
  | |- ?p _ < _ => pj_rewrite p
  end.

Ltac projection_of_handler :=
  unfold_handlers; cbv beta; try enter_guard; try reflexivity;
  repeat case_match; simplify_eq; simpl;
  repeat (progress (pj_step; simpl)); try reflexivity;
  try (unfold init_element; rewrite fold_left_preserves;
       [pj_step; reflexivity|];
       intros; repeat case_match; simpl; pj_step; reflexivity).

Lemma handle_disabled n s : g_tracer_disabled (handle n s) = g_tracer_disabled s.
Proof. destruct n; projection_of_handler. Qed.

Lemma handle_trace_file n s : g_trace_file (handle n s) = g_trace_file s.
Proof. destruct n; projection_of_handler. Qed.

Lemma handle_trace_open n s : trace_open (handle n s) = trace_open s.
Proof. destruct n; projection_of_handler. Qed.

(** A handler that sets the flag of the thread clears it again on each of
    its ways out. *)
Lemma handle_inside n s : g_inside_tracer (handle n s) = g_inside_tracer s.
Proof.
  destruct n; unfold_handlers; cbv beta; try enter_guard; try reflexivity;
    repeat case_match; simplify_eq; simpl;
    repeat (progress (pj_step; simpl));
    try reflexivity; try congruence.
  all: destruct (g_tracer_disabled s), (g_inside_tracer s); simpl in *; congruence.
Qed.

(** With the guard closed, a guarded handler returns at once. *)
Lemma guard_denied_noop n s :
  guarded n = true → TRACER_GUARD_ENTER s = None → handle n s = s.
Proof.
  intros Hg Hden. destruct n; try discriminate Hg; unfold_handlers; cbv beta;
    rewrite ?Hden; try reflexivity.
  all: apply guard_enter_denied in Hden as [-> | ->]; simpl; by rewrite ?orb_true_r.
Qed.

(** Without a file, [write_json_event] returns at once. *)
Lemma wje_dormant_view type addr func_name depth extra s :
  dormant_view (write_json_event type addr func_name depth extra s) = dormant_view s.
Proof.
  unfold dormant_view. rewrite wje_trace_file.
  destruct (g_trace_file s) eqn:Hf; [done|].
  rewrite wje_skip; [done|]. unfold can_write, no_trace_file. by rewrite Hf.
Qed.

Lemma guard_exit_dormant_view type addr func_name depth extra s :
  dormant_view (TRACER_GUARD_EXIT (write_json_event type addr func_name depth extra
                                     (set_g_inside_tracer true s))) = dormant_view s.
Proof.
  change (dormant_view (TRACER_GUARD_EXIT ?x)) with (dormant_view x).
  by rewrite wje_dormant_view.
Qed.

Lemma cal_dormant_view loops s :
  dormant_view (close_active_loops loops s) = dormant_view s.
Proof.
  unfold close_active_loops. apply fold_left_preserves. intros. apply wje_dormant_view.
Qed.

Lemma fh_dormant_view who ptr s : dormant_view (free_hook who ptr s) = dormant_view s.
Proof. rewrite free_hook_eq. case_match; [|done]. by rewrite guard_exit_dormant_view. Qed.

Lemma ah_dormant_view who size ptr s :
  dormant_view (alloc_hook who size ptr s) = dormant_view s.
Proof. rewrite alloc_hook_eq. case_match; [|done]. by rewrite guard_exit_dormant_view. Qed.

Lemma tb_dormant_view str s : dormant_view (take_buffer str s) = dormant_view s.
Proof. unfold take_buffer. by case_match. Qed.

Lemma rl_dormant_view bufs s : dormant_view (release bufs s) = dormant_view s.
Proof.
  unfold release. apply fold_left_preserves. intros x [p|]; [apply fh_dormant_view|done].
Qed.

Lemma sn_dormant_view str s : dormant_view (string_new str s) = dormant_view s.
Proof.
  unfold string_new. case_match; [|done].
  unfold operator_new. by rewrite ah_dormant_view, tb_dormant_view.
Qed.

Ltac dormant_view_peel :=
  repeat first
    [ reflexivity
    | rewrite wje_dormant_view
    | rewrite cal_dormant_view
    | rewrite rl_dormant_view
    | rewrite tb_dormant_view
    | rewrite sn_dormant_view
    | rewrite (fold_left_preserves _ dormant_view); [|intros ? ?]
    | match goal with
      | |- dormant_view (?f ?v ?x) = _ =>
          change (dormant_view (f v x)) with (dormant_view x)
      end
    | match goal with
      | |- dormant_view (?f ?x) = _ => change (dormant_view (f x)) with (dormant_view x)
      end
    | progress unfold init_element
    | progress cbv zeta
    | case_match; simplify_eq ].

Lemma handle_dormant_view n s : dormant_view (handle n s) = dormant_view s.
Proof.
  destruct n; unfold_handlers; cbv beta; try enter_guard; dormant_view_peel.
Qed.

Lemma handle_no_file n s :
  g_trace_file s = None →
  trace_out (handle n s) = trace_out s ∧ g_event_counter (handle n s) = g_event_counter s.
Proof.
  intros Hf. pose proof (handle_dormant_view n s) as H.
  unfold dormant_view in H. rewrite handle_trace_file, Hf in H.
  injection H as H1 H2. done.
Qed.

(** Once the tracer is disabled and has no file, every handler returns at
    once. *)
Lemma handle_shut n s :
  g_tracer_disabled s = true → g_trace_file s = None → handle n s = s.
Proof.
  intros Hdis Hf. destruct (guarded n) eqn:Hg.
  - apply guard_denied_noop; [done|]. apply guard_enter_denied. by left.
  - destruct n; try discriminate Hg. simpl. unfold trace_var_str_loc, no_trace_file.
    by rewrite Hf.
Qed.

Lemma run_shut ns s :
  g_tracer_disabled s = true → g_trace_file s = None → run ns s = s.
Proof.
  intros Hdis Hf. induction ns as [|n ns IH]; [done|].
  unfold run in *. simpl. by rewrite handle_shut.
Qed.

Lemma run_snoc ns n s : run (ns ++ [n]) s = handle n (run ns s).
Proof. unfold run. by rewrite fold_left_app. Qed.

Lemma run_invariant (P : TracerState → Prop) ns s :
  (∀ n s, P s → P (handle n s)) → P s → P (run ns s).
Proof.
  intros H. unfold run. apply (fold_left_invariant (fun s n => handle n s) P).
  intros x n. apply H.
Qed.

Lemma Inv_run ns s : Inv s → Inv (run ns s).
Proof. apply run_invariant. intros n x. apply Inv_handle. Qed.

Lemma run_disabled ns s : g_tracer_disabled (run ns s) = g_tracer_disabled s.
Proof. unfold run. apply fold_left_preserves. intros. apply handle_disabled. Qed.

Lemma run_trace_file ns s : g_trace_file (run ns s) = g_trace_file s.
Proof. unfold run. apply fold_left_preserves. intros. apply handle_trace_file. Qed.

Lemma run_trace_open ns s : trace_open (run ns s) = trace_open s.
Proof. unfold run. apply fold_left_preserves. intros. apply handle_trace_open. Qed.

Lemma run_inside ns s : g_inside_tracer (run ns s) = g_inside_tracer s.
Proof. unfold run. apply fold_left_preserves. intros. apply handle_inside. Qed.

Lemma run_dormant_view ns s : dormant_view (run ns s) = dormant_view s.
Proof. unfold run. apply fold_left_preserves. intros. apply handle_dormant_view. Qed.

(** ** Before and after [init_tracer] *)

Lemma before_init_initial : before_init initial_state.
Proof. by repeat split. Qed.

Lemma before_init_run ns s : before_init s → before_init (run ns s).
Proof.
  intros (Hf & Hdis & Hin & Ho & Hop & Hc).
  pose proof (run_dormant_view ns s) as Hv. unfold dormant_view in Hv.
  rewrite run_trace_file, Hf in Hv. injection Hv as Hv1 Hv2.
  unfold before_init.
  by rewrite run_trace_file, run_disabled, run_inside, run_trace_open, Hv1, Hv2.
Qed.

Lemma Inv_init_tracer trace_output fopen_ok s :
  before_init s → Inv s → Inv (init_tracer trace_output fopen_ok s).
Proof.
  intros (Hf & Hdis & Hin & Ho & Hop & Hc) I. unfold init_tracer.
  destruct (2048 <=? g_depth s); [done|]. destruct fopen_ok.
  - assert (He : events s = []) by (unfold events; by rewrite Ho).
    destruct I as [I1 I2 I3 I4 I5 I6]. rewrite He in *.
    split; simpl; try done.
  - destruct I as [I1 I2 I3 I4 I5 I6]. split; simpl; try done.
Qed.

Lemma Inv_session pre out ok body : Inv (session pre out ok body).
Proof.
  unfold session. apply Inv_run, Inv_init_tracer.
  - apply before_init_run, before_init_initial.
  - apply Inv_run, Inv_initial.
Qed.

(** ** Lemmas for the claims *)

Lemma init_tracer_runs trace_output fopen_ok s :
  g_depth s ≤ 2047 →
  init_tracer trace_output fopen_ok s =
  if fopen_ok then run_steps (init_steps (default "trace.json" trace_output)) s
  else set_g_tracer_disabled true (set_g_trace_file None s).
Proof.
  intros H. unfold init_tracer. by destruct (Z.leb_spec 2048 (g_depth s)); [lia|].
Qed.

(** The flags of a session: they are those [init_tracer] left. *)
Lemma session_lifecycle pre out ok body :
  let s := session pre out ok body in
  g_inside_tracer s = false ∧ g_tracer_disabled s = negb ok ∧
  g_trace_file s = (if ok then Some {| f_path := default "trace.json" out |} else None) ∧
  trace_open s = ok.
Proof.
  simpl. unfold session.
  rewrite run_inside, run_disabled, run_trace_file, run_trace_open.
  pose proof (before_init_run pre _ before_init_initial) as (Hf & Hdis & Hin & Ho & Hop & Hc).
  pose proof (inv_depth _ (Inv_run pre _ Inv_initial)) as Hd.
  rewrite init_tracer_runs by lia. by destruct ok.
Qed.

(** The depth of a session never leaves the range from 0 to 2047, and it is
    the number of frames on the stack. *)
Lemma session_depth pre out ok body :
  let s := session pre out ok body in
  0 ≤ g_depth s ≤ 2047 ∧ Z.of_nat (length (g_call_stack s)) = g_depth s.
Proof.
  simpl. split; [apply inv_depth | apply inv_stack]; apply Inv_session.
Qed.

Lemma running_guard s : running s → TRACER_GUARD_ENTER s = Some (set_g_inside_tracer true s).
Proof. intros (Hdis & Hin & _). by apply guard_enter_grant. Qed.

Lemma running_file s : running s → no_trace_file s = false.
Proof. intros (_ & _ & [f Hf] & _). unfold no_trace_file. by rewrite Hf. Qed.

Lemma running_can_write s : running s → can_write s = true.
Proof.
  intros R. unfold can_write. rewrite (running_file _ R). destruct R as (_ & _ & _ & Hd).
  by destruct (Z.leb_spec 2048 (g_depth s)); [lia|].
Qed.

Lemma counter_advances c : (c + 1) mod 2 ^ 64 ≠ c.
Proof.
  change (2 ^ 64) with 18446744073709551616.
  pose proof (Z.mod_pos_bound (c + 1) 18446744073709551616 eq_refl) as Hb.
  destruct (decide (0 ≤ c + 1 < 18446744073709551616)) as [Hs|Hs].
  - rewrite Z.mod_small by done. lia.
  - intros Heq. rewrite Heq in Hb.
    assert (c = 18446744073709551615) as -> by lia. by vm_compute in Heq.
Qed.

Lemma session_snoc pre out ok body n :
  session pre out ok (body ++ [n]) = handle n (session pre out ok body).
Proof. unfold session. apply run_snoc. Qed.

(** ** The strings of a handler on a running engine *)

Lemma running_hook_open s : running s → hook_open s = true.
Proof.
  intros (Hdis & Hin & _ & Hd). unfold hook_open. rewrite Hdis, Hin.
  by destruct (Z.leb_spec 2048 (g_depth s)); [lia|].
Qed.

Lemma running_ext s s' :
  g_tracer_disabled s' = g_tracer_disabled s → g_inside_tracer s' = g_inside_tracer s →
  g_trace_file s' = g_trace_file s → g_depth s' = g_depth s →
  running s → running s'.
Proof. unfold running. by intros -> -> -> ->. Qed.

Lemma can_write_ext x s :
  g_trace_file x = g_trace_file s → g_depth x = g_depth s → can_write x = can_write s.
Proof. unfold can_write, no_trace_file. by intros -> ->. Qed.

Lemma running_guard_exit s x :
  running s → g_tracer_disabled x = g_tracer_disabled s →
  g_trace_file x = g_trace_file s → g_depth x = g_depth s →
  running (TRACER_GUARD_EXIT x).
Proof. unfold running. simpl. intros (? & ? & ? & ?) -> -> ->. done. Qed.

Lemma running_release bufs s : running s → running (release bufs s).
Proof. apply running_ext; by autorewrite with wje. Qed.

Lemma running_take_buffer str s : running s → running (take_buffer str s).
Proof. apply running_ext; by autorewrite with wje. Qed.

Lemma counter_plus c (n : nat) :
  ((c + Z.of_nat n) mod 2 ^ 64 + 1) mod 2 ^ 64 = (c + Z.of_nat (S n)) mod 2 ^ 64.
Proof. rewrite Zplus_mod_idemp_l. f_equal. lia. Qed.

(** One string that leaves on a running engine: one [heap_free] event,
    when the string has a buffer. *)
Lemma string_delete_running buf s :
  running s → buf ≠ Some 0 →
  running (string_delete buf s) ∧
  events (string_delete buf s) =
    events s ++ match buf with
                | Some p => [event_of "heap_free" p (Some "operator delete") (g_depth s) None s]
                | None => []
                end ∧
  g_event_counter (string_delete buf s) =
    match buf with
    | Some _ => (g_event_counter s + 1) mod 2 ^ 64
    | None => g_event_counter s
    end.
Proof.
  intros R Hp. pose proof (running_hook_open _ R) as Ho.
  pose proof (running_can_write _ R) as Hw.
  split; [apply running_ext with s; try done; by autorewrite with wje|].
  destruct buf as [p|]; [|by rewrite app_nil_r].
  rewrite string_delete_eq, free_hook_eq, Ho.
  destruct R as (_ & _ & [f Hf] & _). rewrite Hf.
  destruct (Z.eqb_spec p 0) as [->|_]; [done|]. simpl.
  change (events (TRACER_GUARD_EXIT ?x)) with (events x).
  rewrite wje_events, wje_event_counter.
  change (can_write (set_g_inside_tracer true s)) with (can_write s). by rewrite Hw.
Qed.

(** The strings of a handler leaving on a running engine: one [heap_free]
    event for each buffer, in the order the strings are destroyed, at the
    depth of the engine, the counter advancing by one for each. *)
Lemma release_running bufs s :
  running s → Forall (fun buf => buf ≠ Some 0) bufs →
  ∃ frees, events (release bufs s) = events s ++ frees ∧
           Forall own_free frees ∧
           Forall (fun e => ev_depth e = g_depth s) frees ∧
           ev_addr <$> frees = omap id bufs ∧
           (0 ≤ g_event_counter s < 2 ^ 64 →
            g_event_counter (release bufs s) =
              (g_event_counter s + Z.of_nat (length frees)) mod 2 ^ 64 ∧
            ev_id <$> frees =
              (fun i => (g_event_counter s + i) mod 2 ^ 64) <$>
                seqZ 0 (Z.of_nat (length frees))).
Proof.
  intros R Hb. revert s R. induction Hb as [|buf bufs Hp _ IH]; intros s R.
  - exists []. rewrite app_nil_r. split_and!; try done.
    simpl. intros ?. by rewrite Z.add_0_r, Z.mod_small.
  - rewrite release_cons.
    destruct (string_delete_running buf s R Hp) as (R1 & He1 & Hc1).
    destruct (IH _ R1) as (frees & He & Hf & Hd & Ha & Hi).
    rewrite sd_depth in Hd. destruct buf as [p|].
    + eexists (_ :: frees). rewrite He, He1, <- app_assoc. split_and!; try done.
      * by constructor.
      * by constructor.
      * rewrite fmap_cons, Ha. reflexivity.
      * intros Hr. destruct Hi as [Hc Hi]; [rewrite Hc1; by apply Z.mod_pos_bound|].
        split.
        -- rewrite Hc, Hc1. simpl length. rewrite Nat2Z.inj_succ, Zplus_mod_idemp_l.
           f_equal. lia.
        -- simpl length. rewrite Nat2Z.inj_succ, seqZ_cons by lia.
           rewrite !fmap_cons. simpl ev_id. rewrite Z.add_0_r, Z.mod_small by done. f_equal.
           rewrite Hi, Hc1.
           replace (Z.succ 0) with (1 + 0) by lia. rewrite Z.pred_succ.
           rewrite <- (fmap_add_seqZ 1 0), <- list_fmap_compose.
           apply list_fmap_ext. intros _ i _. simpl.
           rewrite Zplus_mod_idemp_l. f_equal. lia.
    + exists frees. rewrite He, He1, app_nil_r. done.
Qed.

Lemma string_buffer_nonzero str s : string_buffer str s ≠ Some 0.
Proof. unfold string_buffer. by destruct (on_heap str). Qed.

Lemma string_buffer_length str s bufs :
  length (omap id (string_buffer str s :: bufs)) =
  ((if on_heap str then 1 else 0) + length (omap id bufs))%nat.
Proof. unfold string_buffer. by destruct (on_heap str). Qed.

Lemma buffers_of_bufs str s bufs strs :
  length (omap id bufs) = buffers strs →
  length (omap id (string_buffer str s :: bufs)) = buffers (str :: strs).
Proof. intros H. rewrite string_buffer_length, H. reflexivity. Qed.

(** The way out of a handler on a running engine: the flag is cleared,
    then the strings [strs] of the handler die. *)
Lemma handler_epilogue s core bufs strs :
  running s →
  g_tracer_disabled core = g_tracer_disabled s →
  g_trace_file core = g_trace_file s → g_depth core = g_depth s →
  Forall (fun buf => buf ≠ Some 0) bufs → length (omap id bufs) = buffers strs →
  let s' := release bufs (TRACER_GUARD_EXIT core) in
  running s' ∧
  ∃ frees, events s' = events core ++ frees ∧ frees_of strs frees ∧
           Forall (fun e => ev_depth e = g_depth s) frees ∧
           (0 ≤ g_event_counter core < 2 ^ 64 →
            g_event_counter s' =
              (g_event_counter core + Z.of_nat (length frees)) mod 2 ^ 64).
Proof.
  intros R Hdis Hf Hd Hb Hl. cbv zeta.
  assert (Rc : running (TRACER_GUARD_EXIT core)) by by apply (running_guard_exit s).
  split; [exact (running_release _ _ Rc)|].
  destruct (release_running bufs _ Rc Hb) as (frees & He & Hfr & Hdp & Ha & Hi).
  exists frees. split_and!; try done.
  - split; [done|]. by rewrite <- (length_fmap ev_addr), Ha.
  - simpl in Hdp. by rewrite Hd in Hdp.
  - intros Hr. by destruct (Hi Hr).
Qed.

Ltac buffers_of :=
  repeat first [ apply buffers_of_bufs | reflexivity ].



Ltac string_buffers :=
  repeat first [ apply Forall_nil_2
               | apply Forall_cons_2; [apply string_buffer_nonzero|] ].

(** An entry that is accepted pushes one frame, raises the depth by one and
    stamps its event with the new depth; then its two strings leave, the
    name of the frame first.  The exit that is accepted next stamps its
    event with that same depth and lowers it by one. *)
Lemma func_enter_accepted func caller s nm :
  g_tracer_disabled s = false → g_inside_tracer s = false → g_depth s + 1 < 2048 →
  enter_name func = Some nm →
  let s' := __cyg_profile_func_enter func caller s in
  let fn := normalize_function_name (Some nm) in
  g_depth s' = g_depth s + 1 ∧
  g_call_stack s' = g_call_stack s ++
    [{| functionName := fn; pointerAliases := ∅; activeLoops := []; loopIterations := ∅ |}] ∧
  g_inside_tracer s' = false ∧ g_tracer_disabled s' = false ∧
  g_trace_file s' = g_trace_file s ∧
  g_pointer_registry s' = g_pointer_registry s ∧
  g_address_to_name s' = g_address_to_name s ∧
  g_current_function s' = fn ∧
  if bool_of_option (g_trace_file s)
  then ∃ frees, events s' =
                  events s ++ event_of "func_enter" func (Some nm) (g_depth s + 1)
                                (Some [fld "caller" (JPtr caller)]) s :: frees ∧
                Forall own_free frees ∧ length frees = buffers [fn; nm] ∧
                Forall (fun e => ev_depth e = g_depth s + 1) frees
  else events s' = events s.
Proof.
  intros Hdis Hin Hd Hnm. cbv zeta.
  rewrite (func_enter_accepted_eq _ _ _ nm) by done. cbv zeta.
  generalize (normalize_function_name (Some nm)). intros fn.
  split_and!; repeat (simpl; autorewrite with wje); try done.
  match goal with |- context [release ?l (TRACER_GUARD_EXIT ?x)] =>
    set (bufs := l); set (core := x) end.
  assert (Hcore : events core =
                  if bool_of_option (g_trace_file s)
                  then events s ++ [event_of "func_enter" func (Some nm) (g_depth s + 1)
                                      (Some [fld "caller" (JPtr caller)]) s]
                  else events s).
  { subst core. rewrite wje_events, can_write_running
      by (repeat (simpl; autorewrite with wje); lia).
    unfold events, event_of. repeat (simpl; autorewrite with wje). done. }
  destruct (g_trace_file s) as [f|] eqn:Hf; simpl in *.
  - assert (R : running (TRACER_GUARD_EXIT core)).
    { unfold running. subst core. repeat (simpl; autorewrite with wje).
      rewrite ?Hf. split_and!; try done; lia. }
    destruct (release_running bufs _ R) as (frees & He & Hfr & Hdp & Ha & _);
      [subst bufs; string_buffers|].
    exists frees. rewrite He. change (events (TRACER_GUARD_EXIT core)) with (events core).
    rewrite Hcore, <- app_assoc. split_and!; try done.
    + rewrite <- (length_fmap ev_addr), Ha. subst bufs.
      rewrite !string_buffer_length. simpl. lia.
    + revert Hdp. subst core. by repeat (simpl; autorewrite with wje).
  - rewrite release_closed_file; [exact Hcore|]. subst core.
    by repeat (simpl; autorewrite with wje).
Qed.

(** ** Pointer lookup *)

Lemma find_in_frames_top p top v info :
  pointerAliases top !! p = Some info →
  find_in_frames p (rev (v ++ [top])) = Some info.
Proof. intros H. rewrite rev_unit. simpl. by rewrite H. Qed.

Lemma find_in_frames_outward p top v :
  pointerAliases top !! p = None →
  find_in_frames p (rev (v ++ [top])) = find_in_frames p (rev v).
Proof. intros H. rewrite rev_unit. simpl. by rewrite H. Qed.

Lemma find_in_frames_none p frames :
  Forall (fun fr => pointerAliases fr !! p = None) frames →
  find_in_frames p (rev frames) = None.
Proof.
  induction frames as [|fr frames IH] using rev_ind; [done|].
  intros H. apply Forall_app in H as [Hfr Htop]. apply Forall_inv in Htop.
  rewrite (find_in_frames_outward p fr frames Htop). by apply IH.
Qed.

(** The innermost frame wins, whatever the frames below it and the
    registry hold; a frame without the name passes the search on. *)
Lemma findPointerInfo_innermost p info v top s :
  g_call_stack s = v ++ [top] → pointerAliases top !! p = Some info →
  findPointerInfo p s = Some info.
Proof.
  intros Hst H. unfold findPointerInfo. by rewrite Hst, (find_in_frames_top _ _ _ info).
Qed.

Lemma findPointerInfo_outward p v top s :
  g_call_stack s = v ++ [top] → pointerAliases top !! p = None →
  findPointerInfo p s = findPointerInfo p (set_g_call_stack v s).
Proof.
  intros Hst H. unfold findPointerInfo. simpl. by rewrite Hst, find_in_frames_outward.
Qed.

Lemma findPointerInfo_registry p s :
  Forall (fun fr => pointerAliases fr !! p = None) (g_call_stack s) →
  findPointerInfo p s = g_pointer_registry s !! p.
Proof. intros H. unfold findPointerInfo. by rewrite find_in_frames_none. Qed.

(** The event a dereferencing write reports first carries the address the
    pointer resolves to. *)
Lemma pointer_deref_write_running p value file line s :
  running s →
  let s' := __trace_pointer_deref_write_loc p value file line s in
  running s' ∧ g_call_stack s' = g_call_stack s ∧
  g_pointer_registry s' = g_pointer_registry s ∧ g_depth s' = g_depth s ∧
  ∃ e rest, events s' = events s ++ e :: rest ∧ ev_type e = "pointer_deref_write" ∧
            ev_addr e = match findPointerInfo p s with
                        | Some pinfo => aliasedAddress pinfo
                        | None => 0
                        end.
Proof.
  intros R. cbv zeta. unfold __trace_pointer_deref_write_loc.
  rewrite (running_guard _ R).
  change (no_trace_file (set_g_inside_tracer true s)) with (no_trace_file s).
  rewrite (running_file _ R). cbv zeta. rewrite tb_findPointerInfo.
  change (findPointerInfo p (set_g_inside_tracer true s)) with (findPointerInfo p s).
  assert (Hn : no_trace_file (set_g_inside_tracer true s) = false)
    by exact (running_file _ R).
  assert (Hd : (2048 <=? g_depth s) = false)
    by (destruct R as (_ & _ & _ & ?); by apply Z.leb_gt).
  set (tgt := match findPointerInfo p s with
              | Some pinfo => aliasedAddress pinfo
              | None => 0
              end).
  destruct (findPointerInfo p s) as [pinfo|]; cbv beta iota zeta;
    [destruct (isHeap pinfo)|].
  all: match goal with |- context [release ?l (TRACER_GUARD_EXIT ?x)] =>
         set (bufs := l); set (core := x) end.
  all: assert (Rc : running (TRACER_GUARD_EXIT core))
         by (apply (running_guard_exit s); [done|subst core..];
             by repeat (simpl; autorewrite with wje)).
  all: destruct (release_running bufs _ Rc) as (frees & He & _); [subst bufs; string_buffers|].
  all: split_and!;
         [exact (running_release _ _ Rc)
         |subst core; by repeat (simpl; autorewrite with wje)..
         |].
  all: rewrite He; change (events (TRACER_GUARD_EXIT core)) with (events core); subst core.
  all: rewrite !wje_events; unfold can_write, events, event_of;
         repeat (simpl; autorewrite with wje).
  all: rewrite ?Hn, ?Hd; simpl; fold (events s).
  all: rewrite <- ?app_assoc; simpl; eexists _, _; split; [reflexivity|]; done.
Qed.

Lemma find_in_frames_next p u mid w info :
  pointerAliases mid !! p = Some info →
  Forall (fun fr => pointerAliases fr !! p = None) w →
  find_in_frames p (rev (u ++ mid :: w)) = Some info.
Proof.
  intros Hmid Hw. induction w as [|x w IH] using rev_ind.
  - by apply find_in_frames_top.
  - apply Forall_app in Hw as [Hw Hx]. apply Forall_inv in Hx.
    rewrite app_comm_cons, app_assoc, find_in_frames_outward by done. by apply IH.
Qed.

Lemma counter_advances_by c j : 0 < j < 2 ^ 64 → (c + j) mod 2 ^ 64 ≠ c.
Proof.
  change (2 ^ 64) with 18446744073709551616. intros Hj Heq.
  pose proof (Z.mod_pos_bound (c + j) 18446744073709551616 eq_refl) as Hb.
  rewrite Heq in Hb.
  destruct (decide (c + j < 18446744073709551616)) as [Hs|Hs].
  - rewrite Z.mod_small in Heq by lia. lia.
  - replace (c + j) with (c + j - 18446744073709551616 + 1 * 18446744073709551616) in Heq
      by lia.
    rewrite Z_mod_plus_full, Z.mod_small in Heq by lia. lia.
Qed.

(** A handler on a running engine, up to the point where its strings
    leave. *)
Ltac on_running R :=
  rewrite (running_guard _ R);
  match goal with
  | |- context [no_trace_file (set_g_inside_tracer true ?x)] =>
      change (no_trace_file (set_g_inside_tracer true x)) with (no_trace_file x)
  end;
  rewrite (running_file _ R); cbv zeta.

Ltac name_core bufs core :=
  match goal with
  | |- context [release ?l (TRACER_GUARD_EXIT ?x)] => set (bufs := l); set (core := x)
  end.

Ltac norm_state := repeat (simpl; autorewrite with wje).

(** One write to an array element on a running engine. *)
Lemma array_index_assign_running name i1 i2 i3 value file line s :
  running s →
  let s' := __trace_array_index_assign_loc name i1 i2 i3 value file line s in
  running s' ∧
  g_array_element_values s' =
    <[{| arrayName := name; idx1 := i1; idx2 := i2; idx3 := i3 |} := value]>
      (g_array_element_values s) ∧
  ∃ e frees, events s' = events s ++ e :: frees ∧
             ev_type e = "array_index_assign" ∧ ev_id e = g_event_counter s ∧
             Forall own_free frees ∧
             length frees = buffers [json_safe_path file; name] ∧
             g_event_counter s' =
               (g_event_counter s + 1 + Z.of_nat (length frees)) mod 2 ^ 64.
Proof.
  intros R. cbv zeta. unfold __trace_array_index_assign_loc. on_running R.
  name_core bufs core.
  assert (Hw : can_write s = true) by exact (running_can_write _ R).
  assert (Rc : running (TRACER_GUARD_EXIT core))
    by (apply (running_guard_exit s); [done|subst core..]; by norm_state).
  assert (Hev : events core = events s ++ [event_of "array_index_assign" 0
                  (Some (g_current_function s)) (g_depth s)
                  (Some [fld "name" (JStr name);
                         fld "indices" (JInts (if 0 <=? i3 then [i1; i2; i3]
                                               else if 0 <=? i2 then [i1; i2] else [i1]));
                         fld "value" (JInt value); fld "file" (JStr (json_safe_path file));
                         fld "line" (JInt line)]) s]).
  { subst core. rewrite wje_events, (can_write_ext _ s), Hw by (by norm_state).
    unfold events, event_of. by norm_state. }
  assert (Hc : g_event_counter core = (g_event_counter s + 1) mod 2 ^ 64).
  { subst core. rewrite wje_event_counter, (can_write_ext _ s), Hw by (by norm_state).
    by norm_state. }
  destruct (release_running bufs _ Rc) as (frees & He & Hf & _ & Ha & Hi);
    [subst bufs; string_buffers|].
  destruct Hi as [Hi _].
  { change (g_event_counter (TRACER_GUARD_EXIT core)) with (g_event_counter core).
    rewrite Hc. by apply Z.mod_pos_bound. }
  split_and!.
  - exact (running_release _ _ Rc).
  - subst core. by norm_state.
  - eexists _, frees. rewrite He.
    change (events (TRACER_GUARD_EXIT core)) with (events core).
    rewrite Hev, <- app_assoc. split_and!; try done.
    + rewrite <- (length_fmap ev_addr), Ha. subst bufs.
      rewrite !string_buffer_length. simpl. lia.
    + rewrite Hi. change (g_event_counter (TRACER_GUARD_EXIT core)) with (g_event_counter core).
      rewrite Hc, Zplus_mod_idemp_l. done.
Qed.

(** [trace_var_str_loc] with the guard closed: the hooks stay silent, the
    event is written. *)
Lemma trace_var_str_loc_closed name value file line s :
  TRACER_GUARD_ENTER s = None → no_trace_file s = false →
  trace_var_str_loc name value file line s =
  write_json_event "var" 0 (Some name) (g_depth s)
    (Some [fld "name" (JStr name); fld "value" (JStr (escape_value value));
           fld "type" (JStr "string");
           fld "file" (JStr (json_safe_path file)); fld "line" (JInt line)])
    (take_buffer (json_safe_path file) s).
Proof.
  intros Hg Hn. unfold trace_var_str_loc. rewrite Hn. cbv zeta.
  rewrite string_new_closed by (by apply hook_closed_guard).
  rewrite tb_depth. apply release_closed.
  unfold hook_open. autorewrite with wje. by apply hook_closed_guard.
Qed.

(** * The claims *)

(** C1, where the code departs from it.  [trace_var_str_loc] does not
    look at the guard: in a state whose guard is closed (the tracer disabled,
    or the thread already inside the tracer) but whose file is open, it
    writes a [var] event and advances the counter, where the guarded
    [trace_var_int_loc] returns without any effect. *)
Theorem trace_var_str_loc_unguarded name value ivalue file line s :
  TRACER_GUARD_ENTER s = None → can_write s = true →
  let s' := trace_var_str_loc name value file line s in
  trace_var_int_loc name ivalue file line s = s ∧
  g_event_counter s' = (g_event_counter s + 1) mod 2 ^ 64 ∧
  ∃ e, events s' = events s ++ [e] ∧ ev_type e = "var" ∧ ev_id e = g_event_counter s.
Proof.
  intros Hg Hw. cbv zeta.
  assert (Hn : no_trace_file s = false).
  { unfold can_write in Hw. apply negb_true_iff, orb_false_iff in Hw. apply Hw. }
  rewrite (trace_var_str_loc_closed _ _ _ _ _ Hg Hn). split; [|split].
  - unfold trace_var_int_loc. by rewrite Hg.
  - by rewrite wje_event_counter, tb_can_write, Hw, tb_event_counter.
  - rewrite wje_events, tb_can_write, Hw, tb_events. eexists. split; [reflexivity|].
    unfold event_of. simpl. by rewrite tb_event_counter.
Qed.

(** C2, where the code departs from it.  At depth 2047 a function entry
    is refused and leaves the state as it is; the exit of that same function
    then finds the depth positive, pops the frame of the enclosing
    activation and lowers the depth to 2046: it is not a no-op. *)
Theorem func_exit_after_refused_enter func caller s v top nm :
  g_tracer_disabled s = false → g_inside_tracer s = false →
  g_depth s = 2047 → g_call_stack s = v ++ [top] → exit_name func = Some nm →
  let s1 := __cyg_profile_func_enter func caller s in
  let s2 := __cyg_profile_func_exit func caller s1 in
  s1 = s ∧ g_depth s2 = 2046 ∧ g_call_stack s2 = v ∧ s2 ≠ s1.
Proof.
  intros Hdis Hin Hd Hst Hnm. simpl.
  rewrite func_enter_dropped by (done || lia).
  destruct (func_exit_accepted func caller s v top nm) as (E1 & E2 & _); try done; [lia|].
  split_and!; try done.
  - rewrite E1. lia.
  - intros Heq. rewrite Heq in E1. lia.
Qed.

(** C3.  After [finish_tracer] has run at the end of a session, every
    further notification leaves the state as it is: the file is not opened
    again, the event counter and the registries keep their values, and the
    handler returns.  [finish_tracer] itself ends with the disabled flag set,
    the file closed and its handle null; of its statements, none writes to
    the file before the flag is set, and the handle is not cleared before the
    file is closed. *)
Theorem finish_tracer_shuts_down pre out ok body post :
  let s := finish_tracer (session pre out ok body) in
  g_tracer_disabled s = true ∧ g_trace_file s = None ∧ trace_open s = false ∧
  g_inside_tracer s = false ∧
  run post s = s ∧
  ∀ (k : nat) x,
    let sk := run_steps (take k finish_steps) x in
    (g_tracer_disabled sk = true ∨ trace_out sk = trace_out x) ∧
    (trace_open sk = false ∨ g_trace_file sk = g_trace_file x).
Proof.
  simpl.
  pose proof (session_lifecycle pre out ok body) as (Hin & Hdis & Hf & Hop).
  pose proof (inv_depth _ (Inv_session pre out ok body)) as Hd.
  set (s0 := session pre out ok body) in *.
  assert (H : g_tracer_disabled (finish_tracer s0) = true ∧
              g_trace_file (finish_tracer s0) = None ∧
              trace_open (finish_tracer s0) = false ∧
              g_inside_tracer (finish_tracer s0) = false).
  { unfold finish_tracer, TRACER_GUARD_ENTER. rewrite Hdis, Hin.
    destruct ok; simpl; [|done].
    destruct (Z.leb_spec 2048 (g_depth s0)); [lia|].
    unfold no_trace_file. simpl. by rewrite Hf. }
  destruct H as (H1 & H2 & H3 & H4). split_and!; try done.
  - by apply run_shut.
  - intros k x. do 5 (destruct k as [|k]; [simpl; auto|]). simpl. auto.
Qed.

(** C4 (as amended).  Before [init_tracer] has run the disabled flag is
    clear, but there is no file: whatever notifications arrive, nothing is
    written and the event counter stays 0.  When the file cannot be opened
    [init_tracer] sets the flag and leaves the handle null, and from then on
    every notification, and [finish_tracer] too, leaves the state as it is.
    When the file is opened [init_tracer] stores the handle, clears the flag
    and writes the header; of its statements, none touches the flag before
    the file is open, and the header is not written before the flag is
    clear. *)
Theorem init_tracer_gate pre out body :
  let s0 := run pre initial_state in
  (g_tracer_disabled s0 = false ∧ g_trace_file s0 = None ∧
   trace_out s0 = [] ∧ g_event_counter s0 = 0) ∧
  (let sf := init_tracer out false s0 in
   g_tracer_disabled sf = true ∧ g_trace_file sf = None ∧ trace_out sf = [] ∧
   run body sf = sf ∧ finish_tracer sf = sf) ∧
  (let sk := init_tracer out true s0 in
   g_tracer_disabled sk = false ∧
   g_trace_file sk = Some {| f_path := default "trace.json" out |} ∧
   trace_open sk = true ∧ trace_out sk = [Header]) ∧
  ∀ (k : nat) path x,
    let sk := run_steps (take k (init_steps path)) x in
    (g_tracer_disabled sk = g_tracer_disabled x ∨
     g_trace_file sk = Some {| f_path := path |}) ∧
    (g_tracer_disabled sk = false ∨ trace_out sk = trace_out x ∨ trace_out sk = []).
Proof.
  simpl.
  pose proof (before_init_run pre _ before_init_initial) as (Hf & Hdis & Hin & Ho & Hop & Hc).
  pose proof (inv_depth _ (Inv_run pre _ Inv_initial)) as Hd.
  rewrite !init_tracer_runs by lia. split; [done|]. split; [|split].
  - simpl. split_and!; try done. by apply run_shut.
  - simpl. done.
  - intros k path x. do 4 (destruct k as [|k]; [simpl; auto|]). simpl. auto.
Qed.

(** C5.  In every session the events written to the file carry the ids
    0, 1, 2, ... in the order they were written, and the counter is the
    number of events written (as long as fewer than [2^64] events were
    written, the range of the counter). *)
Theorem event_ids_sequential pre out ok body :
  let s := session pre out ok body in
  Z.of_nat (length (events s)) < 2 ^ 64 →
  ev_id <$> events s = seqZ 0 (Z.of_nat (length (events s))) ∧
  g_event_counter s = Z.of_nat (length (events s)).
Proof.
  simpl. intros Hlen.
  destruct (inv_ids _ (Inv_session pre out ok body)) as [Hc Hi]. split.
  - apply list_eq. intros i. rewrite list_lookup_fmap.
    destruct (events (session pre out ok body) !! i) as [e|] eqn:He; simpl.
    + pose proof (lookup_lt_Some _ _ _ He) as Hlt.
      rewrite lookup_seqZ_lt by lia. rewrite (Hi _ _ He).
      by rewrite Z.mod_small by lia.
    + apply lookup_ge_None in He. rewrite lookup_seqZ_ge by lia. done.
  - rewrite Hc. apply Z.mod_small. lia.
Qed.

(** C6.  In a session whose file is open, the exit handler on a frame
    [top] writes one [loop_end] event for each loop still in the
    [activeLoops] of [top], the innermost (last started) first, then pops the
    frame and writes the [func_exit] event.  As a consequence, wherever a
    [func_exit] event stands in the log of a session, every [loop_start]
    with an id [L] of the activation it ends is followed by a [loop_end]
    with that id before it: no loop of the activation is open there. *)
Theorem loops_closed_at_func_exit pre out body func caller v top nm :
  let s := session pre out true body in
  let s' := __cyg_profile_func_exit func caller s in
  g_call_stack s = v ++ [top] → exit_name func = Some nm →
  (∃ new e, events s' = events s ++ new ++ [e] ∧
            event_summary <$> new = synthetic_loop_ends (activeLoops top) (g_depth s) ∧
            event_summary e = ("func_exit", None, g_depth s)) ∧
  g_call_stack s' = v ∧
  ∀ before e after L, events s' = before ++ e :: after →
    ev_type e = "func_exit" → open_loops (ev_depth e) L before = 0%nat.
Proof.
  simpl. intros Hst Hnm.
  pose proof (session_lifecycle pre out true body) as (Hin & Hdis & Hf & Hop).
  pose proof (Inv_session pre out true body) as I.
  pose proof (inv_depth _ I) as Hd. pose proof (inv_stack _ I) as Hlen.
  set (s := session pre out true body) in *.
  rewrite Hst, length_app in Hlen. simpl in Hlen.
  destruct (func_exit_accepted func caller s v top nm)
    as (_ & E2 & _ & _ & _ & _ & _ & _ & _ & _ & E11); try done; [lia|].
  rewrite can_write_running, Hf in E11 by lia. simpl in E11.
  destruct E11 as (new & e & He & Hnew & Hsum & _).
  split_and!; [by exists new, e|done|].
  change (__cyg_profile_func_exit func caller s) with (handle (FuncExit func caller) s).
  subst s. rewrite <- session_snoc. apply inv_exits, Inv_session.
Qed.

(** C7.  [findPointerInfo] looks through the frames from the innermost
    outward and only then in the process-wide registry.  With [p] mapped to
    [infoA] in the registry and to [infoB] in the innermost frame, the lookup
    gives [infoB] whatever the frames below hold, and a dereferencing write
    to [p] reports the address of [infoB] while the frame is on the stack.
    Once the exit handler has popped the frame, the lookup gives what the
    innermost of the remaining frames that know [p] holds, and [infoA] of the
    registry when none of them knows [p]; the dereferencing write reports
    that address. *)
Theorem pointer_lookup_shadowing p infoA infoB v top func caller nm value file line s :
  running s → 0 < g_depth s →
  g_call_stack s = v ++ [top] →
  pointerAliases top !! p = Some infoB →
  g_pointer_registry s !! p = Some infoA →
  exit_name func = Some nm →
  let s1 := __trace_pointer_deref_write_loc p value file line s in
  let s2 := __cyg_profile_func_exit func caller s1 in
  let s3 := __trace_pointer_deref_write_loc p value file line s2 in
  findPointerInfo p s = Some infoB ∧
  (∃ e rest, events s1 = events s ++ e :: rest ∧ ev_type e = "pointer_deref_write" ∧
             ev_addr e = aliasedAddress infoB) ∧
  g_call_stack s2 = v ∧
  (∀ u mid w infoC,
     v = u ++ mid :: w → pointerAliases mid !! p = Some infoC →
     Forall (fun fr => pointerAliases fr !! p = None) w →
     findPointerInfo p s2 = Some infoC ∧
     ∃ e rest, events s3 = events s2 ++ e :: rest ∧ ev_type e = "pointer_deref_write" ∧
               ev_addr e = aliasedAddress infoC) ∧
  (Forall (fun fr => pointerAliases fr !! p = None) v →
   findPointerInfo p s2 = Some infoA ∧
   ∃ e rest, events s3 = events s2 ++ e :: rest ∧ ev_type e = "pointer_deref_write" ∧
             ev_addr e = aliasedAddress infoA).
Proof.
  intros R Hd Hst Htop Hreg Hnm. cbv zeta.
  assert (HB : findPointerInfo p s = Some infoB).
  { unfold findPointerInfo. by rewrite Hst, (find_in_frames_top _ _ _ infoB). }
  destruct (pointer_deref_write_running p value file line s R)
    as (R1 & Hst1 & Hreg1 & Hd1 & e1 & rest1 & He1 & Hty1 & Ha1).
  set (s1 := __trace_pointer_deref_write_loc p value file line s) in *.
  destruct R1 as (R11 & R12 & R13 & R14).
  destruct (func_exit_accepted func caller s1 v top nm)
    as (E1 & E2 & E3 & E4 & E5 & _ & E7 & _); try done; [lia|congruence|].
  set (s2 := __cyg_profile_func_exit func caller s1) in *.
  assert (R2 : running s2).
  { unfold running. rewrite E3, E4, E5, E1. split_and!; try done. lia. }
  destruct (pointer_deref_write_running p value file line s2 R2)
    as (_ & _ & _ & _ & e3 & rest3 & He3 & Hty3 & Ha3).
  rewrite HB in Ha1. split_and!; try done.
  - by exists e1, rest1.
  - intros u mid w infoC Hv Hmid Hw.
    assert (HC : findPointerInfo p s2 = Some infoC).
    { unfold findPointerInfo. by rewrite E2, Hv, (find_in_frames_next _ _ _ _ infoC). }
    rewrite HC in Ha3. split; [done|]. by exists e3, rest3.
  - intros Hv.
    assert (HA : findPointerInfo p s2 = Some infoA).
    { unfold findPointerInfo. rewrite E2, find_in_frames_none by done.
      by rewrite E7, Hreg1. }
    rewrite HA in Ha3. split; [done|]. by exists e3, rest3.
Qed.

(** C8.  On a running engine, writing the same value to the same array
    element twice leaves the element map as one write leaves it, with the
    value under the key, and appends two [array_index_assign] events with
    different ids.  Each of the two events is followed by the [heap_free]
    events of the strings of the handler, one for the path and one for the
    array name when they have more than 15 characters, and none otherwise:
    then the two events stand side by side and the id of the second is that
    of the first plus one.  The key ("arr", 2, -1, -1) with the value 5 is
    the instance of the claim. *)
Theorem array_index_assign_twice name i1 i2 i3 value file line s :
  running s →
  let key := {| arrayName := name; idx1 := i1; idx2 := i2; idx3 := i3 |} in
  let s1 := __trace_array_index_assign_loc name i1 i2 i3 value file line s in
  let s2 := __trace_array_index_assign_loc name i1 i2 i3 value file line s1 in
  g_array_element_values s1 !! key = Some value ∧
  g_array_element_values s2 !! key = Some value ∧
  g_array_element_values s2 = g_array_element_values s1 ∧
  ∃ e1 frees1 e2 frees2,
    events s2 = events s ++ e1 :: frees1 ++ e2 :: frees2 ∧
    ev_type e1 = "array_index_assign" ∧ ev_type e2 = "array_index_assign" ∧
    Forall own_free frees1 ∧ Forall own_free frees2 ∧
    length frees1 = buffers [json_safe_path file; name] ∧
    length frees2 = buffers [json_safe_path file; name] ∧
    ev_id e1 = g_event_counter s ∧
    ev_id e2 = (ev_id e1 + 1 + Z.of_nat (length frees1)) mod 2 ^ 64 ∧
    ev_id e1 ≠ ev_id e2.
Proof.
  intros R. cbv zeta.
  destruct (array_index_assign_running name i1 i2 i3 value file line s R)
    as (R1 & Hv1 & e1 & frees1 & He1 & Ht1 & Hi1 & Hf1 & Hl1 & Hc1).
  destruct (array_index_assign_running name i1 i2 i3 value file line _ R1)
    as (R2 & Hv2 & e2 & frees2 & He2 & Ht2 & Hi2 & Hf2 & Hl2 & Hc2).
  rewrite Hv2, Hv1, insert_insert_eq, lookup_insert_eq. split_and!; try done.
  exists e1, frees1, e2, frees2. rewrite He2, He1, <- app_assoc. split_and!; try done.
  - by rewrite Hi2, Hc1, Hi1.
  - rewrite Hi2, Hc1, Hi1, <- Z.add_assoc. intros Heq. symmetry in Heq.
    apply counter_advances_by in Heq; [done|].
    rewrite Hl1. simpl. change (2 ^ 64) with 18446744073709551616.
    destruct (on_heap (json_safe_path file)), (on_heap name); simpl; lia.
Qed.


(** C10.  A function whose demangled symbol name contains "GLOBAL__sub"
    or "_static_initialization_and_destruction" is dropped on entry and on
    exit: either handler returns the state it was given (no event, no frame,
    the depth as before).  A symbol of a system library is not dropped: it is
    entered under the name "user_function", with a frame, an event and the
    depth raised by one. *)
Theorem static_init_functions_dropped func caller info sname s :
  dladdr func = Some info → dli_sname info = Some sname →
  is_static_init (demangle sname) = true →
  __cyg_profile_func_enter func caller s = s ∧
  __cyg_profile_func_exit func caller s = s ∧
  ∀ func2 caller2 info2 sname2 fname2,
    dladdr func2 = Some info2 → dli_sname info2 = Some sname2 →
    is_static_init (demangle sname2) = false →
    dli_fname info2 = Some fname2 →
    strstr fname2 "/usr/" || strstr fname2 "/lib/" ||
    strstr fname2 "libc" || strstr fname2 "libstdc++" = true →
    running s → g_depth s + 1 < 2048 →
    let s' := __cyg_profile_func_enter func2 caller2 s in
    g_depth s' = g_depth s + 1 ∧
    g_call_stack s' = g_call_stack s ++
      [{| functionName := "user_function"; pointerAliases := ∅;
          activeLoops := []; loopIterations := ∅ |}] ∧
    ∃ e, events s' = events s ++ [e] ∧ ev_type e = "func_enter" ∧
         ev_func e = "user_function" ∧ ev_depth e = g_depth s + 1.
Proof.
  intros Hdl Hsn Hst.
  assert (Hen : enter_name func = None) by (unfold enter_name; by rewrite Hdl, Hsn, Hst).
  assert (Hex : exit_name func = None) by (unfold exit_name; by rewrite Hdl, Hsn, Hst).
  split_and!.
  - destruct (TRACER_GUARD_ENTER s) eqn:G.
    + apply guard_enter_granted in G as (_ & Hin & _). apply func_enter_dropped; auto.
    + unfold __cyg_profile_func_enter. by rewrite G.
  - destruct (TRACER_GUARD_ENTER s) eqn:G.
    + apply guard_enter_granted in G as (_ & Hin & _). apply func_exit_dropped; auto.
    + unfold __cyg_profile_func_exit. by rewrite G.
  - intros func2 caller2 info2 sname2 fname2 Hdl2 Hsn2 Hst2 Hfn2 Hsys R Hd. simpl.
    assert (Hen2 : enter_name func2 = Some "user_function")
      by (unfold enter_name; by rewrite Hdl2, Hsn2, Hst2, Hfn2, Hsys).
    destruct R as (R1 & R2 & [f R3] & R4).
    destruct (func_enter_accepted func2 caller2 s "user_function" R1 R2 Hd Hen2)
      as (E1 & E2 & _ & _ & _ & _ & _ & _ & E9).
    rewrite R3 in E9. simpl in E9. destruct E9 as (frees & He & _ & Hl & _).
    apply nil_length_inv in Hl as ->. split_and!; try done.
    eexists. split; [apply He|]. done.
Qed.

(** * Further properties *)

(** ** Strings *)

Lemma string_mem_map_replace c d s :
  c ≠ d → string_mem c (string_map (fun x => if Ascii.eqb x c then d else x) s) = false.
Proof.
  intros Hcd. induction s as [|x s IH]; simpl; [done|]. rewrite IH, orb_false_r.
  destruct (Ascii.eqb_spec x c) as [->|Hx].
  - by apply Ascii.eqb_neq.
  - by apply Ascii.eqb_neq.
Qed.

Lemma string_map_replace_id c d s :
  string_mem c s = false → string_map (fun x => if Ascii.eqb x c then d else x) s = s.
Proof.
  induction s as [|x s IH]; simpl; [done|]. intros H.
  apply orb_false_iff in H as [Hx Hs]. by rewrite Hx, IH.
Qed.

Lemma string_map_length f s : String.length (string_map f s) = String.length s.
Proof. induction s as [|x s IH]; simpl; [done|]. by rewrite IH. Qed.

Lemma string_map_chars f s :
  String.list_ascii_of_string (string_map f s) = f <$> String.list_ascii_of_string s.
Proof. induction s as [|x s IH]; simpl; [done|]. by rewrite IH. Qed.

(** X1: [json_safe_path] gives the empty path for NULL and otherwise the
    path character by character, with a slash (character 47) where the path
    has a backslash (character 92) and every other character as it is.  The result has the length
    of the path and no backslash; a path without backslash is left as it is,
    so applying the function twice is applying it once. *)
Theorem json_safe_path_normalizes raw s :
  json_safe_path None = "" ∧
  String.list_ascii_of_string (json_safe_path (Some s)) =
    (fun c => if Ascii.eqb c char_backslash then char_slash else c) <$>
      String.list_ascii_of_string s ∧
  string_mem char_backslash (json_safe_path raw) = false ∧
  String.length (json_safe_path (Some s)) = String.length s ∧
  json_safe_path (Some (json_safe_path raw)) = json_safe_path raw ∧
  (string_mem char_backslash s = false → json_safe_path (Some s) = s).
Proof.
  assert (Hno : ∀ r, string_mem char_backslash (json_safe_path r) = false).
  { intros [x|]; simpl; [|done]. by apply string_mem_map_replace. }
  split_and!; try done.
  - apply string_map_chars.
  - apply string_map_length.
  - simpl. apply string_map_replace_id, Hno.
  - intros H. simpl. by apply string_map_replace_id.
Qed.

Lemma string_mem_remove c s : string_mem c (string_remove c s) = false.
Proof.
  induction s as [|x s IH]; simpl; [done|].
  destruct (Ascii.eqb_spec x c) as [->|Hx]; [done|]. simpl.
  rewrite IH, orb_false_r. by apply Ascii.eqb_neq.
Qed.

Lemma string_mem_remove_other c d s :
  string_mem c s = false → string_mem c (string_remove d s) = false.
Proof.
  induction s as [|x s IH]; simpl; [done|]. intros H.
  apply orb_false_iff in H as [Hx Hs].
  destruct (Ascii.eqb x d); simpl; [by apply IH|]. by rewrite Hx, IH.
Qed.

Lemma string_remove_id c s : string_mem c s = false → string_remove c s = s.
Proof.
  induction s as [|x s IH]; simpl; [done|]. intros H.
  apply orb_false_iff in H as [Hx Hs]. by rewrite Hx, IH.
Qed.

Lemma string_remove_length c s : (String.length (string_remove c s) ≤ String.length s)%nat.
Proof.
  induction s as [|x s IH]; simpl; [done|]. destruct (Ascii.eqb x c); simpl; lia.
Qed.

Lemma string_remove_chars c s :
  String.list_ascii_of_string (string_remove c s) =
  List.filter (fun x => negb (Ascii.eqb x c)) (String.list_ascii_of_string s).
Proof.
  induction s as [|x s IH]; simpl; [done|].
  destruct (Ascii.eqb x c); simpl; by rewrite IH.
Qed.

Lemma filter_filter_and {A} (f g : A → bool) l :
  List.filter g (List.filter f l) = List.filter (fun x => f x && g x) l.
Proof.
  induction l as [|x l IH]; simpl; [done|].
  destruct (f x); simpl; [destruct (g x)|]; by rewrite IH.
Qed.

(** X2: [normalize_function_name] gives "unknown" for NULL and otherwise
    the characters of the name, in their order, that are neither a carriage
    return (character 13) nor a line feed (character 10).  The result has
    neither of the two characters and is no longer than the name; a name
    without these two characters is left as it is, so applying the function
    twice is applying it once. *)
Theorem normalize_function_name_strips name s :
  normalize_function_name None = "unknown" ∧
  String.list_ascii_of_string (normalize_function_name (Some s)) =
    List.filter (fun c => negb (Ascii.eqb c char_cr) && negb (Ascii.eqb c char_lf))
      (String.list_ascii_of_string s) ∧
  string_mem char_cr (normalize_function_name name) = false ∧
  string_mem char_lf (normalize_function_name name) = false ∧
  (String.length (normalize_function_name (Some s)) ≤ String.length s)%nat ∧
  normalize_function_name (Some (normalize_function_name name)) =
    normalize_function_name name ∧
  (string_mem char_cr s = false → string_mem char_lf s = false →
   normalize_function_name (Some s) = s).
Proof.
  assert (Hcr : ∀ n, string_mem char_cr (normalize_function_name n) = false).
  { intros [x|]; simpl; [|done]. apply string_mem_remove_other, string_mem_remove. }
  assert (Hlf : ∀ n, string_mem char_lf (normalize_function_name n) = false).
  { intros [x|]; simpl; [|done]. apply string_mem_remove. }
  assert (Hid : ∀ x, string_mem char_cr x = false → string_mem char_lf x = false →
                     normalize_function_name (Some x) = x).
  { intros x H1 H2. simpl. by rewrite (string_remove_id char_cr), string_remove_id. }
  split_and!; try done.
  - unfold normalize_function_name. rewrite !string_remove_chars. apply filter_filter_and.
  - simpl. etrans; [apply string_remove_length|apply string_remove_length].
  - by apply Hid.
  - apply Hid.
Qed.

Lemma unescape_escape_chars n v : unescape (escape_chars n v) = string_take n v.
Proof.
  revert v. induction n as [|n IH]; intros [|c v]; simpl; try done.
  destruct (Ascii.eqb_spec c char_quote) as [->|Hq]; simpl.
  - by rewrite IH.
  - destruct (Ascii.eqb_spec c char_backslash) as [->|Hb]; simpl.
    + by rewrite IH.
    + apply Ascii.eqb_neq in Hb. by rewrite Hb, IH.
Qed.

Lemma escape_chars_length n v :
  (String.length (escape_chars n v) ≤ 2 * Nat.min n (String.length v))%nat.
Proof.
  revert v. induction n as [|n IH]; intros [|c v]; simpl; try lia.
  specialize (IH v). destruct (_ || _); simpl; lia.
Qed.

Lemma escape_chars_quotes n k :
  (k ≤ n)%nat → String.length (escape_chars n (string_repeat char_quote k)) = (2 * k)%nat.
Proof.
  revert k. induction n as [|n IH]; intros [|k] Hk; simpl; try lia.
  rewrite IH by lia. lia.
Qed.

(** X3: the escaping of [trace_var_str_loc] can be undone: reading a
    backslash as a mark for the next character gives back the first 250
    characters of the value.  The escaped text has at most twice as many
    characters as were read, so it fits the 256 bytes of its buffer, with
    the terminator, for a value of 127 characters or fewer.  The bound is
    reached: [k] quotation marks (up to 250) give [2 k] characters, which is
    more than the buffer holds from 128 marks on. *)
Theorem escape_value_round_trip v :
  escape_value None = "" ∧
  unescape (escape_value (Some v)) = string_take 250 v ∧
  (String.length (escape_value (Some v)) ≤ 2 * Nat.min 250 (String.length v))%nat ∧
  ((String.length v ≤ 127)%nat → (String.length (escape_value (Some v)) < 256)%nat) ∧
  ∀ k, (k ≤ 250)%nat →
    String.length (escape_value (Some (string_repeat char_quote k))) = (2 * k)%nat.
Proof.
  split_and!; try done.
  - apply unescape_escape_chars.
  - apply escape_chars_length.
  - intros H. pose proof (escape_chars_length 250 v) as Hb. unfold escape_value. lia.
  - intros k Hk. unfold escape_value. by apply escape_chars_quotes.
Qed.

(** X4: the two function hooks drop the same symbols: [enter_name] gives
    no name exactly when [exit_name] gives none, and both give "main" when
    the symbol cannot be looked up.  They give the same name whenever the
    file of the symbol, if it contains "libc" or "libstdc++", also contains
    "/usr/" or "/lib/". *)
Theorem enter_exit_names_agree func :
  (enter_name func = None ↔ exit_name func = None) ∧
  (dladdr func = None → enter_name func = Some "main" ∧ exit_name func = Some "main") ∧
  ((∀ info fname, dladdr func = Some info → dli_fname info = Some fname →
      strstr fname "libc" || strstr fname "libstdc++" = true →
      strstr fname "/usr/" || strstr fname "/lib/" = true) →
   enter_name func = exit_name func).
Proof.
  unfold enter_name, exit_name.
  destruct (dladdr func) as [info|]; [|by split_and!].
  destruct (dli_sname info) as [sname|]; cbv beta iota zeta; [|by split_and!].
  destruct (is_static_init (demangle sname)); [by split_and!|].
  destruct (dli_fname info) as [fname|] eqn:Hfn; cbv beta iota zeta;
    [|by split_and!].
  split_and!.
  - repeat case_match; done.
  - done.
  - intros H. specialize (H info fname eq_refl Hfn). revert H.
    generalize (strstr fname "/usr/"), (strstr fname "/lib/"),
      (strstr fname "libc"), (strstr fname "libstdc++").
    intros [] [] [] []; simpl; intros H; try done; by specialize (H eq_refl).
Qed.

(** X5: where the two function hooks differ.  A symbol that is not
    dropped, in a file whose name contains "libc" or "libstdc++" but neither
    "/usr/" nor "/lib/", is entered as "user_function" and left under its
    own demangled name: the [func_enter] and the [func_exit] event of one
    call carry different names. *)
Theorem enter_exit_names_differ func info sname fname :
  dladdr func = Some info → dli_sname info = Some sname →
  dli_fname info = Some fname →
  is_static_init (demangle sname) = false →
  strstr fname "libc" || strstr fname "libstdc++" = true →
  strstr fname "/usr/" || strstr fname "/lib/" = false →
  enter_name func = Some "user_function" ∧ exit_name func = Some (demangle sname).
Proof.
  intros Hd Hs Hf Hi Hl Hu. unfold enter_name, exit_name.
  rewrite Hd, Hs, Hf, Hi, Hu. cbv beta iota zeta.
  rewrite <- orb_assoc, Hl. done.
Qed.

Lemma string_lt_trans a b c :
  string_lt a b = true → string_lt b c = true → string_lt a c = true.
Proof.
  unfold string_lt. revert b c.
  induction a as [|x a IH]; intros [|y b] [|z c]; simpl; try done.
  unfold Ascii.compare.
  destruct (N.compare_spec (Ascii.N_of_ascii x) (Ascii.N_of_ascii y)) as [Hxy|Hxy|Hxy];
    destruct (N.compare_spec (Ascii.N_of_ascii y) (Ascii.N_of_ascii z)) as [Hyz|Hyz|Hyz];
    destruct (N.compare_spec (Ascii.N_of_ascii x) (Ascii.N_of_ascii z)) as [Hxz|Hxz|Hxz];
    try done; try lia.
  apply IH.
Qed.

Lemma string_lt_irrefl a : string_lt a a = false.
Proof.
  unfold string_lt. destruct (String.compare a a) eqn:Hc; try done.
  pose proof (String.compare_antisym a a) as H. rewrite Hc in H. done.
Qed.

Lemma ArrayElementKey_lt_trans a b c :
  ArrayElementKey_lt a b = true → ArrayElementKey_lt b c = true →
  ArrayElementKey_lt a c = true.
Proof.
  destruct a as [n1 i1 j1 k1], b as [n2 i2 j2 k2], c as [n3 i3 j3 k3].
  unfold ArrayElementKey_lt. simpl.
  destruct (String.eqb_spec n1 n2) as [->|H12]; simpl.
  - destruct (String.eqb_spec n2 n3) as [->|H23]; simpl; [|done].
    destruct (Z.eqb_spec i1 i2) as [->|?]; simpl.
    + destruct (Z.eqb_spec i2 i3) as [->|?]; simpl; [|done].
      destruct (Z.eqb_spec j1 j2) as [->|?]; simpl.
      * destruct (Z.eqb_spec j2 j3) as [->|?]; simpl; [lia|done].
      * destruct (Z.eqb_spec j2 j3) as [->|?]; simpl.
        -- destruct (Z.eqb_spec j1 j3); simpl; [lia|done].
        -- destruct (Z.eqb_spec j1 j3); simpl; lia.
    + destruct (Z.eqb_spec i2 i3) as [->|?]; simpl.
      * destruct (Z.eqb_spec i1 i3); simpl; [lia|done].
      * destruct (Z.eqb_spec i1 i3); simpl; lia.
  - destruct (String.eqb_spec n2 n3) as [->|H23]; simpl.
    + destruct (String.eqb_spec n1 n3); simpl; [congruence|done].
    + intros Ha Hb. pose proof (string_lt_trans _ _ _ Ha Hb) as Hc.
      destruct (String.eqb_spec n1 n3) as [->|?]; simpl; [|done].
      by rewrite string_lt_irrefl in Hc.
Qed.

(** X6: [ArrayElementKey::operator<] is a strict total order, as the
    element map needs of its key: it is irreflexive, asymmetric and
    transitive, and of two different keys one is below the other. *)
Theorem ArrayElementKey_lt_strict a b c :
  ArrayElementKey_lt a a = false ∧
  (ArrayElementKey_lt a b = true → ArrayElementKey_lt b a = false) ∧
  (ArrayElementKey_lt a b = true → ArrayElementKey_lt b c = true →
   ArrayElementKey_lt a c = true) ∧
  (a ≠ b → ArrayElementKey_lt a b = true ∨ ArrayElementKey_lt b a = true).
Proof.
  split_and!.
  - apply ArrayElementKey_lt_irrefl.
  - intros Hab. destruct (ArrayElementKey_lt b a) eqn:Hba; [|done].
    pose proof (ArrayElementKey_lt_trans _ _ _ Hab Hba) as H.
    by rewrite ArrayElementKey_lt_irrefl in H.
  - apply ArrayElementKey_lt_trans.
  - intros Hab.
    destruct (ArrayElementKey_lt a b) eqn:H1; [by left|].
    destruct (ArrayElementKey_lt b a) eqn:H2; [by right|].
    by apply ArrayElementKey_lt_total in H1.
Qed.

(** ** Handlers on a running engine *)

Lemma inside_no_trace_file b s : no_trace_file (set_g_inside_tracer b s) = no_trace_file s.
Proof. reflexivity. Qed.

Lemma inside_can_write b s : can_write (set_g_inside_tracer b s) = can_write s.
Proof. reflexivity. Qed.

Lemma counter_guard_exit s : g_event_counter (TRACER_GUARD_EXIT s) = g_event_counter s.
Proof. reflexivity. Qed.

(** The clock is read once for each event written. *)
Lemma wje_clock_reads type addr func_name depth extra s :
  clock_reads (write_json_event type addr func_name depth extra s) =
  if can_write s then S (clock_reads s) else clock_reads s.
Proof.
  unfold can_write, write_json_event, fputs, get_timestamp_us.
  repeat case_match; simplify_eq; reflexivity.
Qed.

(** An event written between the setting and the clearing of the flag. *)
Lemma wje_events_inside type addr func_name depth extra s :
  can_write s = true →
  events (write_json_event type addr func_name depth extra (set_g_inside_tracer true s)) =
  events s ++ [event_of type addr func_name depth extra s].
Proof. intros Hw. by rewrite wje_events, inside_can_write, Hw. Qed.

Lemma running_after s s' :
  g_tracer_disabled s' = g_tracer_disabled s → g_inside_tracer s' = false →
  g_trace_file s' = g_trace_file s → g_depth s' = g_depth s →
  running s → running s'.
Proof. intros H1 H2 H3 H4 (R1 & R2 & R3 & R4). unfold running. by rewrite H1, H2, H3, H4. Qed.

Lemma running_hook_test s :
  running s → g_tracer_disabled s || g_inside_tracer s || (2048 <=? g_depth s) = false.
Proof.
  intros (-> & -> & _ & Hd). simpl. by destruct (Z.leb_spec 2048 (g_depth s)); [lia|].
Qed.

(** X7: the allocation hooks ([operator new], [operator new[]], [malloc])
    on a running engine.  An allocation that failed (a null pointer) leaves
    no trace at all; one that succeeded appends exactly one [heap_alloc]
    event, with the pointer as address, the name of the hook as function,
    the current depth and the size, and changes nothing else the handlers
    read: the engine is running afterwards, with the stack and the pointer
    registry it had. *)
Theorem alloc_hook_records who size ptr s :
  running s →
  let s' := alloc_hook who size ptr s in
  alloc_hook who size 0 s = s ∧
  (ptr ≠ 0 →
   events s' = events s ++
     [event_of "heap_alloc" ptr (Some who) (g_depth s)
        (Some [fld "size" (JInt size); fld "isHeap" (JBool true)]) s] ∧
   g_event_counter s' = (g_event_counter s + 1) mod 2 ^ 64) ∧
  running s' ∧ g_call_stack s' = g_call_stack s ∧
  g_pointer_registry s' = g_pointer_registry s.
Proof.
  intros R. simpl. unfold alloc_hook. rewrite (running_hook_test _ R).
  pose proof (running_can_write _ R) as Hw.
  pose proof R as (Hdis & Hin & [f Hf] & Hd).
  cbv zeta. simpl g_trace_file. simpl g_tracer_disabled. rewrite Hf, Hdis.
  simpl bool_of_option. simpl negb. rewrite !andb_true_r.
  split_and!.
  - simpl. by apply guard_exit_enter.
  - intros Hp. destruct (Z.eqb_spec ptr 0); [done|]. simpl negb. cbv iota.
    rewrite events_guard_exit, (wje_events_inside _ _ _ _ _ _ Hw), counter_guard_exit.
    by rewrite wje_event_counter, inside_can_write, Hw.
  - destruct (negb (ptr =? 0));
      (eapply running_after; [..|exact R]); simpl; autorewrite with wje; done.
  - destruct (negb (ptr =? 0)); simpl; autorewrite with wje; done.
  - destruct (negb (ptr =? 0)); simpl; autorewrite with wje; done.
Qed.

(** X8: the releasing hooks ([operator delete], [operator delete[]],
    [free]) on a running engine.  Releasing the null pointer leaves no trace;
    releasing any other pointer appends exactly one [heap_free] event with
    the pointer as address and without extra fields, whether or not the
    pointer was ever reported as allocated. *)
Theorem free_hook_records who ptr s :
  running s →
  let s' := free_hook who ptr s in
  free_hook who 0 s = s ∧
  (ptr ≠ 0 →
   events s' = events s ++ [event_of "heap_free" ptr (Some who) (g_depth s) None s] ∧
   g_event_counter s' = (g_event_counter s + 1) mod 2 ^ 64) ∧
  running s' ∧ g_call_stack s' = g_call_stack s ∧
  g_pointer_registry s' = g_pointer_registry s.
Proof.
  intros R. simpl. unfold free_hook. rewrite (running_hook_test _ R).
  pose proof (running_can_write _ R) as Hw.
  pose proof R as (Hdis & Hin & [f Hf] & Hd).
  cbv zeta. simpl g_trace_file. simpl g_tracer_disabled. rewrite Hf, Hdis.
  simpl bool_of_option. simpl negb. rewrite !andb_true_r.
  split_and!.
  - simpl. by apply guard_exit_enter.
  - intros Hp. destruct (Z.eqb_spec ptr 0); [done|]. simpl negb. cbv iota.
    rewrite events_guard_exit, (wje_events_inside _ _ _ _ _ _ Hw), counter_guard_exit.
    by rewrite wje_event_counter, inside_can_write, Hw.
  - destruct (negb (ptr =? 0));
      (eapply running_after; [..|exact R]); simpl; autorewrite with wje; done.
  - destruct (negb (ptr =? 0)); simpl; autorewrite with wje; done.
  - destruct (negb (ptr =? 0)); simpl; autorewrite with wje; done.
Qed.

(** ** Names of addresses and pointers *)

Lemma find_in_frames_app_none p v w :
  Forall (fun fr => pointerAliases fr !! p = None) w →
  find_in_frames p (rev (v ++ w)) = find_in_frames p (rev v).
Proof.
  induction w as [|fr w IH] using rev_ind; intros H.
  - by rewrite app_nil_r.
  - apply Forall_app in H as [Hw Hfr]. apply Forall_inv in Hfr.
    rewrite app_assoc, find_in_frames_outward by done. by apply IH.
Qed.

(** The alias handler on a running engine: its event, then the strings
    of the handler leave, the name of the record first, then the path, then
    the name of what is aliased. *)
Lemma pointer_alias_running name aliased d file line s :
  running s →
  let s' := __trace_pointer_alias_loc name aliased d file line s in
  let pinfo := {| pointerName := name; aliasedAddress := aliased;
                  isHeap := false; heapAddress := 0 |} in
  let aliasOf := default "unknown" (g_address_to_name s !! aliased) in
  running s' ∧ g_depth s' = g_depth s ∧ g_address_to_name s' = g_address_to_name s ∧
  (∃ frees,
     events s' = events s ++
       event_of "pointer_alias" aliased (Some (g_current_function s)) (g_depth s)
         (Some [fld "name" (JStr name); fld "aliasOf" (JStr aliasOf);
                fld "aliasedAddress" (JPtr aliased);
                fld "decayedFromArray" (JBool d);
                fld "file" (JStr (json_safe_path file)); fld "line" (JInt line)]) s
       :: frees ∧
     frees_of [name; json_safe_path file; aliasOf] frees) ∧
  (g_call_stack s = [] →
   g_call_stack s' = [] ∧ g_pointer_registry s' = <[name := pinfo]> (g_pointer_registry s)) ∧
  (∀ v top, g_call_stack s = v ++ [top] →
   g_call_stack s' = v ++ [set_pointerAliases (<[name := pinfo]> (pointerAliases top)) top] ∧
   g_pointer_registry s' = g_pointer_registry s).
Proof.
  intros R. cbv zeta. unfold __trace_pointer_alias_loc. on_running R.
  rewrite !tb_call_stack, wje_call_stack, !tb_call_stack.
  change (g_call_stack (set_g_inside_tracer true s)) with (g_call_stack s).
  change (g_address_to_name (set_g_inside_tracer true s)) with (g_address_to_name s).
  pose proof (running_can_write _ R) as Hw.
  name_core bufs core.
  destruct (handler_epilogue s core bufs
              [name; json_safe_path file; default "unknown" (g_address_to_name s !! aliased)] R)
    as (R' & frees & He & Hf & _);
    [subst core; destruct (g_call_stack s); by norm_state..
    |subst bufs; string_buffers|subst bufs; buffers_of|].
  assert (Hev : events core = events s ++
            [event_of "pointer_alias" aliased (Some (g_current_function s)) (g_depth s)
               (Some [fld "name" (JStr name);
                      fld "aliasOf" (JStr (default "unknown" (g_address_to_name s !! aliased)));
                      fld "aliasedAddress" (JPtr aliased);
                      fld "decayedFromArray" (JBool d);
                      fld "file" (JStr (json_safe_path file)); fld "line" (JInt line)]) s]).
  { subst core. destruct (g_call_stack s); autorewrite with wje;
      rewrite wje_events, (can_write_ext _ s), Hw by (by norm_state);
      unfold event_of; by norm_state. }
  split_and!.
  - exact R'.
  - autorewrite with wje. subst core. destruct (g_call_stack s); by norm_state.
  - autorewrite with wje. subst core. destruct (g_call_stack s); by norm_state.
  - exists frees. by rewrite He, Hev, <- app_assoc.
  - intros Hst. autorewrite with wje. subst core. rewrite Hst. by norm_state.
  - intros v top Hst. autorewrite with wje. subst core. rewrite Hst.
    destruct (v ++ [top]) eqn:Hv; [by destruct v|]. rewrite <- Hv. norm_state.
    by rewrite with_back_snoc.
Qed.

(** After the alias handler the pointer resolves to the alias. *)
Lemma pointer_alias_found name aliased d file line s :
  running s →
  findPointerInfo name (__trace_pointer_alias_loc name aliased d file line s) =
  Some {| pointerName := name; aliasedAddress := aliased; isHeap := false; heapAddress := 0 |}.
Proof.
  intros R.
  pose proof (pointer_alias_running name aliased d file line s R) as (_ & _ & _ & _ & H0 & H1).
  destruct (g_call_stack s) as [|fr st] eqn:Hst using rev_ind.
  - destruct (H0 eq_refl) as [Hs Hr]. unfold findPointerInfo. rewrite Hs, Hr. simpl.
    by rewrite lookup_insert_eq.
  - clear IHst. destruct (H1 _ _ eq_refl) as [Hs Hr].
    apply (findPointerInfo_innermost _ _ _ _ _ Hs). simpl. by rewrite lookup_insert_eq.
Qed.

(** The declaration handler on a running engine. *)
Lemma declare_running name ty addr file line s :
  running s →
  let s' := __trace_declare_loc name ty addr file line s in
  running s' ∧ g_depth s' = g_depth s ∧ g_call_stack s' = g_call_stack s ∧
  g_pointer_registry s' = g_pointer_registry s ∧
  g_address_to_name s' = <[addr := name]> (g_address_to_name s) ∧
  ∃ frees,
    events s' = events s ++
      event_of "declare" addr (Some name) (g_depth s)
        (Some [fld "name" (JStr name); fld "varType" (JStr ty); fld "value" JNull;
               fld "address" (JPtr addr); fld "file" (JStr (json_safe_path file));
               fld "line" (JInt line)]) s
      :: frees ∧
    frees_of [json_safe_path file] frees.
Proof.
  intros R. cbv zeta. unfold __trace_declare_loc. on_running R.
  pose proof (running_can_write _ R) as Hw.
  name_core bufs core.
  destruct (handler_epilogue s core bufs [json_safe_path file] R)
    as (R' & frees & He & Hf & _);
    [subst core; by norm_state..|subst bufs; string_buffers|subst bufs; buffers_of|].
  split_and!; try (autorewrite with wje; subst core; by norm_state).
  - exact R'.
  - exists frees. split; [|done]. rewrite He. subst core.
    rewrite wje_events, (can_write_ext _ s), Hw by (by norm_state).
    unfold events, event_of. norm_state. by rewrite <- app_assoc.
Qed.

(** The dereferencing write on a running engine: its events in full. *)
Lemma pointer_deref_write_events p value file line s :
  running s →
  let s' := __trace_pointer_deref_write_loc p value file line s in
  let target := match findPointerInfo p s with
                | Some pinfo => aliasedAddress pinfo
                | None => 0
                end in
  let heap := match findPointerInfo p s with
              | Some pinfo => isHeap pinfo
              | None => false
              end in
  let targetName := match findPointerInfo p s with
                    | Some pinfo =>
                        default "unknown" (g_address_to_name s !! aliasedAddress pinfo)
                    | None => "unknown"
                    end in
  let e := event_of "pointer_deref_write" target (Some (g_current_function s)) (g_depth s)
             (Some [fld "pointerName" (JStr p); fld "value" (JInt value);
                    fld "targetName" (JStr targetName);
                    fld "isHeap" (JBool heap);
                    fld "file" (JStr (json_safe_path file)); fld "line" (JInt line)]) s in
  let h := {| ev_id := (g_event_counter s + 1) mod 2 ^ 64; ev_type := "heap_write";
              ev_addr := target; ev_func := g_current_function s;
              ev_depth := g_depth s;
              ev_ts := Z.land (steady_clock_us (S (clock_reads s))) 0xFFFFFFFF;
              ev_extra :=
                Some [fld "address" (JPtr target); fld "value" (JInt value);
                      fld "file" (JStr (json_safe_path file));
                      fld "line" (JInt line)] |} in
  ∃ frees,
    events s' = events s ++ (e :: if heap then [h] else []) ++ frees ∧
    frees_of [targetName; json_safe_path file] frees.
Proof.
  intros R. cbv zeta. unfold __trace_pointer_deref_write_loc. on_running R.
  rewrite tb_findPointerInfo.
  change (findPointerInfo p (set_g_inside_tracer true s)) with (findPointerInfo p s).
  rewrite tb_address_to_name.
  change (g_address_to_name (set_g_inside_tracer true s)) with (g_address_to_name s).
  pose proof (running_can_write _ R) as Hw.
  destruct (findPointerInfo p s) as [pinfo|]; [destruct (isHeap pinfo)|];
    cbv beta iota zeta.
  all: name_core bufs core.
  all: match goal with |- context [frees_of ?l _] =>
         destruct (handler_epilogue s core bufs l R) as (R' & frees & He & Hf & _);
           [subst core; by norm_state..|subst bufs; string_buffers|subst bufs; buffers_of|]
       end.
  all: exists frees; split; [|done]; rewrite He; subst core.
  all: rewrite !wje_events, !(can_write_ext _ s), !Hw by (by norm_state).
  all: unfold events, event_of; norm_state; rewrite ?wje_event_counter, ?wje_clock_reads.
  all: norm_state; rewrite ?inside_can_write, ?Hw; norm_state.
  all: by rewrite <- ?app_assoc.
Qed.

(** The heap-init handler on a running engine. *)
Lemma pointer_heap_init_running p heapAddr file line s :
  running s →
  let s' := __trace_pointer_heap_init_loc p heapAddr file line s in
  let pinfo := {| pointerName := p; aliasedAddress := heapAddr;
                  isHeap := true; heapAddress := heapAddr |} in
  running s' ∧ g_depth s' = g_depth s ∧ g_address_to_name s' = g_address_to_name s ∧
  (∃ frees, events s' = events s ++ frees ∧ frees_of [p] frees) ∧
  g_pointer_registry s' = <[p := pinfo]> (g_pointer_registry s) ∧
  (∀ v top, g_call_stack s = v ++ [top] →
     g_call_stack s' = v ++ [set_pointerAliases (<[p := pinfo]> (pointerAliases top)) top]).
Proof.
  intros R. cbv zeta. unfold __trace_pointer_heap_init_loc. on_running R.
  rewrite !tb_call_stack.
  change (g_call_stack (set_g_inside_tracer true s)) with (g_call_stack s).
  name_core bufs core.
  destruct (handler_epilogue s core bufs [p] R) as (R' & frees & He & Hf & _);
    [subst core; destruct (g_call_stack s); by norm_state..
    |subst bufs; string_buffers|subst bufs; buffers_of|].
  split_and!.
  - exact R'.
  - autorewrite with wje. subst core. destruct (g_call_stack s); by norm_state.
  - autorewrite with wje. subst core. destruct (g_call_stack s); by norm_state.
  - exists frees. split; [|done]. rewrite He. subst core. unfold events.
    destruct (g_call_stack s); by norm_state.
  - autorewrite with wje. subst core. destruct (g_call_stack s); by norm_state.
  - intros v top Hst. autorewrite with wje. subst core. rewrite Hst.
    destruct (v ++ [top]) eqn:Hv; [by destruct v|]. rewrite <- Hv. norm_state.
    by rewrite with_back_snoc.
Qed.

(** X9: what a dereferencing write reports, on a running engine.  For a
    pointer the tracer does not know, one [pointer_deref_write] event with
    the null address, the target name "unknown" and [isHeap] false.  For a
    known pointer the event carries the address the pointer aliases and the
    name registered for that address ("unknown" when there is none); when
    the pointer is a heap pointer a [heap_write] event with the same address
    and the value written follows at once, its id one above.  After these
    come the [heap_free] events of the two strings of the handler, the target
    name and the path, one for each that has more than 15 characters.  The
    fields are formatted into 512 bytes, of which at most 100 are not of the
    three names: the names are taken short enough for nothing to be cut. *)
Theorem pointer_deref_write_reports p value file line s :
  running s →
  let targetName := match findPointerInfo p s with
                    | Some pinfo =>
                        default "unknown" (g_address_to_name s !! aliasedAddress pinfo)
                    | None => "unknown"
                    end in
  (String.length p + String.length targetName + String.length (json_safe_path file)
   ≤ 400)%nat →
  let s' := __trace_pointer_deref_write_loc p value file line s in
  ∃ e frees,
    frees_of [targetName; json_safe_path file] frees ∧
    ev_type e = "pointer_deref_write" ∧ ev_id e = g_event_counter s ∧
    event_field "pointerName" e = Some (JStr p) ∧
    event_field "value" e = Some (JInt value) ∧
    match findPointerInfo p s with
    | None =>
        events s' = events s ++ e :: frees ∧ ev_addr e = 0 ∧
        event_field "targetName" e = Some (JStr "unknown") ∧
        event_field "isHeap" e = Some (JBool false)
    | Some pinfo =>
        ev_addr e = aliasedAddress pinfo ∧
        event_field "targetName" e =
          Some (JStr (default "unknown" (g_address_to_name s !! aliasedAddress pinfo))) ∧
        event_field "isHeap" e = Some (JBool (isHeap pinfo)) ∧
        if isHeap pinfo
        then ∃ h, events s' = events s ++ e :: h :: frees ∧ ev_type h = "heap_write" ∧
                  ev_addr h = aliasedAddress pinfo ∧
                  ev_id h = (ev_id e + 1) mod 2 ^ 64 ∧
                  event_field "address" h = Some (JPtr (aliasedAddress pinfo)) ∧
                  event_field "value" h = Some (JInt value)
        else events s' = events s ++ e :: frees
    end.
Proof.
  intros R targetName _. cbv zeta.
  destruct (pointer_deref_write_events p value file line s R) as (frees & He & Hf).
  rewrite He. subst targetName.
  match goal with |- context [events s ++ (?e0 :: _) ++ _] => exists e0, frees end.
  split_and!; [done|reflexivity..|].
  destruct (findPointerInfo p s) as [pinfo|].
  - split_and!; [reflexivity..|]. destruct (isHeap pinfo); [|reflexivity].
    eexists. split_and!; reflexivity.
  - split_and!; reflexivity.
Qed.


(** X11: an alias lives as long as the frame it was recorded in, a heap
    pointer for the rest of the run.  With a frame [top] on the stack, a heap
    pointer [p] and an alias [q] recorded in it both resolve while the frame
    is there.  Once the exit handler has popped the frame, [q] (unknown to the
    frames below and to the registry) resolves to nothing, while [p] still
    resolves to its heap address, through the process-wide registry. *)
Theorem alias_dies_with_frame p heapAddr q aliased d file line func caller nm v top s :
  running s → 0 < g_depth s → g_call_stack s = v ++ [top] →
  exit_name func = Some nm → p ≠ q →
  Forall (fun fr => pointerAliases fr !! p = None ∧ pointerAliases fr !! q = None) v →
  g_pointer_registry s !! q = None →
  let heap := {| pointerName := p; aliasedAddress := heapAddr;
                 isHeap := true; heapAddress := heapAddr |} in
  let s1 := __trace_pointer_heap_init_loc p heapAddr file line s in
  let s2 := __trace_pointer_alias_loc q aliased d file line s1 in
  let s3 := __cyg_profile_func_exit func caller s2 in
  findPointerInfo p s2 = Some heap ∧
  findPointerInfo q s2 =
    Some {| pointerName := q; aliasedAddress := aliased; isHeap := false; heapAddress := 0 |} ∧
  g_call_stack s3 = v ∧
  findPointerInfo p s3 = Some heap ∧
  findPointerInfo q s3 = None.
Proof.
  intros R Hd Hst Hnm Hpq Hv Hq. simpl.
  pose proof (pointer_heap_init_running p heapAddr file line s R)
    as (R1 & Hd1 & _ & _ & Hr1 & Hs1).
  specialize (Hs1 _ _ Hst).
  pose proof (pointer_alias_running q aliased d file line _ R1) as (R2 & Hd2 & _ & _ & _ & Hs2).
  specialize (Hs2 _ _ Hs1) as [Hs2 Hr2].
  pose proof R2 as (Hdis2 & Hin2 & _ & _).
  pose proof (func_exit_accepted func caller _ v _ nm Hdis2 Hin2 ltac:(lia) Hnm Hs2)
    as (_ & Hs3 & _ & _ & _ & _ & Hr3 & _).
  assert (Hvp : Forall (fun fr => pointerAliases fr !! p = None) v)
    by (eapply Forall_impl; [exact Hv|]; by intros ? [? ?]).
  assert (Hvq : Forall (fun fr => pointerAliases fr !! q = None) v)
    by (eapply Forall_impl; [exact Hv|]; by intros ? [? ?]).
  split_and!.
  - apply (findPointerInfo_innermost _ _ _ _ _ Hs2). simpl.
    by rewrite lookup_insert_ne, lookup_insert_eq.
  - by apply pointer_alias_found.
  - exact Hs3.
  - rewrite findPointerInfo_registry by (by rewrite Hs3).
    by rewrite Hr3, Hr2, Hr1, lookup_insert_eq.
  - rewrite findPointerInfo_registry by (by rewrite Hs3).
    by rewrite Hr3, Hr2, Hr1, lookup_insert_ne.
Qed.

(** ** The array initialisers *)

Lemma write_elements_snoc name l ic m :
  write_elements name (l ++ [ic]) m = <[element_key name ic.1 := ic.2]> (write_elements name l m).
Proof. unfold write_elements. by rewrite fold_left_app. Qed.

Lemma write_elements_other name l m k :
  (∀ ic, ic ∈ l → element_key name ic.1 ≠ k) →
  write_elements name l m !! k = m !! k.
Proof.
  induction l as [|ic l IH] using rev_ind; intros H; [done|].
  rewrite write_elements_snoc, lookup_insert_ne.
  - apply IH. intros ic' Hin. apply H. apply elem_of_app. by left.
  - apply H. apply elem_of_app. right. by apply list_elem_of_singleton.
Qed.

Lemma write_elements_lookup name l m (j : nat) i c :
  NoDup (l.*1) → l !! j = Some (i, c) →
  write_elements name l m !! element_key name i = Some c.
Proof.
  revert j. induction l as [|[i' c'] l IH] using rev_ind; intros j Hnd Hj; [done|].
  rewrite fmap_app in Hnd. apply NoDup_app in Hnd as (Hnd & Hfresh & _).
  rewrite write_elements_snoc. simpl.
  apply lookup_snoc_Some in Hj as [[Hlt Hj]|[_ Hj]].
  - rewrite lookup_insert_ne; [by apply (IH j)|].
    intros Heq. injection Heq as Heq. subst i'.
    apply (Hfresh i).
    + apply list_elem_of_fmap. exists (i, c). split; [done|]. by eapply list_elem_of_lookup_2.
    + simpl. apply list_elem_of_singleton. done.
  - injection Hj as -> ->. by rewrite lookup_insert_eq.
Qed.

Section InitFold.
Context {A : Type} (name : string) (ic : A → Z * Z) (ext : A → list (string * JVal)).
Variable f : TracerState → A → TracerState.
Hypothesis f_eq : ∀ s a, f s a = init_element name (ic a).1 (ic a).2 (ext a) s.

Lemma init_fold_preserves {B} (proj : TracerState → B) l s :
  (∀ v s, proj (set_g_array_element_values v s) = proj s) →
  (∀ ty ad fn d ex s, proj (write_json_event ty ad fn d ex s) = proj s) →
  proj (fold_left f l s) = proj s.
Proof.
  intros H1 H2. apply fold_left_preserves. intros s0 a.
  rewrite f_eq. unfold init_element. by rewrite H1, H2.
Qed.

Lemma init_fold_values l s :
  g_array_element_values (fold_left f l s) =
  write_elements name (ic <$> l) (g_array_element_values s).
Proof.
  revert s. induction l as [|a l IH]; intros s; [done|].
  simpl. rewrite IH, f_eq. unfold init_element. simpl. by autorewrite with wje.
Qed.

Lemma init_fold_events l s :
  can_write s = true →
  ∃ new, events (fold_left f l s) = events s ++ new ∧
    Forall2 (fun a e => ev_type e = "array_index_assign" ∧ ev_addr e = 0 ∧
                        ev_func e = g_current_function s ∧ ev_depth e = g_depth s ∧
                        ev_extra e = Some (ext a)) l new.
Proof.
  revert s. induction l as [|a l IH]; intros s Hw.
  - exists []. by rewrite app_nil_r.
  - simpl. rewrite f_eq.
    set (s1 := init_element name (ic a).1 (ic a).2 (ext a) s).
    assert (Hw1 : can_write s1 = true).
    { subst s1. unfold init_element.
      change (can_write (set_g_array_element_values ?v ?x)) with (can_write x).
      by autorewrite with wje. }
    destruct (IH s1 Hw1) as (new & He & Hall).
    assert (He1 : events s1 = events s ++
      [event_of "array_index_assign" 0 (Some (g_current_function s)) (g_depth s)
         (Some (ext a)) s]).
    { subst s1. unfold init_element.
      change (events (set_g_array_element_values ?v ?x)) with (events x).
      by rewrite wje_events, Hw. }
    eexists (_ :: new). split.
    + rewrite He, He1, <- app_assoc. reflexivity.
    + constructor; [done|].
      assert (Hc : g_current_function s1 = g_current_function s)
        by (subst s1; unfold init_element; simpl; by autorewrite with wje).
      assert (Hd : g_depth s1 = g_depth s)
        by (subst s1; unfold init_element; simpl; by autorewrite with wje).
      by rewrite <- Hc, <- Hd.
Qed.
End InitFold.

Lemma char_values_range s : Forall (fun c => -128 ≤ c ≤ 127) (char_values s).
Proof.
  unfold char_values. apply Forall_forall. intros c Hc.
  apply list_elem_of_fmap in Hc as (a & -> & _).
  pose proof (Ascii.nat_ascii_bounded a) as Hb.
  destruct (Z.leb_spec 128 (Z.of_nat (Ascii.nat_of_ascii a))); lia.
Qed.

(** X12: [__trace_array_init_string_loc] on a running engine records the
    characters of the literal and the terminating NUL after them, one
    [array_index_assign] event and one element each, in order: the event
    carries the index, the value of the [char] (from -128 to 127) and its
    code as an unsigned byte, element [i] of the array holds character [i],
    and the last element written holds 0.  A null literal records the NUL
    alone.  No other element changes.  After the events of the elements
    comes the [heap_free] event of the path, when the path has more than 15
    characters.  The fields of an event are formatted into 256 bytes, of
    which at most 98 are not of the name and the path: these two are taken
    short enough for nothing to be cut. *)
Theorem array_init_string_records name lit file line s :
  running s →
  (String.length name + String.length (json_safe_path file) ≤ 150)%nat →
  let s' := __trace_array_init_string_loc name lit file line s in
  let chars := match lit with Some l => char_values l ++ [0] | None => [0] end in
  running s' ∧
  (∃ new frees, events s' = events s ++ new ++ frees ∧
     frees_of [json_safe_path file] frees ∧
     Forall2 (fun ic e => ev_type e = "array_index_assign" ∧ ev_depth e = g_depth s ∧
                event_field "indices" e = Some (JInts [ic.1]) ∧
                event_field "value" e = Some (JInt ic.2) ∧
                event_field "char" e = Some (JUnicode (ic.2 mod 256)))
       (zip (seqZ 0 (Z.of_nat (length chars))) chars) new) ∧
  (∀ (i : nat) c, chars !! i = Some c →
     g_array_element_values s' !! element_key name (Z.of_nat i) = Some c) ∧
  last chars = Some 0 ∧ Forall (fun c => -128 ≤ c ≤ 127) chars ∧
  (∀ k, (∀ i, 0 ≤ i < Z.of_nat (length chars) → k ≠ element_key name i) →
     g_array_element_values s' !! k = g_array_element_values s !! k).
Proof.
  intros R _. cbv zeta. unfold __trace_array_init_string_loc. on_running R.
  set (chars := match lit with Some l => char_values l ++ [0] | None => [0] end).
  set (l := zip (seqZ 0 (Z.of_nat (length chars))) chars).
  match goal with
  | |- context [fold_left ?g l ?x] => set (f := g); set (X := x)
  end.
  set (ext := fun ic : Z * Z =>
         [fld "name" (JStr name); fld "indices" (JInts [ic.1]);
          fld "value" (JInt ic.2); fld "char" (JUnicode (ic.2 mod 256));
          fld "file" (JStr (json_safe_path file)); fld "line" (JInt line)]).
  assert (f_eq : ∀ s a, f s a = init_element name (id a).1 (id a).2 (ext a) s)
    by (by intros ? [? ?]).
  assert (Hfst : l.*1 = seqZ 0 (Z.of_nat (length chars))).
  { apply fst_zip. rewrite length_seqZ. lia. }
  assert (Hw : can_write X = true)
    by (subst X; rewrite tb_can_write; exact (running_can_write _ R)).
  assert (HvX : g_array_element_values X = g_array_element_values s)
    by (subst X; by norm_state).
  name_core bufs core.
  destruct (handler_epilogue s core bufs [json_safe_path file] R)
    as (R' & frees & He & Hf & _);
    [subst core;
     rewrite (init_fold_preserves name id ext f f_eq) by (intros; by autorewrite with wje);
     subst X; by norm_state..
    |subst bufs; string_buffers|subst bufs; buffers_of|].
  assert (Hval : g_array_element_values (release bufs (TRACER_GUARD_EXIT core)) =
                 write_elements name l (g_array_element_values s)).
  { autorewrite with wje. subst core. simpl.
    by rewrite (init_fold_values name id ext f f_eq), list_fmap_id, HvX. }
  split_and!.
  - exact R'.
  - destruct (init_fold_events name id ext f f_eq l X Hw) as (new & Hen & Hall).
    exists new, frees. rewrite He. subst core. rewrite Hen, <- app_assoc.
    split; [subst X; by autorewrite with wje|]. split; [done|].
    eapply Forall2_impl; [exact Hall|]. simpl. intros ic e (H1 & _ & _ & H4 & H5).
    unfold event_field. rewrite H5, H4. subst X. by norm_state.
  - intros i c Hi. rewrite Hval.
    apply (write_elements_lookup _ _ _ i).
    + rewrite Hfst. apply NoDup_seqZ.
    + apply lookup_zip_Some. split; [|done].
      apply lookup_seqZ. split; [lia|]. apply lookup_lt_Some in Hi. lia.
  - subst chars. destruct lit; [apply last_snoc|done].
  - subst chars. destruct lit.
    + apply Forall_app. split; [apply char_values_range|]. repeat constructor; lia.
    + repeat constructor; lia.
  - intros k Hk. rewrite Hval.
    apply write_elements_other. intros [i c] Hin Heq. simpl in Heq.
    apply elem_of_zip_l in Hin. apply elem_of_seqZ in Hin.
    apply (Hk i); [lia|done].
Qed.


(** ** Loops *)

Lemma snoc_not_nil {A} (v : list A) (x : A) : v ++ [x] ≠ [].
Proof. by destruct v. Qed.

Lemma erase_first_snoc_fresh x l : x ∉ l → erase_first x (l ++ [x]) = l.
Proof.
  induction l as [|y l IH]; intros H; simpl.
  - by rewrite Z.eqb_refl.
  - apply not_elem_of_cons in H as [Hxy Hl].
    destruct (Z.eqb_spec y x); [congruence|]. by rewrite IH.
Qed.

Lemma erase_first_absent x l : x ∉ l → erase_first x l = l.
Proof.
  induction l as [|y l IH]; intros H; simpl; [done|].
  apply not_elem_of_cons in H as [Hxy Hl].
  destruct (Z.eqb_spec y x); [congruence|]. by rewrite IH.
Qed.

Lemma int_wrap_small z : - 2 ^ 31 ≤ z < 2 ^ 31 → int_wrap z = z.
Proof. intros H. unfold int_wrap. rewrite Z.mod_small; lia. Qed.

Ltac loop_epilogue R frees He Hf R' :=
  let bufs := fresh "bufs" in
  let core := fresh "core" in
  name_core bufs core;
  match goal with
  | |- context [frees_of ?l _] =>
      destruct (handler_epilogue _ core bufs l R) as (R' & frees & He & Hf & _);
        [subst core; by norm_state..|subst bufs; string_buffers|subst bufs; buffers_of|]
  end;
  subst core.

Ltac loop_goals R Hw frees He Hf R' :=
  split_and!;
    [exact R'
    |autorewrite with wje; by norm_state..
    |exists frees; split; [|done]; rewrite He;
     rewrite wje_events, (can_write_ext _ _), Hw by (by norm_state);
     unfold event_of; norm_state; by rewrite <- app_assoc].

(** The loop handlers on a running engine with a frame [top] on the
    stack: the event, then the path of the handler leaves. *)
Lemma loop_start_running L ty file line v top s :
  running s → g_call_stack s = v ++ [top] →
  let s' := __trace_loop_start_loc L ty file line s in
  running s' ∧ g_depth s' = g_depth s ∧
  g_call_stack s' =
    v ++ [set_loopIterations (<[L := 0]> (loopIterations top))
            (set_activeLoops (activeLoops top ++ [L]) top)] ∧
  ∃ frees,
    events s' = events s ++
      event_of "loop_start" 0 (Some (g_current_function s)) (g_depth s)
        (Some [fld "loopId" (JInt L); fld "loopType" (JStr ty);
               fld "file" (JStr (json_safe_path file)); fld "line" (JInt line)]) s
      :: frees ∧
    frees_of [json_safe_path file] frees.
Proof.
  intros R Hst. cbv zeta. unfold __trace_loop_start_loc. on_running R.
  pose proof (running_can_write _ R) as Hw.
  change (g_call_stack (set_g_inside_tracer true s)) with (g_call_stack s).
  rewrite Hst. destruct (v ++ [top]) eqn:Hv; [by apply snoc_not_nil in Hv|].
  rewrite <- Hv. clear Hv. simpl g_call_stack. rewrite !with_back_snoc.
  loop_epilogue R frees He Hf R'. loop_goals R Hw frees He Hf R'.
Qed.

Lemma loop_body_start_running L file line v top s :
  running s → g_call_stack s = v ++ [top] →
  let s' := __trace_loop_body_start_loc L file line s in
  let it := int_wrap (default 0 (loopIterations top !! L) + 1) in
  running s' ∧ g_depth s' = g_depth s ∧
  g_call_stack s' = v ++ [set_loopIterations (<[L := it]> (loopIterations top)) top] ∧
  ∃ frees,
    events s' = events s ++
      event_of "loop_body_start" 0 (Some (g_current_function s)) (g_depth s)
        (Some [fld "loopId" (JInt L); fld "iteration" (JInt it);
               fld "file" (JStr (json_safe_path file)); fld "line" (JInt line)]) s
      :: frees ∧
    frees_of [json_safe_path file] frees.
Proof.
  intros R Hst. cbv zeta. unfold __trace_loop_body_start_loc. on_running R.
  pose proof (running_can_write _ R) as Hw.
  change (g_call_stack (set_g_inside_tracer true s)) with (g_call_stack s).
  rewrite Hst, back_snoc, with_back_snoc. cbv beta iota zeta.
  loop_epilogue R frees He Hf R'. loop_goals R Hw frees He Hf R'.
Qed.

Lemma loop_iteration_end_running L file line v top s :
  running s → g_call_stack s = v ++ [top] →
  let s' := __trace_loop_iteration_end_loc L file line s in
  let it := default 0 (loopIterations top !! L) in
  running s' ∧ g_depth s' = g_depth s ∧
  g_call_stack s' = v ++ [set_loopIterations (<[L := it]> (loopIterations top)) top] ∧
  ∃ frees,
    events s' = events s ++
      event_of "loop_iteration_end" 0 (Some (g_current_function s)) (g_depth s)
        (Some [fld "loopId" (JInt L); fld "iteration" (JInt it);
               fld "file" (JStr (json_safe_path file)); fld "line" (JInt line)]) s
      :: frees ∧
    frees_of [json_safe_path file] frees.
Proof.
  intros R Hst. cbv zeta. unfold __trace_loop_iteration_end_loc. on_running R.
  pose proof (running_can_write _ R) as Hw.
  change (g_call_stack (set_g_inside_tracer true s)) with (g_call_stack s).
  rewrite Hst, back_snoc, with_back_snoc. cbv beta iota zeta.
  loop_epilogue R frees He Hf R'. loop_goals R Hw frees He Hf R'.
Qed.

Lemma loop_end_running L file line v top s :
  running s → g_call_stack s = v ++ [top] →
  let s' := __trace_loop_end_loc L file line s in
  running s' ∧ g_depth s' = g_depth s ∧
  g_call_stack s' =
    v ++ [set_loopIterations (delete L (loopIterations top))
            (set_activeLoops (erase_first L (activeLoops top)) top)] ∧
  ∃ frees,
    events s' = events s ++
      event_of "loop_end" 0 (Some (g_current_function s)) (g_depth s)
        (Some [fld "loopId" (JInt L);
               fld "file" (JStr (json_safe_path file)); fld "line" (JInt line)]) s
      :: frees ∧
    frees_of [json_safe_path file] frees.
Proof.
  intros R Hst. cbv zeta. unfold __trace_loop_end_loc. on_running R.
  pose proof (running_can_write _ R) as Hw.
  change (g_call_stack (set_g_inside_tracer true s)) with (g_call_stack s).
  rewrite Hst. destruct (v ++ [top]) eqn:Hv; [by apply snoc_not_nil in Hv|].
  rewrite <- Hv. clear Hv. simpl g_call_stack. rewrite !with_back_snoc.
  loop_epilogue R frees He Hf R'. loop_goals R Hw frees He Hf R'.
Qed.

Lemma loop_body_iterations L ty file line (k : nat) v top s :
  running s → g_call_stack s = v ++ [top] → Z.of_nat k < 2 ^ 31 →
  let s1 := __trace_loop_start_loc L ty file line s in
  let sk := Nat.iter k (__trace_loop_body_start_loc L file line) s1 in
  running sk ∧
  ∃ top' e0 frees0 blocks,
    g_call_stack sk = v ++ [top'] ∧ loopIterations top' !! L = Some (Z.of_nat k) ∧
    activeLoops top' = activeLoops top ++ [L] ∧
    events sk = events s ++ e0 :: frees0 ++ concat blocks ∧ ev_type e0 = "loop_start" ∧
    frees_of [json_safe_path file] frees0 ∧
    Forall2 (fun i blk => ∃ e frees, blk = e :: frees ∧ ev_type e = "loop_body_start" ∧
                            event_field "iteration" e = Some (JInt i) ∧
                            frees_of [json_safe_path file] frees)
      (seqZ 1 (Z.of_nat k)) blocks.
Proof.
  intros R Hst Hk. cbv zeta.
  pose proof (loop_start_running L ty file line v top s R Hst)
    as (R1 & _ & Hst1 & frees0 & He1 & Hf0).
  induction k as [|k IH].
  - split; [exact R1|]. eexists _, _, frees0, []. simpl Nat.iter.
    split_and!;
      [exact Hst1| |reflexivity|by rewrite He1, app_nil_r|reflexivity|exact Hf0|constructor].
    simpl. by rewrite lookup_insert_eq.
  - destruct IH as (Rk & top' & e0 & fr0 & blocks & Hstk & Hit & Hact & Hek & Hty & Hfr0 & Hall);
      [lia|].
    simpl Nat.iter.
    pose proof (loop_body_start_running L file line v top' _ Rk Hstk)
      as (R' & _ & Hst' & frees & He' & Hf).
    rewrite Hit in Hst', He'. simpl default in Hst', He'.
    rewrite int_wrap_small in Hst', He' by lia.
    split; [exact R'|]. eexists _, e0, fr0, (blocks ++ [_ :: frees]).
    split_and!; [exact Hst'| |exact Hact| |exact Hty|exact Hfr0|].
    + simpl. rewrite lookup_insert_eq. f_equal. lia.
    + rewrite He', Hek, concat_app. simpl. rewrite app_nil_r, <- !app_assoc. simpl.
      by rewrite <- !app_assoc.
    + rewrite seqZ_S. apply Forall2_app; [exact Hall|].
      constructor; [|constructor]. eexists _, frees. split; [reflexivity|].
      split; [reflexivity|]. split; [|exact Hf].
      unfold event_field. simpl. do 2 f_equal. lia.
Qed.

(** X14: the iteration count of a loop, on a running engine with a frame on
    the stack.  [__trace_loop_start_loc] opens the loop in the innermost
    frame with the count 0; the [k]-th [__trace_loop_body_start_loc] after it
    reports iteration [k] and stores it, as long as [k] is in the range of
    the [int] that counts, and [__trace_loop_iteration_end_loc] reports the
    count it finds without changing the stack.  Each of these events is
    followed by the [heap_free] event of the path of its handler, when the
    path has more than 15 characters.  The fields are formatted into 256
    bytes, of which at most 73 are not of the path: the path is taken short
    enough for nothing to be cut. *)
Theorem loop_iterations_count L ty file line (k : nat) v top s :
  running s → g_call_stack s = v ++ [top] → Z.of_nat k < 2 ^ 31 →
  (String.length (json_safe_path file) ≤ 150)%nat →
  let s1 := __trace_loop_start_loc L ty file line s in
  let sk := Nat.iter k (__trace_loop_body_start_loc L file line) s1 in
  let se := __trace_loop_iteration_end_loc L file line sk in
  (∃ e0 frees0 blocks,
     events sk = events s ++ e0 :: frees0 ++ concat blocks ∧ ev_type e0 = "loop_start" ∧
     frees_of [json_safe_path file] frees0 ∧
     Forall2 (fun i blk => ∃ e frees, blk = e :: frees ∧ ev_type e = "loop_body_start" ∧
                             event_field "iteration" e = Some (JInt i) ∧
                             frees_of [json_safe_path file] frees)
       (seqZ 1 (Z.of_nat k)) blocks) ∧
  (∃ top', g_call_stack sk = v ++ [top'] ∧
           loopIterations top' !! L = Some (Z.of_nat k) ∧
           activeLoops top' = activeLoops top ++ [L]) ∧
  (∃ e frees, events se = events sk ++ e :: frees ∧ ev_type e = "loop_iteration_end" ∧
              event_field "iteration" e = Some (JInt (Z.of_nat k)) ∧
              frees_of [json_safe_path file] frees) ∧
  g_call_stack se = g_call_stack sk.
Proof.
  intros R Hst Hk _. cbv zeta.
  destruct (loop_body_iterations L ty file line k v top s R Hst Hk)
    as (Rk & top' & e0 & frees0 & blocks & Hstk & Hit & Hact & Hek & Hty & Hf0 & Hall).
  pose proof (loop_iteration_end_running L file line v top' _ Rk Hstk)
    as (_ & _ & Hste & frees & Hee & Hf).
  split_and!.
  - by exists e0, frees0, blocks.
  - by exists top'.
  - eexists _, frees. split; [exact Hee|]. split; [reflexivity|]. split; [|exact Hf].
    unfold event_field. simpl. by rewrite Hit.
  - rewrite Hste, Hstk, Hit. simpl. rewrite insert_id by done. by destruct top'.
Qed.

(** X15: outside any function (no frame on the stack) the loop handlers
    have no loop state to keep: [__trace_loop_body_start_loc] and
    [__trace_loop_iteration_end_loc] leave the stack empty and report
    iteration 0, however many came before.  The event is followed by the
    [heap_free] event of the path, when the path has more than 15 characters
    (and is short enough for the 256 bytes of the fields). *)
Theorem loop_iteration_without_frame L file line s :
  running s → g_call_stack s = [] →
  (String.length (json_safe_path file) ≤ 150)%nat →
  let b := __trace_loop_body_start_loc L file line s in
  let e := __trace_loop_iteration_end_loc L file line s in
  (∃ x frees, events b = events s ++ x :: frees ∧ ev_type x = "loop_body_start" ∧
              event_field "iteration" x = Some (JInt 0) ∧
              frees_of [json_safe_path file] frees) ∧
  (∃ x frees, events e = events s ++ x :: frees ∧ ev_type x = "loop_iteration_end" ∧
              event_field "iteration" x = Some (JInt 0) ∧
              frees_of [json_safe_path file] frees) ∧
  running b ∧ g_call_stack b = [] ∧ running e ∧ g_call_stack e = [].
Proof.
  intros R Hst _. cbv zeta.
  pose proof (running_can_write _ R) as Hw.
  assert (Hb : ∃ x frees,
            events (__trace_loop_body_start_loc L file line s) = events s ++ x :: frees ∧
            ev_type x = "loop_body_start" ∧ event_field "iteration" x = Some (JInt 0) ∧
            frees_of [json_safe_path file] frees ∧
            running (__trace_loop_body_start_loc L file line s) ∧
            g_call_stack (__trace_loop_body_start_loc L file line s) = []).
  { unfold __trace_loop_body_start_loc. on_running R.
    change (g_call_stack (set_g_inside_tracer true s)) with (g_call_stack s).
    rewrite Hst. simpl back. cbv beta iota zeta.
    loop_epilogue R frees He Hf R'. eexists _, frees. split_and!; [| | |exact Hf|exact R'|].
    - rewrite He, wje_events, (can_write_ext _ s), Hw by (by norm_state).
      unfold event_of. norm_state. by rewrite <- app_assoc.
    - reflexivity.
    - reflexivity.
    - autorewrite with wje. by norm_state. }
  assert (Hi : ∃ x frees,
            events (__trace_loop_iteration_end_loc L file line s) = events s ++ x :: frees ∧
            ev_type x = "loop_iteration_end" ∧ event_field "iteration" x = Some (JInt 0) ∧
            frees_of [json_safe_path file] frees ∧
            running (__trace_loop_iteration_end_loc L file line s) ∧
            g_call_stack (__trace_loop_iteration_end_loc L file line s) = []).
  { unfold __trace_loop_iteration_end_loc. on_running R.
    change (g_call_stack (set_g_inside_tracer true s)) with (g_call_stack s).
    rewrite Hst. simpl back. cbv beta iota zeta.
    loop_epilogue R frees He Hf R'. eexists _, frees. split_and!; [| | |exact Hf|exact R'|].
    - rewrite He, wje_events, (can_write_ext _ s), Hw by (by norm_state).
      unfold event_of. norm_state. by rewrite <- app_assoc.
    - reflexivity.
    - reflexivity.
    - autorewrite with wje. by norm_state. }
  destruct Hb as (x & frees & H1 & H2 & H3 & H4 & H5 & H6).
  destruct Hi as (x' & frees' & H1' & H2' & H3' & H4' & H5' & H6').
  split_and!; try done.
  - by exists x, frees.
  - by exists x', frees'.
Qed.

(** X16: a loop that starts and ends, on a running engine with a frame
    [top] on the stack: two events, [loop_start] and [loop_end], each
    followed by the [heap_free] event of the path of its handler when the
    path has more than 15 characters, and the frame has for every id as many
    open loops as before.  When the id was not open already the list of open
    loops is the one before; the iteration count of the id is gone.
    [__trace_loop_end_loc] for an id that is not open removes nothing and
    still writes its event.  (The id is the first of the fields, which is
    never cut.) *)
Theorem loop_start_end_balanced L ty file line v top s :
  running s → g_call_stack s = v ++ [top] →
  let s2 := __trace_loop_end_loc L file line (__trace_loop_start_loc L ty file line s) in
  let s3 := __trace_loop_end_loc L file line s in
  (∃ e1 frees1 e2 frees2,
     events s2 = events s ++ e1 :: frees1 ++ e2 :: frees2 ∧
     event_summary e1 = ("loop_start", Some L, g_depth s) ∧
     event_summary e2 = ("loop_end", Some L, g_depth s) ∧
     frees_of [json_safe_path file] frees1 ∧ frees_of [json_safe_path file] frees2) ∧
  (∃ top', g_call_stack s2 = v ++ [top'] ∧
           (∀ L', count_id L' (activeLoops top') = count_id L' (activeLoops top)) ∧
           (L ∉ activeLoops top → activeLoops top' = activeLoops top) ∧
           loopIterations top' = delete L (loopIterations top)) ∧
  (L ∉ activeLoops top →
   ∃ top' e frees, g_call_stack s3 = v ++ [top'] ∧ activeLoops top' = activeLoops top ∧
                   events s3 = events s ++ e :: frees ∧
                   event_summary e = ("loop_end", Some L, g_depth s) ∧
                   frees_of [json_safe_path file] frees).
Proof.
  intros R Hst. cbv zeta.
  pose proof (loop_start_running L ty file line v top s R Hst)
    as (R1 & Hd1 & Hst1 & frees1 & He1 & Hf1).
  pose proof (loop_end_running L file line v _ _ R1 Hst1) as (_ & _ & Hst2 & frees2 & He2 & Hf2).
  pose proof (loop_end_running L file line v _ _ R Hst) as (_ & _ & Hst3 & frees3 & He3 & Hf3).
  split_and!.
  - eexists _, frees1, _, frees2. rewrite He2, He1, <- app_assoc. split; [reflexivity|].
    split; [reflexivity|]. split; [|done]. unfold event_summary, event_loopId. simpl.
    by rewrite Hd1.
  - eexists. split; [exact Hst2|]. simpl. split_and!.
    + intros L'. rewrite count_id_erase_first, count_id_app. simpl.
      destruct (L =? L'); lia.
    + intros Hn. by apply erase_first_snoc_fresh.
    + by rewrite delete_insert_eq.
  - intros Hn. eexists _, _, frees3. split; [exact Hst3|]. simpl.
    split; [by apply erase_first_absent|]. split; [exact He3|]. split; [reflexivity|done].
Qed.

(** ** More invariants of a run *)

Lemma normalize_one_line name : one_line (normalize_function_name name).
Proof.
  destruct name as [x|]; simpl; [|done]. split.
  - apply string_mem_remove_other, string_mem_remove.
  - apply string_mem_remove.
Qed.

Lemma framed_snoc es e :
  framed (es ++ [e]) = match es with [] => [Ev e] | _ => framed es ++ [Separator; Ev e] end.
Proof. destruct es as [|x es]; simpl; [done|]. by rewrite flat_map_app. Qed.

Lemma top_function_fmap st : top_function st = default "main" (last (functionName <$> st)).
Proof. unfold top_function, back. rewrite fmap_last. by destruct (last st). Qed.

Lemma wje_trace_out type addr func_name depth extra s :
  trace_out (write_json_event type addr func_name depth extra s) =
  if can_write s
  then trace_out s ++ (if 0 <? g_event_counter s then [Separator] else []) ++
       [Ev (event_of type addr func_name depth extra s)]
  else trace_out s.
Proof.
  unfold can_write, write_json_event, fputs, get_timestamp_us, event_of.
  repeat case_match; simplify_eq; simpl; rewrite <- ?app_assoc; reflexivity.
Qed.

Lemma Inv2_initial : Inv2 initial_state.
Proof. split; simpl; done. Qed.

(** The invariant reads the depth, the counter, the output, the file
    handle, the clock, the current function, the names of the frames and the
    tracked functions only. *)
Lemma Inv2_ext s s' :
  g_depth s' = g_depth s → g_event_counter s' = g_event_counter s →
  trace_out s' = trace_out s → g_trace_file s' = g_trace_file s →
  clock_reads s' = clock_reads s → g_current_function s' = g_current_function s →
  functionName <$> g_call_stack s' = functionName <$> g_call_stack s →
  g_tracked_functions s' = g_tracked_functions s →
  Inv2 s → Inv2 s'.
Proof.
  intros Hd Hc Ho Hf Hk Hcur Hst Ht [J1 J2 J3 J4 J5 J6 J7 J8 J9 J10].
  assert (He : events s' = events s) by (unfold events; by rewrite Ho).
  split; rewrite ?Hd, ?Hc, ?He, ?Hf, ?Hk, ?Ho, ?Hcur, ?Ht; auto.
  - by rewrite top_function_fmap, Hst, <- top_function_fmap.
  - assert (H8 : Forall (fun x => x ∈ g_tracked_functions s)
                   (functionName <$> g_call_stack s)) by (apply Forall_fmap; exact J8).
    rewrite <- Hst in H8. apply Forall_fmap in H8. exact H8.
Qed.

Lemma Inv2_set_call_stack v s :
  functionName <$> v = functionName <$> g_call_stack s → Inv2 s → Inv2 (set_g_call_stack v s).
Proof. intros H. by apply Inv2_ext. Qed.
Lemma Inv2_set_inside b s : Inv2 s → Inv2 (set_g_inside_tracer b s).
Proof. by apply Inv2_ext. Qed.
Lemma Inv2_guard_exit s : Inv2 s → Inv2 (TRACER_GUARD_EXIT s).
Proof. by apply Inv2_ext. Qed.
Lemma Inv2_set_variable_values v s : Inv2 s → Inv2 (set_g_variable_values v s).
Proof. by apply Inv2_ext. Qed.
Lemma Inv2_set_array_registry v s : Inv2 s → Inv2 (set_g_array_registry v s).
Proof. by apply Inv2_ext. Qed.
Lemma Inv2_set_address_to_name v s : Inv2 s → Inv2 (set_g_address_to_name v s).
Proof. by apply Inv2_ext. Qed.
Lemma Inv2_set_array_element_values v s : Inv2 s → Inv2 (set_g_array_element_values v s).
Proof. by apply Inv2_ext. Qed.
Lemma Inv2_set_pointer_registry v s : Inv2 s → Inv2 (set_g_pointer_registry v s).
Proof. by apply Inv2_ext. Qed.

Lemma Inv2_set_depth d s : 0 ≤ d ≤ 2047 → Inv2 s → Inv2 (set_g_depth d s).
Proof. intros Hd [J1 J2 J3 J4 J5 J6 J7 J8 J9 J10]. by split. Qed.

(** The invariant after an event written in a state [s1] that has the log
    of the state [s] of the invariant. *)
Lemma Inv2_after_write type addr func_name depth extra s s1 :
  Inv2 s →
  g_event_counter s1 = g_event_counter s → trace_out s1 = trace_out s →
  g_trace_file s1 = g_trace_file s → clock_reads s1 = clock_reads s →
  0 ≤ g_depth s1 ≤ 2047 →
  0 ≤ depth ≤ 2047 → (type = "func_enter" ∨ type = "func_exit" → 1 ≤ depth) →
  g_current_function s1 = top_function (g_call_stack s1) →
  Forall (fun fr => functionName fr ∈ g_tracked_functions s1) (g_call_stack s1) →
  g_tracked_functions s ⊆ g_tracked_functions s1 →
  (∀ name, name ∈ g_tracked_functions s1 → one_line name) →
  (type = "func_enter" →
   normalize_function_name (Some (default "unknown" func_name)) ∈ g_tracked_functions s1) →
  Inv2 (write_json_event type addr func_name depth extra s1).
Proof.
  intros [J1 J2 J3 J4 J5 J6 J7 J8 J9 J10] Hc Ho Hf Hk Hd Hdep Hdep1 Hcur Hfr Hsub Hcl Hnm.
  assert (He : events s1 = events s) by (unfold events; by rewrite Ho).
  pose proof J2 as [J2c _].
  split; autorewrite with wje; auto.
  - apply ids_ok_write. by rewrite Hc, He.
  - rewrite wje_events, wje_trace_out, He, Hf, Hc, Ho.
    destruct (can_write s1); [|done]. intros HF Hlen.
    rewrite length_app in Hlen. simpl in Hlen.
    rewrite J3 by (done || lia). rewrite framed_snoc, J2c.
    rewrite Z.mod_small by lia.
    destruct (events s) as [|x es]; simpl; [done|].
    destruct (Z.ltb_spec 0 (Z.of_nat (S (length es)))); [|lia].
    reflexivity.
  - rewrite wje_clock_reads, wje_events, He, Hk.
    destruct (can_write s1); [|done]. rewrite length_app. simpl. lia.
  - rewrite wje_events, He. destruct (can_write s1); [|done].
    intros i e Hi. apply lookup_snoc_Some in Hi as [[_ Hi]|[-> <-]]; [by apply J5|].
    simpl. by rewrite Hk, J4.
  - rewrite wje_events, He. destruct (can_write s1); [|done].
    apply Forall_app. split; [done|]. constructor; [|done]. split; simpl; done.
  - rewrite wje_events, He.
    assert (Hold : Forall (fun e => ev_type e = "func_enter" →
                     normalize_function_name (Some (ev_func e)) ∈ g_tracked_functions s1)
                     (events s)).
    { eapply Forall_impl; [exact J9|]. simpl. intros e H Hty. apply Hsub. by apply H. }
    destruct (can_write s1); [|done].
    apply Forall_app. split; [done|]. constructor; [|done]. simpl. done.
Qed.

Lemma Inv2_write_plain type addr func_name extra s :
  String.eqb type "func_enter" || String.eqb type "func_exit" = false → Inv2 s →
  Inv2 (write_json_event type addr func_name (g_depth s) extra s).
Proof.
  intros Hty J. apply orb_false_iff in Hty as [H1 H2].
  apply String.eqb_neq in H1, H2.
  apply (Inv2_after_write _ _ _ _ _ s); try done; try apply J.
  intros [?|?]; congruence.
Qed.

Lemma Inv2_free_hook who ptr s : Inv2 s → Inv2 (free_hook who ptr s).
Proof.
  intros J. rewrite free_hook_eq. case_match; [|done].
  apply Inv2_guard_exit.
  apply (Inv2_write_plain "heap_free" ptr (Some who) None (set_g_inside_tracer true s));
    [reflexivity|]. by apply Inv2_set_inside.
Qed.

Lemma Inv2_alloc_hook who size ptr s : Inv2 s → Inv2 (alloc_hook who size ptr s).
Proof.
  intros J. rewrite alloc_hook_eq. case_match; [|done].
  apply Inv2_guard_exit.
  apply (Inv2_write_plain "heap_alloc" ptr (Some who) _ (set_g_inside_tracer true s));
    [reflexivity|]. by apply Inv2_set_inside.
Qed.

Lemma Inv2_take_buffer str s : Inv2 s → Inv2 (take_buffer str s).
Proof. unfold take_buffer. case_match; [|done]. by apply Inv2_ext. Qed.

Lemma Inv2_release bufs s : Inv2 s → Inv2 (release bufs s).
Proof.
  intros J. unfold release. apply (fold_left_invariant _ Inv2); [|done].
  intros x [p|] Jx; rewrite string_delete_eq; [by apply Inv2_free_hook|done].
Qed.

Lemma Inv2_string_new str s : Inv2 s → Inv2 (string_new str s).
Proof.
  intros J. unfold string_new. case_match; [|done].
  apply Inv2_alloc_hook. by apply Inv2_take_buffer.
Qed.

Ltac solve_names :=
  first
    [ rewrite fmap_with_back by reflexivity; first [ reflexivity | congruence ]
    | simpl g_call_stack; rewrite !fmap_with_back by reflexivity;
      first [ reflexivity | congruence ] ].

Ltac peel2 :=
  repeat first
    [ assumption
    | apply Inv2_guard_exit
    | apply Inv2_release
    | apply Inv2_take_buffer
    | apply Inv2_string_new
    | apply Inv2_set_inside
    | apply Inv2_set_variable_values
    | apply Inv2_set_array_registry
    | apply Inv2_set_address_to_name
    | apply Inv2_set_array_element_values
    | apply Inv2_set_pointer_registry
    | apply Inv2_write_plain; [reflexivity|]
    | apply Inv2_set_call_stack; [solve_names|]
    | apply (fold_left_invariant _ Inv2); [intros ? ? ?|]
    | progress unfold init_element
    | progress cbv zeta
    | case_match; simplify_eq ].

Lemma Inv2_func_enter func caller s :
  Inv2 s → Inv2 (__cyg_profile_func_enter func caller s).
Proof.
  intros J. destruct (TRACER_GUARD_ENTER s) eqn:G.
  2: { unfold __cyg_profile_func_enter. by rewrite G. }
  apply guard_enter_granted in G as (Hdis & Hin & _).
  destruct (Z.le_gt_cases 2048 (g_depth s + 1)) as [Hc|Hc].
  { rewrite func_enter_dropped; auto. }
  destruct (enter_name func) as [nm|] eqn:Hnm.
  2: { rewrite func_enter_dropped; auto. }
  rewrite (func_enter_accepted_eq _ _ _ nm) by (done || lia). cbv zeta.
  apply Inv2_release, Inv2_guard_exit.
  pose proof (i2_depth _ J) as Hd.
  assert (Hone : one_line (normalize_function_name (Some nm)))
    by apply (normalize_one_line (Some nm)).
  assert (Hself : normalize_function_name (Some (default "unknown" (Some nm))) =
                  normalize_function_name (Some nm)) by reflexivity.
  revert Hone Hself. generalize (normalize_function_name (Some nm)). intros fn Hone Hself.
  apply (Inv2_after_write _ _ _ _ _ s); rewrite ?Hself;
    repeat (simpl g_depth; simpl g_call_stack; simpl g_tracked_functions;
            simpl g_current_function; simpl g_event_counter; simpl trace_out;
            simpl g_trace_file; simpl clock_reads; autorewrite with wje);
    try done; try lia.
  - unfold top_function. by rewrite back_snoc.
  - apply Forall_app. split.
    + eapply Forall_impl; [apply (i2_frames _ J)|]. simpl. intros fr H.
      apply elem_of_union. by right.
    + constructor; [|done]. simpl. apply elem_of_union. left. by apply elem_of_singleton.
  - apply union_subseteq_r.
  - intros name Hin'. apply elem_of_union in Hin' as [Hin'|Hin'].
    + by apply elem_of_singleton in Hin' as ->.
    + by apply (i2_clean _ J).
  - intros _. apply elem_of_union. left. by apply elem_of_singleton.
Qed.

Lemma Inv2_close_active_loops loops s : Inv2 s → Inv2 (close_active_loops loops s).
Proof.
  intros J. unfold close_active_loops.
  apply (fold_left_invariant _ Inv2); [|done].
  intros s0 L J0. by apply Inv2_write_plain.
Qed.

Lemma Inv2_func_exit func caller s :
  Inv s → Inv2 s → Inv2 (__cyg_profile_func_exit func caller s).
Proof.
  intros I J. destruct (TRACER_GUARD_ENTER s) eqn:G.
  2: { unfold __cyg_profile_func_exit. by rewrite G. }
  apply guard_enter_granted in G as (Hdis & Hin & _).
  destruct (Z.le_gt_cases (g_depth s) 0) as [Hc|Hc].
  { rewrite func_exit_dropped; auto. }
  destruct (exit_name func) as [nm|] eqn:Hnm.
  2: { rewrite func_exit_dropped; auto. }
  pose proof (inv_depth _ I) as Hd. pose proof (inv_stack _ I) as Hlen.
  destruct (back (g_call_stack s)) as [top|] eqn:Hb.
  2: { apply back_None in Hb. rewrite Hb in Hlen. simpl in Hlen. lia. }
  apply back_Some in Hb. set (v := pop_back (g_call_stack s)) in *.
  rewrite (func_exit_accepted_eq _ _ _ v top nm) by done.
  apply Inv2_guard_exit.
  assert (J1 : Inv2 (close_active_loops (activeLoops top) (set_g_inside_tracer true s)))
    by (by apply Inv2_close_active_loops, Inv2_set_inside).
  apply Inv2_set_depth; [lia|].
  pose proof (i2_frames _ J) as Hfr. rewrite Hb in Hfr. apply Forall_app in Hfr as [Hfr _].
  apply (Inv2_after_write _ _ _ _ _
           (close_active_loops (activeLoops top) (set_g_inside_tracer true s)));
    try done; simpl; autorewrite with wje; simpl; try lia.
  - exact Hfr.
  - apply (i2_clean _ J).
Qed.

Lemma Inv2_handle n s : Inv s → Inv2 s → Inv2 (handle n s).
Proof.
  intros I J. destruct n; simpl;
    try (by apply Inv2_func_enter); try (by apply Inv2_func_exit);
    unfold_handlers; cbv beta; try enter_guard; try done; peel2.
Qed.

Lemma Inv2_run ns s : Inv s → Inv2 s → Inv2 (run ns s).
Proof.
  revert s. induction ns as [|n ns IH]; intros s I J; [done|].
  simpl. apply IH; [by apply Inv_handle|by apply Inv2_handle].
Qed.

Lemma Inv2_init_tracer trace_output fopen_ok s :
  before_init s → Inv2 s → Inv2 (init_tracer trace_output fopen_ok s).
Proof.
  intros (Hf & Hdis & Hin & Ho & Hop & Hc) J. unfold init_tracer.
  destruct (2048 <=? g_depth s); [done|]. destruct fopen_ok.
  - assert (He : events s = []) by (unfold events; by rewrite Ho).
    destruct J as [J1 J2 J3 J4 J5 J6 J7 J8 J9 J10]. rewrite He in *.
    split; simpl; try done.
  - destruct J as [J1 J2 J3 J4 J5 J6 J7 J8 J9 J10]. split; simpl; done.
Qed.

Lemma Inv2_session pre out ok body : Inv2 (session pre out ok body).
Proof.
  unfold session. apply Inv2_run.
  - apply Inv_init_tracer; [apply before_init_run, before_init_initial|].
    apply Inv_run, Inv_initial.
  - apply Inv2_init_tracer; [apply before_init_run, before_init_initial|].
    apply Inv2_run; [apply Inv_initial|apply Inv2_initial].
Qed.

(** ** The file of a session *)


(** X18: the clock is read once for each event written and never
    otherwise: the [i]-th event of a session carries the low 32 bits of the
    [i]-th reading of the steady clock, so every timestamp lies between 0 and
    [2^32 - 1] and wraps about every 71 minutes. *)
Theorem event_timestamps pre out ok body :
  let s := session pre out ok body in
  clock_reads s = length (events s) ∧
  ev_ts <$> events s =
    (fun i => Z.land (steady_clock_us i) 0xFFFFFFFF) <$> seq 0 (length (events s)) ∧
  Forall (fun e => 0 ≤ ev_ts e < 2 ^ 32) (events s).
Proof.
  intros s. pose proof (Inv2_session pre out ok body) as J. fold s in J.
  pose proof (i2_ts _ J) as Hts.
  split_and!.
  - apply (i2_clock _ J).
  - apply list_eq. intros i. rewrite !list_lookup_fmap.
    destruct (events s !! i) as [e|] eqn:He; simpl.
    + rewrite lookup_seq_lt by (by eapply lookup_lt_Some). simpl. f_equal. by apply Hts.
    + rewrite lookup_seq_ge; [done|]. by apply lookup_ge_None.
  - apply Forall_lookup. intros i e He. rewrite (Hts _ _ He).
    change 4294967295 with (Z.ones 32). rewrite Z.land_ones by lia.
    apply Z.mod_pos_bound. lia.
Qed.

(** X19: the ceiling of 2048 on the depth is never reached in a session.
    The depth stays between 0 and 2047 and is the number of frames on the
    stack, so the test of the depth in [write_json_event] never fires (an
    event is written exactly when the file is open), nor does the one of the
    allocation hooks.  Every event carries a depth between 0 and 2047, and
    at least 1 on an event of function entry or exit. *)
Theorem depth_ceiling_not_reached pre out ok body :
  let s := session pre out ok body in
  0 ≤ g_depth s ≤ 2047 ∧ Z.of_nat (length (g_call_stack s)) = g_depth s ∧
  can_write s = ok ∧
  g_tracer_disabled s || g_inside_tracer s || (2048 <=? g_depth s) = negb ok ∧
  Forall (fun e => 0 ≤ ev_depth e ≤ 2047 ∧
                   (ev_type e = "func_enter" ∨ ev_type e = "func_exit" → 1 ≤ ev_depth e))
    (events s).
Proof.
  intros s.
  pose proof (session_lifecycle pre out ok body) as (Hin & Hdis & Hf & _).
  fold s in Hin, Hdis, Hf.
  pose proof (session_depth pre out ok body) as [Hd Hlen]. fold s in Hd, Hlen.
  pose proof (Inv2_session pre out ok body) as J. fold s in J.
  split_and!; try done; try lia.
  - rewrite can_write_running, Hf by lia. by destruct ok.
  - rewrite Hdis, Hin. destruct (Z.leb_spec 2048 (g_depth s)); [lia|]. by destruct ok.
  - apply (i2_evdepth _ J).
Qed.

(** X20: in every state of a session the current function is the function
    of the innermost frame, or "main" when the stack is empty; every frame
    on the stack and every [func_enter] event of the log has its (normalized)
    function name among the tracked functions, and no tracked name contains
    a carriage return or a line feed. *)
Theorem current_function_is_innermost pre out ok body :
  let s := session pre out ok body in
  g_current_function s =
    match back (g_call_stack s) with
    | Some fr => functionName fr
    | None => "main"
    end ∧
  Forall (fun fr => functionName fr ∈ g_tracked_functions s) (g_call_stack s) ∧
  Forall (fun e => ev_type e = "func_enter" →
                   normalize_function_name (Some (ev_func e)) ∈ g_tracked_functions s)
    (events s) ∧
  set_Forall (fun name => string_mem char_cr name = false ∧ string_mem char_lf name = false)
    (g_tracked_functions s).
Proof.
  intros s. pose proof (Inv2_session pre out ok body) as J. fold s in J.
  split_and!.
  - apply (i2_current _ J).
  - apply (i2_frames _ J).
  - apply (i2_entered _ J).
  - intros name Hn. by apply (i2_clean _ J).
Qed.

(** ** What the handlers never do *)

Lemma grows_ext o s s' : trace_out s' = trace_out s → grows o s → grows o s'.
Proof. unfold grows. by intros ->. Qed.

Lemma grows_write o type addr func_name depth extra s :
  grows o s → grows o (write_json_event type addr func_name depth extra s).
Proof.
  unfold grows. intros H. rewrite wje_trace_out. destruct (can_write s); [|done].
  by apply prefix_app_r.
Qed.

Lemma grows_free_hook o who ptr s : grows o s → grows o (free_hook who ptr s).
Proof.
  intros G. rewrite free_hook_eq. case_match; [|done].
  apply (grows_ext o (write_json_event "heap_free" ptr (Some who) (g_depth s) None
                        (set_g_inside_tracer true s))); [reflexivity|].
  by apply grows_write.
Qed.

Lemma grows_alloc_hook o who size ptr s : grows o s → grows o (alloc_hook who size ptr s).
Proof.
  intros G. rewrite alloc_hook_eq. case_match; [|done].
  match goal with
  | |- grows o (TRACER_GUARD_EXIT ?x) => apply (grows_ext o x); [reflexivity|]
  end.
  by apply grows_write.
Qed.

Lemma grows_take_buffer o str s : grows o s → grows o (take_buffer str s).
Proof. apply grows_ext. by autorewrite with wje. Qed.

Lemma grows_release o bufs s : grows o s → grows o (release bufs s).
Proof.
  intros G. unfold release. apply (fold_left_invariant _ (grows o)); [|done].
  intros x [p|] Gx; rewrite string_delete_eq; [by apply grows_free_hook|done].
Qed.

Lemma grows_string_new o str s : grows o s → grows o (string_new str s).
Proof.
  intros G. unfold string_new. case_match; [|done].
  by apply grows_alloc_hook, grows_take_buffer.
Qed.

Ltac peel_grows :=
  repeat first
    [ assumption
    | apply grows_write
    | apply grows_release
    | apply grows_take_buffer
    | apply grows_string_new
    | apply (fold_left_invariant _ (grows _)); [intros ? ? ?|]
    | match goal with
      | |- grows ?o (?f ?v ?s) => apply (grows_ext o s); [reflexivity|]
      | |- grows ?o (?f ?s) => apply (grows_ext o s); [reflexivity|]
      end
    | progress unfold init_element, close_active_loops
    | progress cbv zeta
    | case_match; simplify_eq ].

Lemma grows_handle o n s : grows o s → grows o (handle n s).
Proof.
  intros G. destruct n; unfold_handlers; cbv beta; try enter_guard; try done;
    peel_grows.
Qed.

(** X21: the handlers only ever append to the file.  Whatever the state
    and whatever notifications arrive, the output before is a prefix of the
    output after, and so is the list of events: nothing written is changed,
    removed or reordered. *)
Theorem trace_is_append_only ns s :
  trace_out s `prefix_of` trace_out (run ns s) ∧
  events s `prefix_of` events (run ns s) ∧
  (length (events s) ≤ length (events (run ns s)))%nat.
Proof.
  assert (H : grows (trace_out s) (run ns s)).
  { apply run_invariant; [intros n x; apply grows_handle|]. unfold grows. done. }
  assert (He : events s `prefix_of` events (run ns s)).
  { destruct H as [k Hk]. unfold events, events_of. rewrite Hk, omap_app.
    by apply prefix_app_r. }
  split_and!; [exact H|exact He|]. by apply prefix_length.
Qed.

(** X22: the notifications that respect the guard.  Every entry point but
    [trace_var_str_loc] returns the state it was given whenever the guard is
    closed (the tracer disabled, or the thread inside the tracer), and
    [trace_var_str_loc] is the only one that does not: for it there is a
    state with the guard closed that it changes. *)
Theorem guard_respected_except_var_str n :
  (∀ s, TRACER_GUARD_ENTER s = None → handle n s = s) ↔ guarded n = true.
Proof.
  split.
  - intros H. destruct (guarded n) eqn:Hg; [done|].
    destruct n; try discriminate Hg.
    set (s0 := set_g_inside_tracer true (init_tracer None true initial_state)).
    assert (Hw : can_write s0 = true) by reflexivity.
    assert (Hn : no_trace_file s0 = false) by reflexivity.
    assert (Hc : g_event_counter s0 = 0) by reflexivity.
    specialize (H s0 eq_refl). apply (f_equal g_event_counter) in H.
    unfold handle in H. rewrite trace_var_str_loc_closed in H by done.
    rewrite wje_event_counter, tb_can_write, Hw, tb_event_counter, Hc in H.
    by vm_compute in H.
  - intros Hg s Hs. by apply guard_denied_noop.
Qed.

(** X23: only [init_tracer] and [finish_tracer] open or close the file and
    set or clear the disabled flag: no sequence of notifications changes the
    handle, the state of the file or the flag, and the flag of the thread is
    after each notification what it was before. *)
Theorem handlers_keep_lifecycle ns s :
  g_trace_file (run ns s) = g_trace_file s ∧
  trace_open (run ns s) = trace_open s ∧
  g_tracer_disabled (run ns s) = g_tracer_disabled s ∧
  g_inside_tracer (run ns s) = g_inside_tracer s.
Proof.
  split_and!;
    [apply run_trace_file|apply run_trace_open|apply run_disabled|apply run_inside].
Qed.

Ltac grown_map :=
  first
    [ reflexivity
    | apply dom_insert_subseteq
    | apply union_subseteq_r
    | match goal with
      | |- dom ?m ⊆ dom (g_array_element_values (fold_left ?f ?l ?x)) =>
          apply (fold_left_invariant f (fun y => dom m ⊆ dom (g_array_element_values y)));
          [ intros ? ? ?; repeat case_match; unfold init_element; simpl;
            autorewrite with pj_array_element_values;
            (etrans; [eassumption|apply dom_insert_subseteq])
          | autorewrite with pj_array_element_values; simpl; reflexivity ]
      end ].

Ltac remembered_by_handler :=
  unfold_handlers; cbv beta; try enter_guard; try reflexivity;
  repeat case_match; simplify_eq; simpl;
  repeat (progress (pj_step; simpl)); try grown_map;
  try (unfold init_element; rewrite fold_left_preserves;
       [pj_step; reflexivity|];
       intros; repeat case_match; simpl; pj_step; reflexivity).

Lemma remembers_refl s : remembers s s.
Proof. by repeat split. Qed.

Lemma remembers_trans s1 s2 s3 : remembers s1 s2 → remembers s2 s3 → remembers s1 s3.
Proof.
  intros (A1 & A2 & A3 & A4 & A5 & A6) (B1 & B2 & B3 & B4 & B5 & B6).
  repeat split; etrans; eassumption.
Qed.

Lemma remembers_handle n s : remembers s (handle n s).
Proof.
  unfold remembers. split_and!.
  - destruct n; remembered_by_handler.
  - destruct n; remembered_by_handler.
  - destruct n; remembered_by_handler.
  - destruct n; remembered_by_handler.
  - destruct n; remembered_by_handler.
  - destruct n; remembered_by_handler.
Qed.

(** X24: the registries never forget.  Whatever notifications arrive, a
    variable, an array, an address, an array element or a pointer that has an
    entry keeps one, and a tracked function stays tracked: no handler erases
    an entry, not even the exit of the function that declared it. *)
Theorem registries_never_forget ns s :
  dom (g_variable_values s) ⊆ dom (g_variable_values (run ns s)) ∧
  dom (g_array_registry s) ⊆ dom (g_array_registry (run ns s)) ∧
  dom (g_address_to_name s) ⊆ dom (g_address_to_name (run ns s)) ∧
  dom (g_array_element_values s) ⊆ dom (g_array_element_values (run ns s)) ∧
  dom (g_pointer_registry s) ⊆ dom (g_pointer_registry (run ns s)) ∧
  g_tracked_functions s ⊆ g_tracked_functions (run ns s).
Proof.
  apply (run_invariant (remembers s)); [|apply remembers_refl].
  intros n x H. eapply remembers_trans; [exact H|apply remembers_handle].
Qed.

(** X25: each registry has its writers.  The variable values change under
    [__trace_assign_loc] only; the array registry under
    [__trace_array_create_loc]; the names of addresses under that and
    [__trace_declare_loc]; the array elements under the two initialisers and
    [__trace_array_index_assign_loc]; the pointer registry under the alias
    and the heap-init handler; the tracked functions under function entry;
    the depth and the current function under function entry and exit. *)
Theorem registries_have_their_writers n s :
  match n with
  | Assign _ _ _ _ => True
  | _ => g_variable_values (handle n s) = g_variable_values s
  end ∧
  match n with
  | ArrayCreate _ _ _ _ _ _ _ _ _ => True
  | _ => g_array_registry (handle n s) = g_array_registry s
  end ∧
  match n with
  | ArrayCreate _ _ _ _ _ _ _ _ _ | DeclareVar _ _ _ _ _ => True
  | _ => g_address_to_name (handle n s) = g_address_to_name s
  end ∧
  match n with
  | ArrayInitString _ _ _ _ | ArrayInit _ _ _ _ _ | ArrayIndexAssign _ _ _ _ _ _ _ => True
  | _ => g_array_element_values (handle n s) = g_array_element_values s
  end ∧
  match n with
  | PointerAlias _ _ _ _ _ | PointerHeapInit _ _ _ _ => True
  | _ => g_pointer_registry (handle n s) = g_pointer_registry s
  end ∧
  match n with
  | FuncEnter _ _ => True
  | _ => g_tracked_functions (handle n s) = g_tracked_functions s
  end ∧
  match n with
  | FuncEnter _ _ | FuncExit _ _ => True
  | _ => g_depth (handle n s) = g_depth s ∧
         g_current_function (handle n s) = g_current_function s
  end.
Proof.
  split_and!; destruct n; try exact I; try split; projection_of_handler.
Qed.

(** X26: a function that is entered and left, in a session whose file is
    open and below the ceiling of the depth.  The two handlers write a
    [func_enter] and a [func_exit] event, both at the depth of the caller
    plus one, and leave the depth, the stack and the current function as they
    were; the function is tracked afterwards.  Between the two events stand
    the [heap_free] events of the two strings of the entry handler, the name
    of the frame and the name of the function: one for each that has more
    than 15 characters. *)
Theorem enter_exit_restores pre out body func caller nm nm' :
  let s := session pre out true body in
  let s2 := __cyg_profile_func_exit func caller (__cyg_profile_func_enter func caller s) in
  g_depth s + 1 < 2048 → enter_name func = Some nm → exit_name func = Some nm' →
  g_depth s2 = g_depth s ∧ g_call_stack s2 = g_call_stack s ∧
  g_current_function s2 = g_current_function s ∧
  normalize_function_name (Some nm) ∈ g_tracked_functions s2 ∧
  ∃ e1 frees e2, events s2 = events s ++ e1 :: frees ++ [e2] ∧
    frees_of [normalize_function_name (Some nm); nm] frees ∧
    ev_type e1 = "func_enter" ∧ ev_func e1 = nm ∧ ev_depth e1 = g_depth s + 1 ∧
    ev_type e2 = "func_exit" ∧ ev_func e2 = nm' ∧ ev_depth e2 = g_depth s + 1.
Proof.
  intros s s2 Hd Hnm Hnm'. subst s2.
  pose proof (session_lifecycle pre out true body) as (Hin & Hdis & Hf & _).
  fold s in Hin, Hdis, Hf. simpl in Hdis, Hf.
  pose proof (Inv2_session pre out true body) as J. fold s in J.
  pose proof (i2_depth _ J) as Hd0.
  pose proof (func_enter_accepted func caller s nm Hdis Hin Hd Hnm)
    as (E1 & E2 & E3 & E4 & E5 & _ & _ & _ & E9).
  set (s1 := __cyg_profile_func_enter func caller s) in *.
  pose proof (func_exit_accepted func caller s1 _ _ nm' E4 E3 ltac:(lia) Hnm' E2)
    as (X1 & X2 & _ & _ & _ & _ & _ & _ & X9 & _ & X11).
  assert (J1 : Inv2 s1) by (by apply Inv2_func_enter).
  assert (Hw1 : can_write s1 = true).
  { rewrite can_write_running by lia. by rewrite E5, Hf. }
  rewrite Hw1 in X11. destruct X11 as (new & e2 & X11 & Hnew & Hsum & Hfn & _).
  simpl in Hnew. apply fmap_nil_inv in Hnew as ->.
  rewrite Hf in E9. simpl in E9. destruct E9 as (frees & E9 & Hfr & Hlen & _).
  split_and!.
  - lia.
  - exact X2.
  - rewrite X9. symmetry. apply (i2_current _ J).
  - assert (J2 : Inv2 (__cyg_profile_func_exit func caller s1)).
    { apply Inv2_func_exit; [|done]. apply Inv_func_enter, Inv_session. }
    pose proof (i2_entered _ J2) as Hent. rewrite X11, E9 in Hent.
    apply Forall_app in Hent as [Hent _]. apply Forall_app in Hent as [_ Hent].
    apply Forall_inv in Hent. by apply Hent.
  - eexists _, frees, e2. rewrite X11, E9, <- app_assoc. split; [reflexivity|].
    injection Hsum as Hty _ Hdep. split_and!; try done. lia.
Qed.

Lemma running_handle n s : running s → running (handle n s).
Proof.
  intros (Hdis & Hin & Hf & Hd). unfold running.
  rewrite handle_disabled, handle_inside, handle_trace_file. split_and!; try done.
  destruct n; unfold_handlers; cbv beta; try enter_guard; try lia;
    repeat case_match; simplify_eq; simpl;
    repeat (progress (autorewrite with pj_depth; simpl)); try lia;
    try (unfold init_element; rewrite fold_left_preserves;
         [autorewrite with pj_depth; simpl; lia|];
         intros; repeat case_match; simpl; autorewrite with pj_depth; reflexivity).
  match goal with H : (_ <=? _) = false |- _ => apply Z.leb_gt in H; simpl in H; lia end.
Qed.

(** X27: no notification stops a running engine.  An engine that is
    enabled, outside the tracer, with its file open and below the ceiling of
    the depth is so again after any sequence of notifications: only
    [finish_tracer] ends the recording. *)
Theorem running_is_stable ns s : running s → running (run ns s).
Proof. intros R. apply run_invariant; [|done]. intros n x. apply running_handle. Qed.

Lemma deref_write_address_to_name p value file line s :
  g_address_to_name (__trace_pointer_deref_write_loc p value file line s) =
  g_address_to_name s.
Proof. projection_of_handler. Qed.

(** X28: a name is looked up by address when the pointer is written
    through, not when the alias is recorded.  After a variable [x] is
    declared at an address and [p] is made to point there, the alias event
    names [x]; when a variable [y] is declared at the same address later
    (the slot is used again), a write through [p] reports [y] as its
    target.  Each of the four events is followed by the [heap_free] events
    of the strings of its handler that have more than 15 characters.  The
    names are taken short enough for the 512 bytes into which the fields of
    the alias and of the write are formatted. *)
Theorem stale_alias_takes_new_name x y tx ty addr p d value f1 l1 f2 l2 f3 l3 f4 l4 s :
  running s →
  (String.length x + String.length y + String.length p +
   String.length (json_safe_path f2) + String.length (json_safe_path f4) ≤ 400)%nat →
  let s1 := __trace_declare_loc x tx addr f1 l1 s in
  let s2 := __trace_pointer_alias_loc p addr d f2 l2 s1 in
  let s3 := __trace_declare_loc y ty addr f3 l3 s2 in
  let s4 := __trace_pointer_deref_write_loc p value f4 l4 s3 in
  g_address_to_name s4 !! addr = Some y ∧
  ∃ e1 frees1 e2 frees2 e3 frees3 e4 frees4,
    events s4 =
      events s ++ e1 :: frees1 ++ e2 :: frees2 ++ e3 :: frees3 ++ e4 :: frees4 ∧
    frees_of [json_safe_path f1] frees1 ∧
    frees_of [p; json_safe_path f2; x] frees2 ∧
    frees_of [json_safe_path f3] frees3 ∧
    frees_of [y; json_safe_path f4] frees4 ∧
    ev_type e2 = "pointer_alias" ∧ event_field "aliasOf" e2 = Some (JStr x) ∧
    ev_type e4 = "pointer_deref_write" ∧ ev_addr e4 = addr ∧
    event_field "targetName" e4 = Some (JStr y).
Proof.
  intros R _. cbv zeta.
  pose proof (declare_running x tx addr f1 l1 s R)
    as (R1 & _ & _ & _ & Ha1 & frees1 & He1 & Hfr1).
  pose proof (pointer_alias_running p addr d f2 l2 _ R1)
    as (R2 & _ & Ha2 & (frees2 & He2 & Hfr2) & _).
  pose proof (pointer_alias_found p addr d f2 l2 _ R1) as Hf2.
  pose proof (declare_running y ty addr f3 l3 _ R2)
    as (R3 & _ & Hst3 & Hr3 & Ha3 & frees3 & He3 & Hfr3).
  assert (Hf3 : findPointerInfo p (__trace_declare_loc y ty addr f3 l3
                  (__trace_pointer_alias_loc p addr d f2 l2
                     (__trace_declare_loc x tx addr f1 l1 s))) =
                Some {| pointerName := p; aliasedAddress := addr; isHeap := false;
                        heapAddress := 0 |}).
  { rewrite <- Hf2. unfold findPointerInfo. by rewrite Hst3, Hr3. }
  split.
  - by rewrite deref_write_address_to_name, Ha3, lookup_insert_eq.
  - destruct (pointer_deref_write_events p value f4 l4 _ R3) as (frees4 & He4 & Hfr4).
    rewrite Hf3 in He4, Hfr4. cbv beta iota in He4, Hfr4. simpl isHeap in He4.
    cbv iota in He4. simpl aliasedAddress in He4, Hfr4.
    rewrite Ha3, lookup_insert_eq in He4, Hfr4.
    rewrite Ha1, lookup_insert_eq in He2, Hfr2. simpl default in *.
    rewrite He4, He3, He2, He1, <- !app_assoc. simpl app.
    eexists _, frees1, _, frees2, _, frees3, _, frees4. split; [reflexivity|].
    split_and!; try done.
Qed.

End Tracer.

(** * The theorems at concrete inputs *)

(** C1: the thread is inside the tracer and the file is open. *)
Lemma trace_var_str_loc_unguarded_witness :
  let s := set_g_inside_tracer true (init_tracer None true initial_state) in
  let s' := trace_var_str_loc demo_clock demo_heap "msg" (Some "hi") None 7 s in
  TRACER_GUARD_ENTER s = None ∧ can_write s = true ∧
  trace_var_int_loc demo_clock demo_heap "x" 1 None 7 s = s ∧
  g_event_counter s' = (g_event_counter s + 1) mod 2 ^ 64 ∧
  ∃ e, events s' = events s ++ [e] ∧ ev_type e = "var" ∧ ev_id e = g_event_counter s.
Proof.
  intros s s'.
  assert (Hg : TRACER_GUARD_ENTER s = None) by reflexivity.
  assert (Hw : can_write s = true) by reflexivity.
  destruct (trace_var_str_loc_unguarded demo_clock demo_heap "msg" (Some "hi") 1 None 7 s Hg Hw)
    as (H1 & H2 & H3).
  split; [exact Hg|]. split; [exact Hw|]. split; [|split; [exact H2|exact H3]].
  reflexivity.
Defined.

(** C2: 2047 nested entries, then one more and its exit. *)
Lemma func_exit_after_refused_enter_witness :
  let s := session demo_dladdr demo_demangle demo_clock demo_heap [] None true
             (replicate 2047 (FuncEnter 100 1)) in
  let s1 := __cyg_profile_func_enter demo_dladdr demo_demangle demo_clock demo_heap 100 1 s in
  let s2 := __cyg_profile_func_exit demo_dladdr demo_demangle demo_clock 100 1 s1 in
  g_depth s = 2047 ∧ g_call_stack s = replicate 2046 demo_frame ++ [demo_frame] ∧
  s1 = s ∧ g_depth s2 = 2046 ∧ g_call_stack s2 = replicate 2046 demo_frame ∧ s2 ≠ s1.
Proof.
  intros s s1 s2.
  assert (Hdis : g_tracer_disabled s = false) by (vm_compute; reflexivity).
  assert (Hin : g_inside_tracer s = false) by (vm_compute; reflexivity).
  assert (Hd : g_depth s = 2047) by (vm_compute; reflexivity).
  assert (Hst : g_call_stack s = replicate 2046 demo_frame ++ [demo_frame])
    by (vm_compute; reflexivity).
  assert (Hnm : exit_name demo_dladdr demo_demangle 100 = Some "f()")
    by (vm_compute; reflexivity).
  destruct (func_exit_after_refused_enter demo_dladdr demo_demangle demo_clock demo_heap 100 1 s
              (replicate 2046 demo_frame) demo_frame "f()" Hdis Hin Hd Hst Hnm)
    as (H1 & H2 & H3 & H4).
  split; [exact Hd|]. split; [exact Hst|]. split; [exact H1|].
  split; [exact H2|]. split; [exact H3|exact H4].
Defined.

(** C4, as first stated: the disabled flag is clear, not set, in the state
    the process starts in; and on its way through [init_tracer] the flag is
    already clear after the second statement, when the header has not been
    written yet. *)
Lemma disabled_flag_initially_clear :
  g_tracer_disabled initial_state = false ∧
  (let s := run_steps (take 2 (init_steps "trace.json")) initial_state in
   g_tracer_disabled s = false ∧ trace_out s = []).
Proof. split; [reflexivity|]. split; reflexivity. Qed.

(** C5: a short session. *)
Lemma event_ids_sequential_witness :
  let s := session demo_dladdr demo_demangle demo_clock demo_heap [FuncEnter 100 1] (Some "t.json") true
             [FuncEnter 100 1; Assign "x" 3 None 1; VarStr "m" (Some "hi") None 2;
              FuncExit 100 1; FuncExit 100 1] in
  Z.of_nat (length (events s)) < 2 ^ 64 ∧
  ev_id <$> events s = seqZ 0 (Z.of_nat (length (events s))) ∧
  g_event_counter s = Z.of_nat (length (events s)) ∧
  ev_id <$> events s = [0; 1; 2; 3; 4].
Proof.
  intros s.
  assert (Hlen : Z.of_nat (length (events s)) < 2 ^ 64) by (vm_compute; reflexivity).
  destruct (event_ids_sequential demo_dladdr demo_demangle demo_clock demo_heap [FuncEnter 100 1]
              (Some "t.json") true _ Hlen) as (H1 & H2).
  split; [exact Hlen|]. split; [exact H1|]. split; [exact H2|].
  vm_compute. reflexivity.
Defined.

(** C6: two loops are open when the function exits. *)
Lemma loops_closed_at_func_exit_witness :
  let s := session demo_dladdr demo_demangle demo_clock demo_heap [] None true
             [FuncEnter 100 1; LoopStart 7 "for" None 3; LoopStart 8 "while" None 4] in
  let s' := __cyg_profile_func_exit demo_dladdr demo_demangle demo_clock 100 1 s in
  let top := {| functionName := "f()"; pointerAliases := ∅; activeLoops := [7; 8];
                loopIterations := <[8 := 0]> (<[7 := 0]> ∅) |} in
  g_call_stack s = [] ++ [top] ∧
  exit_name demo_dladdr demo_demangle 100 = Some "f()" ∧
  (∃ new e, events s' = events s ++ new ++ [e] ∧
            event_summary <$> new = [("loop_end", Some 8, 1); ("loop_end", Some 7, 1)] ∧
            event_summary e = ("func_exit", None, 1)) ∧
  g_call_stack s' = [] ∧
  ∀ before e after L, events s' = before ++ e :: after →
    ev_type e = "func_exit" → open_loops (ev_depth e) L before = 0%nat.
Proof.
  intros s s' top.
  assert (Hst : g_call_stack s = [] ++ [top]) by (vm_compute; reflexivity).
  assert (Hnm : exit_name demo_dladdr demo_demangle 100 = Some "f()")
    by (vm_compute; reflexivity).
  destruct (loops_closed_at_func_exit demo_dladdr demo_demangle demo_clock demo_heap [] None _
              100 1 [] top "f()" Hst Hnm) as (H1 & H2 & H3).
  split; [exact Hst|]. split; [exact Hnm|]. split; [exact H1|]. split; [exact H2|exact H3].
Defined.

(** C7: [p] aliases 4096 outside any function and 8192 inside [f]; and
    [p] aliases 4096 outside any function, 12288 inside [f] and 8192 inside
    the [f] that this [f] calls. *)
Lemma pointer_lookup_shadowing_witness :
  let infoA := {| pointerName := "p"; aliasedAddress := 4096; isHeap := false;
                  heapAddress := 0 |} in
  let infoB := {| pointerName := "p"; aliasedAddress := 8192; isHeap := false;
                  heapAddress := 0 |} in
  let infoC := {| pointerName := "p"; aliasedAddress := 12288; isHeap := false;
                  heapAddress := 0 |} in
  let top := {| functionName := "f()"; pointerAliases := {[ "p" := infoB ]};
                activeLoops := []; loopIterations := ∅ |} in
  let mid := {| functionName := "f()"; pointerAliases := {[ "p" := infoC ]};
                activeLoops := []; loopIterations := ∅ |} in
  let s := session demo_dladdr demo_demangle demo_clock demo_heap [] None true
             [PointerAlias "p" 4096 false None 1; FuncEnter 100 1;
              PointerAlias "p" 8192 false None 2] in
  let s1 := __trace_pointer_deref_write_loc demo_clock demo_heap "p" 5 None 9 s in
  let s2 := __cyg_profile_func_exit demo_dladdr demo_demangle demo_clock 100 1 s1 in
  let s3 := __trace_pointer_deref_write_loc demo_clock demo_heap "p" 5 None 9 s2 in
  let t := session demo_dladdr demo_demangle demo_clock demo_heap [] None true
             [PointerAlias "p" 4096 false None 1; FuncEnter 100 1;
              PointerAlias "p" 12288 false None 2; FuncEnter 100 1;
              PointerAlias "p" 8192 false None 3] in
  let t1 := __trace_pointer_deref_write_loc demo_clock demo_heap "p" 5 None 9 t in
  let t2 := __cyg_profile_func_exit demo_dladdr demo_demangle demo_clock 100 1 t1 in
  let t3 := __trace_pointer_deref_write_loc demo_clock demo_heap "p" 5 None 9 t2 in
  (running s ∧ g_call_stack s = [] ++ [top] ∧ g_pointer_registry s !! "p" = Some infoA ∧
   findPointerInfo "p" s = Some infoB ∧
   findPointerInfo "p" s2 = Some infoA ∧
   (∃ e rest, events s1 = events s ++ e :: rest ∧ ev_type e = "pointer_deref_write" ∧
              ev_addr e = aliasedAddress infoB) ∧
   (∃ e rest, events s3 = events s2 ++ e :: rest ∧ ev_type e = "pointer_deref_write" ∧
              ev_addr e = aliasedAddress infoA)) ∧
  (running t ∧ g_call_stack t = [mid] ++ [top] ∧ g_pointer_registry t !! "p" = Some infoA ∧
   findPointerInfo "p" t = Some infoB ∧
   findPointerInfo "p" t2 = Some infoC ∧
   (∃ e rest, events t1 = events t ++ e :: rest ∧ ev_type e = "pointer_deref_write" ∧
              ev_addr e = aliasedAddress infoB) ∧
   (∃ e rest, events t3 = events t2 ++ e :: rest ∧ ev_type e = "pointer_deref_write" ∧
              ev_addr e = aliasedAddress infoC)).
Proof.
  intros infoA infoB infoC top mid s s1 s2 s3 t t1 t2 t3.
  assert (Hnm : exit_name demo_dladdr demo_demangle 100 = Some "f()")
    by (vm_compute; reflexivity).
  assert (Htop : pointerAliases top !! "p" = Some infoB) by (vm_compute; reflexivity).
  assert (Hmid : pointerAliases mid !! "p" = Some infoC) by (vm_compute; reflexivity).
  split.
  - assert (R : running s).
    { repeat split; try (vm_compute; reflexivity). eexists. vm_compute. reflexivity. }
    assert (Hd : 0 < g_depth s) by (vm_compute; reflexivity).
    assert (Hst : g_call_stack s = [] ++ [top]) by (vm_compute; reflexivity).
    assert (Hreg : g_pointer_registry s !! "p" = Some infoA) by (vm_compute; reflexivity).
    destruct (pointer_lookup_shadowing demo_dladdr demo_demangle demo_clock demo_heap
                "p" infoA infoB [] top 100 1 "f()" 5 None 9 s R Hd Hst Htop Hreg Hnm)
      as (H1 & H2 & _ & _ & H5).
    destruct (H5 (Forall_nil_2 _)) as [H51 H52].
    split; [exact R|]. split; [exact Hst|]. split; [exact Hreg|]. split; [exact H1|].
    split; [exact H51|]. split; [exact H2|exact H52].
  - assert (R : running t).
    { repeat split; try (vm_compute; reflexivity). eexists. vm_compute. reflexivity. }
    assert (Hd : 0 < g_depth t) by (vm_compute; reflexivity).
    assert (Hst : g_call_stack t = [mid] ++ [top]) by (vm_compute; reflexivity).
    assert (Hreg : g_pointer_registry t !! "p" = Some infoA) by (vm_compute; reflexivity).
    destruct (pointer_lookup_shadowing demo_dladdr demo_demangle demo_clock demo_heap
                "p" infoA infoB [mid] top 100 1 "f()" 5 None 9 t R Hd Hst Htop Hreg Hnm)
      as (H1 & H2 & _ & H4 & _).
    destruct (H4 [] mid [] infoC eq_refl Hmid (Forall_nil_2 _)) as [H41 H42].
    split; [exact R|]. split; [exact Hst|]. split; [exact Hreg|]. split; [exact H1|].
    split; [exact H41|]. split; [exact H2|exact H42].
Defined.

(** C8: the instance of the claim, on an engine that has just started,
    with a path of 27 characters: each of the two events is followed by the
    [heap_free] event of the path. *)
Lemma array_index_assign_twice_witness :
  let s := session demo_dladdr demo_demangle demo_clock demo_heap [] None true [] in
  let key := {| arrayName := "arr"; idx1 := 2; idx2 := -1; idx3 := -1 |} in
  let file := Some "/home/user/project/main.cpp" in
  let s1 := __trace_array_index_assign_loc demo_clock demo_heap "arr" 2 (-1) (-1) 5 file 9 s in
  let s2 := __trace_array_index_assign_loc demo_clock demo_heap "arr" 2 (-1) (-1) 5 file 9 s1 in
  running s ∧
  g_array_element_values s1 !! key = Some 5 ∧
  g_array_element_values s2 !! key = Some 5 ∧
  g_array_element_values s2 = g_array_element_values s1 ∧
  (∃ e1 frees1 e2 frees2,
     events s2 = events s ++ e1 :: frees1 ++ e2 :: frees2 ∧
     ev_type e1 = "array_index_assign" ∧ ev_type e2 = "array_index_assign" ∧
     Forall own_free frees1 ∧ Forall own_free frees2 ∧
     length frees1 = 1%nat ∧ length frees2 = 1%nat ∧
     ev_id e1 = g_event_counter s ∧
     ev_id e2 = (ev_id e1 + 1 + Z.of_nat (length frees1)) mod 2 ^ 64 ∧
     ev_id e1 ≠ ev_id e2) ∧
  ev_type <$> events s2 =
    ["array_index_assign"; "heap_free"; "array_index_assign"; "heap_free"] ∧
  ev_id <$> events s2 = [0; 1; 2; 3].
Proof.
  intros s key file s1 s2.
  assert (R : running s).
  { repeat split; try (vm_compute; reflexivity). eexists. vm_compute. reflexivity. }
  destruct (array_index_assign_twice demo_clock demo_heap "arr" 2 (-1) (-1) 5 file 9 s R)
    as (H1 & H2 & H3 & H4).
  split; [exact R|]. split; [exact H1|]. split; [exact H2|]. split; [exact H3|].
  split; [exact H4|]. split; vm_compute; reflexivity.
Defined.


(** C10: the static initialiser at 200 and the library function at 300. *)
Lemma static_init_functions_dropped_witness :
  let s := session demo_dladdr demo_demangle demo_clock demo_heap [] None true [FuncEnter 100 1] in
  let s' := __cyg_profile_func_enter demo_dladdr demo_demangle demo_clock demo_heap 300 1 s in
  is_static_init (demangle demo_demangle "_GLOBAL__sub_I_main") = true ∧
  __cyg_profile_func_enter demo_dladdr demo_demangle demo_clock demo_heap 200 1 s = s ∧
  __cyg_profile_func_exit demo_dladdr demo_demangle demo_clock 200 1 s = s ∧
  g_depth s' = g_depth s + 1 ∧
  g_call_stack s' = g_call_stack s ++
    [{| functionName := "user_function"; pointerAliases := ∅;
        activeLoops := []; loopIterations := ∅ |}] ∧
  ∃ e, events s' = events s ++ [e] ∧ ev_type e = "func_enter" ∧
       ev_func e = "user_function" ∧ ev_depth e = g_depth s + 1.
Proof.
  intros s s'.
  assert (R : running s).
  { repeat split; try (vm_compute; reflexivity). eexists. vm_compute. reflexivity. }
  assert (Hst : is_static_init (demangle demo_demangle "_GLOBAL__sub_I_main") = true)
    by (vm_compute; reflexivity).
  destruct (static_init_functions_dropped demo_dladdr demo_demangle demo_clock demo_heap 200 1
              {| dli_fname := Some "/home/user/a.out";
                 dli_sname := Some "_GLOBAL__sub_I_main" |}
              "_GLOBAL__sub_I_main" s eq_refl eq_refl Hst) as (H1 & H2 & H3).
  split; [exact Hst|]. split; [exact H1|]. split; [exact H2|].
  assert (Hd : g_depth s + 1 < 2048) by (vm_compute; reflexivity).
  exact (H3 300 1 {| dli_fname := Some "/usr/lib/libm.so.6"; dli_sname := Some "cos" |}
           "cos" "/usr/lib/libm.so.6" eq_refl eq_refl eq_refl eq_refl eq_refl R Hd).
Defined.

(** The scenario of the specification: [f] is entered, declares an array
    of three [int], assigns its elements and returns. *)
Example scenario_array_in_function :
  let s := session demo_dladdr demo_demangle demo_clock demo_heap [] None true
             [FuncEnter 100 1; ArrayCreate "arr" "int" 4096 3 0 0 true None 2;
              ArrayIndexAssign "arr" 0 (-1) (-1) 10 None 3;
              ArrayIndexAssign "arr" 1 (-1) (-1) 20 None 4;
              ArrayIndexAssign "arr" 2 (-1) (-1) 30 None 5;
              FuncExit 100 1] in
  ev_type <$> events s =
    ["func_enter"; "array_create"; "array_index_assign"; "array_index_assign";
     "array_index_assign"; "func_exit"] ∧
  ev_depth <$> events s = [1; 1; 1; 1; 1; 1] ∧
  g_array_element_values s !! {| arrayName := "arr"; idx1 := 0; idx2 := -1; idx3 := -1 |}
    = Some 10 ∧
  g_array_element_values s !! {| arrayName := "arr"; idx1 := 1; idx2 := -1; idx3 := -1 |}
    = Some 20 ∧
  g_array_element_values s !! {| arrayName := "arr"; idx1 := 2; idx2 := -1; idx3 := -1 |}
    = Some 30 ∧
  size (g_array_element_values s) = 3%nat ∧
  g_depth s = 0 ∧ g_call_stack s = [].
Proof. intros s. repeat split; vm_compute; reflexivity. Qed.

(** * The further properties at concrete inputs *)

(** X7: A [malloc] of 16 bytes that returned 4096, inside [f]. *)
Lemma alloc_hook_records_witness :
  let s := session demo_dladdr demo_demangle demo_clock demo_heap [] None true [FuncEnter 100 1] in
  let s' := malloc demo_clock 16 4096 s in
  running s ∧ malloc demo_clock 16 0 s = s ∧ running s' ∧
  ev_type <$> events s' = ["func_enter"; "heap_alloc"] ∧
  g_event_counter s' = 2.
Proof.
  intros s s'.
  assert (R : running s).
  { repeat split; try (vm_compute; reflexivity). eexists. vm_compute. reflexivity. }
  destruct (alloc_hook_records demo_clock "malloc" 16 4096 s R) as (H1 & H2 & H3 & _).
  destruct (H2 ltac:(discriminate)) as [He Hc].
  split; [exact R|]. split; [exact H1|]. split; [exact H3|]. split.
  - unfold s', malloc. rewrite He. vm_compute. reflexivity.
  - unfold s', malloc. rewrite Hc. vm_compute. reflexivity.
Defined.

(** X8: A [free] of the pointer 4096, inside [f]. *)
Lemma free_hook_records_witness :
  let s := session demo_dladdr demo_demangle demo_clock demo_heap [] None true [FuncEnter 100 1] in
  let s' := free demo_clock 4096 s in
  running s ∧ free demo_clock 0 s = s ∧ running s' ∧
  ev_type <$> events s' = ["func_enter"; "heap_free"].
Proof.
  intros s s'.
  assert (R : running s).
  { repeat split; try (vm_compute; reflexivity). eexists. vm_compute. reflexivity. }
  destruct (free_hook_records demo_clock "free" 4096 s R) as (H1 & H2 & H3 & _).
  destruct (H2 ltac:(discriminate)) as [He Hc].
  split; [exact R|]. split; [exact H1|]. split; [exact H3|].
  unfold s', free. rewrite He. vm_compute. reflexivity.
Defined.

(** X9: A write through the heap pointer [q] of [f], reported from a file
    whose path has 27 characters. *)
Lemma pointer_deref_write_reports_witness :
  let s := session demo_dladdr demo_demangle demo_clock demo_heap [] None true
             [FuncEnter 100 1; PointerHeapInit "q" 24576 None 4] in
  let file := Some "/home/user/project/main.cpp" in
  let s' := __trace_pointer_deref_write_loc demo_clock demo_heap "q" 7 file 5 s in
  running s ∧
  (∃ e h frees, events s' = events s ++ e :: h :: frees ∧
                frees_of ["unknown"; "/home/user/project/main.cpp"] frees ∧
                ev_type e = "pointer_deref_write" ∧ ev_addr e = 24576 ∧
                ev_type h = "heap_write" ∧ ev_addr h = 24576) ∧
  ev_type <$> events s' = ["func_enter"; "pointer_deref_write"; "heap_write"; "heap_free"].
Proof.
  intros s file s'.
  assert (R : running s).
  { repeat split; try (vm_compute; reflexivity). eexists. vm_compute. reflexivity. }
  assert (Hf : findPointerInfo "q" s =
               Some {| pointerName := "q"; aliasedAddress := 24576; isHeap := true;
                       heapAddress := 24576 |}) by (vm_compute; reflexivity).
  assert (Hlen : (String.length "q" +
                  String.length
                    match findPointerInfo "q" s with
                    | Some pinfo =>
                        default "unknown" (g_address_to_name s !! aliasedAddress pinfo)
                    | None => "unknown"
                    end +
                  String.length (json_safe_path file) ≤ 400)%nat)
    by (apply Nat.leb_le; vm_compute; reflexivity).
  destruct (pointer_deref_write_reports demo_clock demo_heap "q" 7 file 5 s R Hlen)
    as (e & frees & Hfr & Hty & _ & _ & _ & Hm).
  rewrite Hf in Hm, Hfr. destruct Hm as (Ha & _ & _ & h & He & Hth & Hah & _).
  split; [exact R|]. split.
  - exists e, h, frees.
    split; [exact He|]. split; [exact Hfr|]. split; [exact Hty|]. split; [exact Ha|].
    split; [exact Hth|exact Hah].
  - vm_compute. reflexivity.
Defined.


(** X11: Inside [f]: a heap pointer [q] and an alias [a]; then [f] returns. *)
Lemma alias_dies_with_frame_witness :
  let s := session demo_dladdr demo_demangle demo_clock demo_heap [] None true [FuncEnter 100 1] in
  let heap := {| pointerName := "q"; aliasedAddress := 24576; isHeap := true;
                 heapAddress := 24576 |} in
  let s1 := __trace_pointer_heap_init_loc demo_clock demo_heap "q" 24576 None 2 s in
  let s2 := __trace_pointer_alias_loc demo_clock demo_heap "a" 4096 false None 2 s1 in
  let s3 := __cyg_profile_func_exit demo_dladdr demo_demangle demo_clock 100 1 s2 in
  running s ∧ 0 < g_depth s ∧ g_call_stack s = [] ++ [demo_frame] ∧
  exit_name demo_dladdr demo_demangle 100 = Some "f()" ∧
  g_pointer_registry s !! "a" = None ∧
  findPointerInfo "q" s2 = Some heap ∧
  findPointerInfo "a" s2 =
    Some {| pointerName := "a"; aliasedAddress := 4096; isHeap := false; heapAddress := 0 |} ∧
  g_call_stack s3 = [] ∧
  findPointerInfo "q" s3 = Some heap ∧
  findPointerInfo "a" s3 = None.
Proof.
  intros s heap s1 s2 s3.
  assert (R : running s).
  { repeat split; try (vm_compute; reflexivity). eexists. vm_compute. reflexivity. }
  assert (Hd : 0 < g_depth s) by (vm_compute; reflexivity).
  assert (Hst : g_call_stack s = [] ++ [demo_frame]) by (vm_compute; reflexivity).
  assert (Hnm : exit_name demo_dladdr demo_demangle 100 = Some "f()")
    by (vm_compute; reflexivity).
  assert (Hpq : "q" ≠ "a") by discriminate.
  assert (Hv : Forall (fun fr => pointerAliases fr !! "q" = None ∧
                                 pointerAliases fr !! "a" = None) []) by constructor.
  assert (Hreg : g_pointer_registry s !! "a" = None) by (vm_compute; reflexivity).
  split; [exact R|]. split; [exact Hd|]. split; [exact Hst|]. split; [exact Hnm|].
  split; [exact Hreg|].
  exact (alias_dies_with_frame demo_dladdr demo_demangle demo_clock demo_heap "q" 24576 "a" 4096 false
           None 2 100 1 "f()" [] demo_frame s R Hd Hst Hnm Hpq Hv Hreg).
Defined.

(** X12: [char msg[] = "hi"], in a file whose path has 27 characters. *)
Lemma array_init_string_records_witness :
  let s := session demo_dladdr demo_demangle demo_clock demo_heap [] None true [] in
  let file := Some "/home/user/project/main.cpp" in
  let s' := __trace_array_init_string_loc demo_clock demo_heap "msg" (Some "hi") file 3 s in
  running s ∧ running s' ∧
  g_array_element_values s' !! element_key "msg" 0 = Some 104 ∧
  g_array_element_values s' !! element_key "msg" 1 = Some 105 ∧
  g_array_element_values s' !! element_key "msg" 2 = Some 0 ∧
  g_array_element_values s' !! element_key "other" 0 = None ∧
  ev_type <$> events s' =
    ["array_index_assign"; "array_index_assign"; "array_index_assign"; "heap_free"].
Proof.
  intros s file s'.
  assert (R : running s).
  { repeat split; try (vm_compute; reflexivity). eexists. vm_compute. reflexivity. }
  assert (Hlen : (String.length "msg" + String.length (json_safe_path file) ≤ 150)%nat)
    by (apply Nat.leb_le; vm_compute; reflexivity).
  destruct (array_init_string_records demo_clock demo_heap "msg" (Some "hi") file 3 s R Hlen)
    as (H1 & _ & H3 & _ & _ & H6).
  split; [exact R|]. split; [exact H1|].
  split; [exact (H3 0%nat 104 eq_refl)|].
  split; [exact (H3 1%nat 105 eq_refl)|].
  split; [exact (H3 2%nat 0 eq_refl)|].
  split.
  - unfold s'. rewrite H6.
    + vm_compute. reflexivity.
    + intros i _. discriminate.
  - vm_compute. reflexivity.
Defined.


(** X14: Three iterations of the loop 7 of [f], in a file whose path has
    27 characters. *)
Lemma loop_iterations_count_witness :
  let s := session demo_dladdr demo_demangle demo_clock demo_heap [] None true
             [FuncEnter 100 1] in
  let file := Some "/home/user/project/main.cpp" in
  let s1 := __trace_loop_start_loc demo_clock demo_heap 7 "for" file 3 s in
  let sk := Nat.iter 3 (__trace_loop_body_start_loc demo_clock demo_heap 7 file 3) s1 in
  let se := __trace_loop_iteration_end_loc demo_clock demo_heap 7 file 3 sk in
  running s ∧ g_call_stack s = [] ++ [demo_frame] ∧
  (∃ top', g_call_stack sk = [] ++ [top'] ∧ loopIterations top' !! 7 = Some 3 ∧
           activeLoops top' = [7]) ∧
  (∃ e frees, events se = events sk ++ e :: frees ∧ ev_type e = "loop_iteration_end" ∧
              event_field "iteration" e = Some (JInt 3) ∧
              frees_of ["/home/user/project/main.cpp"] frees) ∧
  g_call_stack se = g_call_stack sk ∧
  ev_type <$> events se =
    ["func_enter"; "loop_start"; "heap_free"; "loop_body_start"; "heap_free";
     "loop_body_start"; "heap_free"; "loop_body_start"; "heap_free";
     "loop_iteration_end"; "heap_free"].
Proof.
  intros s file s1 sk se.
  assert (R : running s).
  { repeat split; try (vm_compute; reflexivity). eexists. vm_compute. reflexivity. }
  assert (Hst : g_call_stack s = [] ++ [demo_frame]) by (vm_compute; reflexivity).
  assert (Hk : Z.of_nat 3 < 2 ^ 31) by (vm_compute; reflexivity).
  assert (Hlen : (String.length (json_safe_path file) ≤ 150)%nat)
    by (apply Nat.leb_le; vm_compute; reflexivity).
  destruct (loop_iterations_count demo_clock demo_heap 7 "for" file 3 3 [] demo_frame s
              R Hst Hk Hlen) as (_ & H2 & H3 & H4).
  split; [exact R|]. split; [exact Hst|]. split; [exact H2|]. split; [exact H3|].
  split; [exact H4|]. vm_compute. reflexivity.
Defined.

(** X15: A loop outside any function, in a file whose path has 27
    characters. *)
Lemma loop_iteration_without_frame_witness :
  let file := Some "/home/user/project/main.cpp" in
  let s := session demo_dladdr demo_demangle demo_clock demo_heap [] None true
             [LoopStart 7 "while" file 2; LoopBodyStart 7 file 3] in
  let b := __trace_loop_body_start_loc demo_clock demo_heap 7 file 3 s in
  running s ∧ g_call_stack s = [] ∧
  (∃ x frees, events b = events s ++ x :: frees ∧ ev_type x = "loop_body_start" ∧
              event_field "iteration" x = Some (JInt 0) ∧
              frees_of ["/home/user/project/main.cpp"] frees) ∧
  g_call_stack b = [] ∧
  ev_type <$> events b =
    ["loop_start"; "heap_free"; "loop_body_start"; "heap_free"; "loop_body_start";
     "heap_free"].
Proof.
  intros file s b.
  assert (R : running s).
  { repeat split; try (vm_compute; reflexivity). eexists. vm_compute. reflexivity. }
  assert (Hst : g_call_stack s = []) by (vm_compute; reflexivity).
  assert (Hlen : (String.length (json_safe_path file) ≤ 150)%nat)
    by (apply Nat.leb_le; vm_compute; reflexivity).
  destruct (loop_iteration_without_frame demo_clock demo_heap 7 file 3 s R Hst Hlen)
    as (H1 & _ & _ & H4 & _).
  split; [exact R|]. split; [exact Hst|]. split; [exact H1|]. split; [exact H4|].
  vm_compute. reflexivity.
Defined.

(** X16: The loop 7 of [f] starts and ends, in a file whose path has 27
    characters. *)
Lemma loop_start_end_balanced_witness :
  let s := session demo_dladdr demo_demangle demo_clock demo_heap [] None true
             [FuncEnter 100 1] in
  let file := Some "/home/user/project/main.cpp" in
  let s2 := __trace_loop_end_loc demo_clock demo_heap 7 file 3
              (__trace_loop_start_loc demo_clock demo_heap 7 "for" file 3 s) in
  running s ∧ g_call_stack s = [] ++ [demo_frame] ∧
  (∃ e1 frees1 e2 frees2,
     events s2 = events s ++ e1 :: frees1 ++ e2 :: frees2 ∧
     event_summary e1 = ("loop_start", Some 7, g_depth s) ∧
     event_summary e2 = ("loop_end", Some 7, g_depth s) ∧
     frees_of ["/home/user/project/main.cpp"] frees1 ∧
     frees_of ["/home/user/project/main.cpp"] frees2) ∧
  activeLoops <$> g_call_stack s2 = [[]] ∧
  ev_type <$> events s2 = ["func_enter"; "loop_start"; "heap_free"; "loop_end"; "heap_free"].
Proof.
  intros s file s2.
  assert (R : running s).
  { repeat split; try (vm_compute; reflexivity). eexists. vm_compute. reflexivity. }
  assert (Hst : g_call_stack s = [] ++ [demo_frame]) by (vm_compute; reflexivity).
  destruct (loop_start_end_balanced demo_clock demo_heap 7 "for" file 3 [] demo_frame s R Hst)
    as (H1 & _ & _).
  split; [exact R|]. split; [exact Hst|]. split; [exact H1|].
  split; vm_compute; reflexivity.
Defined.


(** X26: [compute_checksum_of_block], a function whose name has 25
    characters, is called and returns, at the start of a session. *)
Lemma enter_exit_restores_witness :
  let nm := "compute_checksum_of_block" in
  let s := session demo_dladdr_long demo_demangle demo_clock demo_heap [] None true [] in
  let s2 := __cyg_profile_func_exit demo_dladdr_long demo_demangle demo_clock 500 1
              (__cyg_profile_func_enter demo_dladdr_long demo_demangle demo_clock demo_heap
                 500 1 s) in
  g_depth s + 1 < 2048 ∧
  enter_name demo_dladdr_long demo_demangle 500 = Some nm ∧
  exit_name demo_dladdr_long demo_demangle 500 = Some nm ∧
  g_depth s2 = g_depth s ∧ g_call_stack s2 = g_call_stack s ∧
  g_current_function s2 = g_current_function s ∧
  normalize_function_name (Some nm) ∈ g_tracked_functions s2 ∧
  (∃ e1 frees e2, events s2 = events s ++ e1 :: frees ++ [e2] ∧
     frees_of [normalize_function_name (Some nm); nm] frees ∧
     ev_type e1 = "func_enter" ∧ ev_func e1 = nm ∧ ev_depth e1 = g_depth s + 1 ∧
     ev_type e2 = "func_exit" ∧ ev_func e2 = nm ∧ ev_depth e2 = g_depth s + 1) ∧
  ev_type <$> events s2 = ["func_enter"; "heap_free"; "heap_free"; "func_exit"].
Proof.
  intros nm s s2.
  assert (Hd : g_depth s + 1 < 2048) by (vm_compute; reflexivity).
  assert (Hn1 : enter_name demo_dladdr_long demo_demangle 500 = Some nm)
    by (vm_compute; reflexivity).
  assert (Hn2 : exit_name demo_dladdr_long demo_demangle 500 = Some nm)
    by (vm_compute; reflexivity).
  split; [exact Hd|]. split; [exact Hn1|]. split; [exact Hn2|].
  destruct (enter_exit_restores demo_dladdr_long demo_demangle demo_clock demo_heap [] None []
              500 1 nm nm Hd Hn1 Hn2) as (H1 & H2 & H3 & H4 & H5).
  split; [exact H1|]. split; [exact H2|]. split; [exact H3|]. split; [exact H4|].
  split; [exact H5|]. vm_compute. reflexivity.
Defined.

(** X27: An engine that has just started keeps running. *)
Lemma running_is_stable_witness :
  let s := init_tracer None true initial_state in
  running s ∧
  running (run demo_dladdr demo_demangle demo_clock demo_heap
             [FuncEnter 100 1; VarStr "m" (Some "hi") None 2; Malloc 8 4096; FuncExit 100 1] s).
Proof.
  intros s.
  assert (R : running s).
  { repeat split; try (vm_compute; reflexivity). eexists. vm_compute. reflexivity. }
  split; [exact R|].
  exact (running_is_stable demo_dladdr demo_demangle demo_clock demo_heap _ s R).
Defined.

(** X28: [accumulated_total] at 4096, [p = &accumulated_total], then
    [y] at 4096 and [*p = 5]: the name of the first variable has 17
    characters. *)
Lemma stale_alias_takes_new_name_witness :
  let s := session demo_dladdr demo_demangle demo_clock demo_heap [] None true [] in
  let x := "accumulated_total" in
  let s1 := __trace_declare_loc demo_clock demo_heap x "int" 4096 None 1 s in
  let s2 := __trace_pointer_alias_loc demo_clock demo_heap "p" 4096 false None 2 s1 in
  let s3 := __trace_declare_loc demo_clock demo_heap "y" "int" 4096 None 3 s2 in
  let s4 := __trace_pointer_deref_write_loc demo_clock demo_heap "p" 5 None 4 s3 in
  running s ∧
  g_address_to_name s4 !! 4096 = Some "y" ∧
  (∃ e1 frees1 e2 frees2 e3 frees3 e4 frees4,
     events s4 =
       events s ++ e1 :: frees1 ++ e2 :: frees2 ++ e3 :: frees3 ++ e4 :: frees4 ∧
     frees_of [""] frees1 ∧ frees_of ["p"; ""; x] frees2 ∧
     frees_of [""] frees3 ∧ frees_of ["y"; ""] frees4 ∧
     ev_type e2 = "pointer_alias" ∧ event_field "aliasOf" e2 = Some (JStr x) ∧
     ev_type e4 = "pointer_deref_write" ∧ ev_addr e4 = 4096 ∧
     event_field "targetName" e4 = Some (JStr "y")) ∧
  ev_type <$> events s4 =
    ["declare"; "pointer_alias"; "heap_free"; "declare"; "pointer_deref_write"].
Proof.
  intros s x s1 s2 s3 s4.
  assert (R : running s).
  { repeat split; try (vm_compute; reflexivity). eexists. vm_compute. reflexivity. }
  assert (Hlen : (String.length x + String.length "y" + String.length "p" +
                  String.length (json_safe_path None) +
                  String.length (json_safe_path None) ≤ 400)%nat)
    by (apply Nat.leb_le; vm_compute; reflexivity).
  destruct (stale_alias_takes_new_name demo_clock demo_heap x "y" "int" "int" 4096 "p"
              false 5 None 1 None 2 None 3 None 4 s R Hlen) as (H1 & H2).
  split; [exact R|]. split; [exact H1|]. split; [exact H2|]. vm_compute. reflexivity.
Defined.

(** X5: The function at 400 lies in "/opt/app/libcustom.so". *)
Lemma enter_exit_names_differ_witness :
  strstr "/opt/app/libcustom.so" "libc" || strstr "/opt/app/libcustom.so" "libstdc++" = true ∧
  strstr "/opt/app/libcustom.so" "/usr/" || strstr "/opt/app/libcustom.so" "/lib/" = false ∧
  enter_name demo_dladdr_local demo_demangle 400 = Some "user_function" ∧
  exit_name demo_dladdr_local demo_demangle 400 = Some "helper".
Proof.
  assert (Hl : strstr "/opt/app/libcustom.so" "libc" ||
               strstr "/opt/app/libcustom.so" "libstdc++" = true) by (vm_compute; reflexivity).
  assert (Hu : strstr "/opt/app/libcustom.so" "/usr/" ||
               strstr "/opt/app/libcustom.so" "/lib/" = false) by (vm_compute; reflexivity).
  assert (Hi : is_static_init (demangle demo_demangle "helper") = false)
    by (vm_compute; reflexivity).
  split; [exact Hl|]. split; [exact Hu|].
  exact (enter_exit_names_differ demo_dladdr_local demo_demangle 400
           {| dli_fname := Some "/opt/app/libcustom.so"; dli_sname := Some "helper" |}
           "helper" "/opt/app/libcustom.so" eq_refl eq_refl eq_refl Hi Hl Hu).
Defined.
